(** * Sensor placement by particle swarm optimisation: scoring engine and optimizer

    Shallow embedding of [config.py], [funciones_objetivo.py],
    [algoritmo_pso.py], the run of [main.py] and the random and
    critical-zone baselines of [configuraciones.py].

    Numbers: the Python code computes with IEEE doubles; here every float is a
    real number ([R]) and arithmetic is exact, which is the idealisation the
    specification means by "within floating tolerance".  A [NaN] has no
    counterpart in [R]; the one place where the code can meet one (the extrema
    of an empty column) is represented by [None].

    Exceptions: a Python function that can raise returns a [resultado].

    Randomness: NumPy's module-level generator is process-wide state; it is
    threaded explicitly as a [Generador]. *)

From Stdlib Require String.
From Stdlib Require Import Reals List ZArith Lia Lra Bool Arith Permutation.
Import ListNotations.
Open Scope R_scope.

(* ================================================================== *)
(** ** Exceptions *)

Inductive Cultivo : Type :=
| Maiz
| Tomate
| Chile
| Otro (etiqueta : String.string).

Definition Cultivo_eqb (a b : Cultivo) : bool :=
  match a, b with
  | Maiz, Maiz | Tomate, Tomate | Chile, Chile => true
  | Otro s, Otro t => String.eqb s t
  | _, _ => false
  end.

Inductive Excepcion : Type :=
| IndexError
| KeyError (clave : Cultivo)
| ZeroDivisionError
| ValueError
| OverflowError.

Inductive resultado (A : Type) : Type :=
| Ok (a : A)
| Error (e : Excepcion).
Arguments Ok {A} a.
Arguments Error {A} e.

Definition ligar {A B} (m : resultado A) (k : A -> resultado B) : resultado B :=
  match m with
  | Ok a => k a
  | Error e => Error e
  end.

Notation "x <- m ;; k" := (ligar m (fun x => k))
  (at level 61, m at next level, right associativity).

(** [[f(x) for x in xs]] where [f] may raise. *)
Fixpoint mapear {A B} (f : A -> resultado B) (xs : list A) : resultado (list B) :=
  match xs with
  | [] => Ok []
  | x :: resto =>
      y <- f x ;;
      ys <- mapear f resto ;;
      Ok (y :: ys)
  end.

(** Comparisons of floats as booleans. *)
Definition Rle_b (x y : R) : bool := if Rle_dec x y then true else false.
Definition Rlt_b (x y : R) : bool := if Rlt_dec x y then true else false.
Definition Rgt_b (x y : R) : bool := Rlt_b y x.
Definition Rge_b (x y : R) : bool := Rle_b y x.

(** [l[i]] on a Python list or array. *)
Definition indice {A} (l : list A) (i : nat) : resultado A :=
  match nth_error l i with
  | Some x => Ok x
  | None => Error IndexError
  end.

(* ================================================================== *)
(** ** config.py *)

Module CONFIG.
Definition radio_cobertura : R := 12 / 1000.
Definition radio_influencia : R := 18 / 1000.
Definition distancia_ideal : R := 25 / 1000.
Definition peso_cobertura : R := 35 / 100.
Definition peso_balance_cultivos : R := 25 / 100.
Definition peso_zonas_criticas : R := 25 / 100.
Definition peso_distribucion : R := 15 / 100.
End CONFIG.

Module PSO_CONFIG.
Definition inercia : R := 7 / 10.
Definition cognitivo : R := 15 / 10.
Definition social : R := 15 / 10.
Definition velocidad_maxima : R := 5 / 1000.
End PSO_CONFIG.

(* ================================================================== *)
(** ** The dataset: one record per DataFrame row *)

Record Punto : Type := mkPunto {
  Latitud : R;
  Longitud : R;
  cultivo : Cultivo;
  Humedad : R;
  Salinidad : R;
  Elevacion : R;
  Temperatura : R
}.

(** A sensor is the Python list [[lat, lon]]; a configuration is a list of
    them. *)
Abbreviation Sensor := (list R) (only parsing).

(* ================================================================== *)
(** ** funciones_objetivo.py *)

Definition calcular_distancia (punto1 punto2 : list R) : resultado R :=
  a0 <- indice punto1 0 ;;
  b0 <- indice punto2 0 ;;
  a1 <- indice punto1 1 ;;
  b1 <- indice punto2 1 ;;
  Ok (sqrt ((a0 - b0) ^ 2 + (a1 - b1) ^ 2)).

Definition coords (punto : Punto) : list R := [Latitud punto; Longitud punto].

(** Python's [min] of a list: [ValueError] on the empty list. *)
Definition minimo (l : list R) : resultado R :=
  match l with
  | [] => Error ValueError
  | x :: resto => Ok (fold_left Rmin resto x)
  end.

(** [a / n] where [n] is a Python [int] (a row count) and [a] is the [int] 0
    whenever [n] is 0: Python raises on the zero divisor. *)
Definition dividir (a : R) (n : nat) : resultado R :=
  match n with
  | O => Error ZeroDivisionError
  | S _ => Ok (a / INR n)
  end.

(** The credit one sample point earns from the distance to its nearest
    sensor (lines 48-52). *)
Definition credito_cobertura (dist_minima : R) : R :=
  let radio := CONFIG.radio_cobertura in
  if Rle_b dist_minima radio then 1
  else Rmax 0 (1 - (dist_minima - radio) / (2 * radio)).

(** The loop of [calcular_cobertura_variabilidad], with the accumulator
    [puntaje]. *)
Fixpoint cobertura_bucle (ubicaciones_sensores : list Sensor)
    (filas : list Punto) (puntaje : R) : resultado R :=
  match filas with
  | [] => Ok puntaje
  | punto :: resto =>
      distancias <- mapear (calcular_distancia (coords punto)) ubicaciones_sensores ;;
      dist_minima <- minimo distancias ;;
      cobertura_bucle ubicaciones_sensores resto
        (puntaje + credito_cobertura dist_minima)
  end.

Definition calcular_cobertura_variabilidad
    (ubicaciones_sensores : list Sensor) (datos : list Punto) : resultado R :=
  let total_puntos := length datos in
  puntaje <- cobertura_bucle ubicaciones_sensores datos 0 ;;
  dividir puntaje total_puntos.

(** [any(calcular_distancia(p, s) <= radio for s in sensores)]: the generator
    is consumed until the first sensor in range. *)
Fixpoint cubierto (punto_coords : list R) (radio : R)
    (ubicaciones_sensores : list Sensor) : resultado bool :=
  match ubicaciones_sensores with
  | [] => Ok false
  | sensor :: resto =>
      d <- calcular_distancia punto_coords sensor ;;
      if Rle_b d radio then Ok true
      else cubierto punto_coords radio resto
  end.

(** Number of rows of [filas] covered within [radio]. *)
Fixpoint contar_cubiertos (ubicaciones_sensores : list Sensor) (radio : R)
    (filas : list Punto) (cuenta : nat) : resultado nat :=
  match filas with
  | [] => Ok cuenta
  | punto :: resto =>
      c <- cubierto (coords punto) radio ubicaciones_sensores ;;
      contar_cubiertos ubicaciones_sensores radio resto
        (if c then S cuenta else cuenta)
  end.

(** [datos[datos['Cultivo'] == c]]. *)
Definition filas_de (c : Cultivo) (datos : list Punto) : list Punto :=
  filter (fun p => Cultivo_eqb (cultivo p) c) datos.

(** [datos['Cultivo'].value_counts()[c]]: the Series has an entry only for the
    labels that occur, so the lookup of an absent label raises [KeyError]. *)
Definition conteo_total (datos : list Punto) (c : Cultivo) : resultado nat :=
  match length (filas_de c datos) with
  | O => Error (KeyError c)
  | S n => Ok (S n)
  end.

(** The keys of [conteo_cubierto], in insertion order. *)
Definition claves_cultivo : list Cultivo := [Maiz; Tomate; Chile].

(** The second loop of [balance_entre_cultivos]: [cubiertos] pairs every key
    with its entry of [conteo_cubierto]. *)
Fixpoint balance_bucle (datos : list Punto) (cubiertos : list (Cultivo * nat))
    (puntaje_balance : R) : resultado R :=
  match cubiertos with
  | [] => Ok puntaje_balance
  | (c, n_cubierto) :: resto =>
      total <- conteo_total datos c ;;
      let proporcion_ideal := INR total / INR (length datos) in
      let cobertura_real := INR n_cubierto / INR total in
      let diferencia := Rabs (proporcion_ideal - cobertura_real) in
      let puntaje_cultivo := 1 - diferencia in
      balance_bucle datos resto (puntaje_balance + Rmin puntaje_cultivo 1)
  end.

Definition balance_entre_cultivos
    (ubicaciones_sensores : list Sensor) (datos : list Punto) : resultado R :=
  let radio := CONFIG.radio_influencia in
  conteo_cubierto <-
    mapear (fun c =>
              n <- contar_cubiertos ubicaciones_sensores radio (filas_de c datos) 0 ;;
              Ok (c, n))
           claves_cultivo ;;
  puntaje_balance <- balance_bucle datos conteo_cubierto 0 ;;
  Ok (puntaje_balance / INR (length conteo_cubierto)).

Definition es_critica (p : Punto) : bool :=
  Rgt_b (Salinidad p) (25 / 10) || Rlt_b (Humedad p) 15 || Rgt_b (Humedad p) 40.

Definition cubrir_zonas_problematicas
    (ubicaciones_sensores : list Sensor) (datos : list Punto) : resultado R :=
  let zonas_criticas := filter es_critica datos in
  match zonas_criticas with
  | [] => Ok 1
  | _ :: _ =>
      let radio_critico := 1 / 100 in
      puntos_cubiertos <-
        contar_cubiertos ubicaciones_sensores radio_critico zonas_criticas 0 ;;
      Ok (INR puntos_cubiertos / INR (length zonas_criticas))
  end.

(** The nested loops over [i < j] of [optimizar_distancias]. *)
Fixpoint distancias_pares (ubicaciones_sensores : list Sensor) : resultado (list R) :=
  match ubicaciones_sensores with
  | [] => Ok []
  | s :: resto =>
      fila <- mapear (calcular_distancia s) resto ;;
      otras <- distancias_pares resto ;;
      Ok (fila ++ otras)
  end.

Definition credito_dispersion (dist : R) : R :=
  let dist_ideal := CONFIG.distancia_ideal in
  if Rge_b dist (dist_ideal * (7 / 10)) && Rle_b dist (dist_ideal * (13 / 10))
  then 1
  else Rmax 0 (1 - Rabs (dist - dist_ideal) / dist_ideal).

Definition optimizar_distancias (ubicaciones_sensores : list Sensor) : resultado R :=
  if (length ubicaciones_sensores <=? 1)%nat then Ok 1
  else
    distancias <- distancias_pares ubicaciones_sensores ;;
    let puntaje_dispersion :=
      fold_left (fun acc dist => acc + credito_dispersion dist) distancias 0 in
    dividir puntaje_dispersion (length distancias).

Definition funcion_objetivo
    (ubicaciones_sensores : list Sensor) (datos : list Punto) : resultado R :=
  puntaje_cobertura <- calcular_cobertura_variabilidad ubicaciones_sensores datos ;;
  puntaje_cultivos <- balance_entre_cultivos ubicaciones_sensores datos ;;
  puntaje_criticas <- cubrir_zonas_problematicas ubicaciones_sensores datos ;;
  puntaje_distribucion <- optimizar_distancias ubicaciones_sensores ;;
  Ok (CONFIG.peso_cobertura * puntaje_cobertura
      + CONFIG.peso_balance_cultivos * puntaje_cultivos
      + CONFIG.peso_zonas_criticas * puntaje_criticas
      + CONFIG.peso_distribucion * puntaje_distribucion).

(* ================================================================== *)
(** ** NumPy: the global generator and array arithmetic *)

(** The state of [np.random]: the sequence of uniform draws in [[0,1)] it is
    going to produce, and how many have been consumed.  The optimizer never
    seeds it. *)
Record Generador : Type := mkGenerador {
  flujo : nat -> R;
  cursor : nat
}.

(** One draw of [np.random.random]. *)
Definition random (g : Generador) : R * Generador :=
  (flujo g (cursor g), mkGenerador (flujo g) (S (cursor g))).

(** [np.random.uniform(low, high)].  The bounds are [None] when they are the
    [NaN] extrema of an empty column: NumPy refuses a range that is not
    finite. *)
Definition uniform (limites : option (R * R)) (g : Generador)
  : resultado (R * Generador) :=
  match limites with
  | None => Error OverflowError
  | Some (low, high) =>
      let (u, g') := random g in
      Ok (low + (high - low) * u, g')
  end.

(** [np.random.uniform(low, high, size)] with an integer [size]. *)
Fixpoint uniform_n (low high : R) (size : nat) (g : Generador)
  : list R * Generador :=
  match size with
  | O => ([], g)
  | S k =>
      let (u, g1) := random g in
      let (resto, g2) := uniform_n low high k g1 in
      ((low + (high - low) * u) :: resto, g2)
  end.

Definition uniform_size (low high : R) (size : Z) (g : Generador)
  : resultado (list R * Generador) :=
  if (size <? 0)%Z then Error ValueError
  else Ok (uniform_n low high (Z.to_nat size) g).

(** [np.clip(x, a_min, a_max)]. *)
Definition clip (x a_min a_max : R) : R := Rmin (Rmax x a_min) a_max.

Fixpoint map2 (f : R -> R -> R) (a b : list R) : list R :=
  match a, b with
  | x :: a', y :: b' => f x y :: map2 f a' b'
  | _, _ => []
  end.

(** Elementwise arithmetic of two arrays; shapes that differ do not broadcast
    (no array here has length one). *)
Definition elemento_a_elemento (f : R -> R -> R) (a b : list R)
  : resultado (list R) :=
  if (length a =? length b)%nat then Ok (map2 f a b) else Error ValueError.

Definition escalar (k : R) (a : list R) : list R := map (Rmult k) a.

(** [np.argmax]: the first index of the largest entry. *)
Fixpoint argmax_desde (l : list R) (i mejor_i : nat) (mejor : R) : nat :=
  match l with
  | [] => mejor_i
  | x :: resto =>
      if Rgt_b x mejor then argmax_desde resto (S i) i x
      else argmax_desde resto (S i) mejor_i mejor
  end.

Definition argmax (l : list R) : resultado nat :=
  match l with
  | [] => Error ValueError
  | x :: resto => Ok (argmax_desde resto 1 0 x)
  end.

(** [l[i] = v] on a Python list or array. *)
Fixpoint asignar {A} (l : list A) (i : nat) (v : A) : resultado (list A) :=
  match l, i with
  | [], _ => Error IndexError
  | _ :: resto, O => Ok (v :: resto)
  | x :: resto, S k => r <- asignar resto k v ;; Ok (x :: r)
  end.

(** [range(0, n, 2)]. *)
Definition rango_pares (n : nat) : list nat :=
  map (fun k => (2 * k)%nat) (seq 0 (Nat.div2 (S n))).

(** A [for] loop whose body may raise. *)
Fixpoint para_cada {S I} (cuerpo : S -> I -> resultado S) (indices : list I)
    (s : S) : resultado S :=
  match indices with
  | [] => Ok s
  | i :: resto => s' <- cuerpo s i ;; para_cada cuerpo resto s'
  end.

(** [range(n)] for a Python [int]. *)
Definition rango (n : Z) : list nat := seq 0 (Z.to_nat n).

(* ================================================================== *)
(** ** algoritmo_pso.py *)

(** The position arrays are objects that the code both shares and mutates in
    place, so they live in [memoria] and the lists [particulas] and
    [mejores_locales] hold their addresses.  The velocity arrays and
    [mejor_global] are only ever rebound to fresh arrays and are kept as
    values. *)
Record PSOOptimizer : Type := mkPSO {
  datos : list Punto;
  n_sensores : Z;
  n_particulas : Z;
  max_iter : Z;
  lat_min : R;
  lat_max : R;
  lon_min : R;
  lon_max : R;
  w : R;
  c1 : R;
  c2 : R;
  vel_max : R;
  memoria : list (list R);
  particulas : list nat;
  velocidades : list (list R);
  mejores_locales : list nat;
  mejores_puntajes_locales : list R;
  mejor_global : list R;
  mejor_puntaje_global : R;
  historial_puntajes : list R
}.

Definition leer (mem : list (list R)) (dir : nat) : list R := nth dir mem [].

Fixpoint escribir (mem : list (list R)) (dir : nat) (a : list R) : list (list R) :=
  match mem, dir with
  | [], _ => []
  | _ :: resto, O => a :: resto
  | x :: resto, S k => x :: escribir resto k a
  end.

Definition con_memoria (s : PSOOptimizer) (m : list (list R)) : PSOOptimizer :=
  mkPSO (datos s) (n_sensores s) (n_particulas s) (max_iter s)
        (lat_min s) (lat_max s) (lon_min s) (lon_max s)
        (w s) (c1 s) (c2 s) (vel_max s)
        m (particulas s) (velocidades s) (mejores_locales s)
        (mejores_puntajes_locales s) (mejor_global s) (mejor_puntaje_global s)
        (historial_puntajes s).

Definition con_velocidades (s : PSOOptimizer) (v : list (list R)) : PSOOptimizer :=
  mkPSO (datos s) (n_sensores s) (n_particulas s) (max_iter s)
        (lat_min s) (lat_max s) (lon_min s) (lon_max s)
        (w s) (c1 s) (c2 s) (vel_max s)
        (memoria s) (particulas s) v (mejores_locales s)
        (mejores_puntajes_locales s) (mejor_global s) (mejor_puntaje_global s)
        (historial_puntajes s).

Definition con_mejor_local (s : PSOOptimizer) (puntajes : list R)
    (locales : list nat) : PSOOptimizer :=
  mkPSO (datos s) (n_sensores s) (n_particulas s) (max_iter s)
        (lat_min s) (lat_max s) (lon_min s) (lon_max s)
        (w s) (c1 s) (c2 s) (vel_max s)
        (memoria s) (particulas s) (velocidades s) locales
        puntajes (mejor_global s) (mejor_puntaje_global s)
        (historial_puntajes s).

Definition con_mejor_global (s : PSOOptimizer) (puntaje : R) (posicion : list R)
  : PSOOptimizer :=
  mkPSO (datos s) (n_sensores s) (n_particulas s) (max_iter s)
        (lat_min s) (lat_max s) (lon_min s) (lon_max s)
        (w s) (c1 s) (c2 s) (vel_max s)
        (memoria s) (particulas s) (velocidades s) (mejores_locales s)
        (mejores_puntajes_locales s) posicion puntaje
        (historial_puntajes s).

Definition con_historial (s : PSOOptimizer) (h : list R) : PSOOptimizer :=
  mkPSO (datos s) (n_sensores s) (n_particulas s) (max_iter s)
        (lat_min s) (lat_max s) (lon_min s) (lon_max s)
        (w s) (c1 s) (c2 s) (vel_max s)
        (memoria s) (particulas s) (velocidades s) (mejores_locales s)
        (mejores_puntajes_locales s) (mejor_global s) (mejor_puntaje_global s)
        h.

(** [[particula[i:i+2].tolist() for i in range(0, len(particula), 2)]]. *)
Definition _formatear_sensores (particula : list R) : list Sensor :=
  map (fun i => firstn 2 (skipn i particula)) (rango_pares (length particula)).

Definition _evaluar_particula (datos : list Punto) (particula : list R)
  : resultado R :=
  let sensores := _formatear_sensores particula in
  funcion_objetivo sensores datos.

(** One pass of the body of the loop of [_actualizar_mejores_posiciones]
    (lines 166-177) for particle [i]. *)
Definition paso_mejores (s : PSOOptimizer) (i : nat) : resultado PSOOptimizer :=
  dir <- indice (particulas s) i ;;
  let particula := leer (memoria s) dir in
  puntaje_actual <- _evaluar_particula (datos s) particula ;;
  mejor_i <- indice (mejores_puntajes_locales s) i ;;
  s1 <- (if Rgt_b puntaje_actual mejor_i then
           puntajes <- asignar (mejores_puntajes_locales s) i puntaje_actual ;;
           (* [self.particulas[i].copy()]: a new array *)
           let copia := length (memoria s) in
           locales <- asignar (mejores_locales s) i copia ;;
           Ok (con_mejor_local (con_memoria s (memoria s ++ [particula]))
                 puntajes locales)
         else Ok s) ;;
  if Rgt_b puntaje_actual (mejor_puntaje_global s1)
  then Ok (con_mejor_global s1 puntaje_actual particula)
  else Ok s1.

Definition _actualizar_mejores_posiciones (s : PSOOptimizer)
  : resultado PSOOptimizer :=
  para_cada paso_mejores (rango (n_particulas s)) s.

(** The body of the loop of [_aplicar_restricciones] for index [j], on the
    array at address [dir]. *)
Definition paso_restriccion (dir : nat) (s : PSOOptimizer) (j : nat)
  : resultado PSOOptimizer :=
  lat <- indice (leer (memoria s) dir) j ;;
  a1 <- asignar (leer (memoria s) dir) j (clip lat (lat_min s) (lat_max s)) ;;
  let s1 := con_memoria s (escribir (memoria s) dir a1) in
  lon <- indice (leer (memoria s1) dir) (j + 1) ;;
  a2 <- asignar (leer (memoria s1) dir) (j + 1)
          (clip lon (lon_min s1) (lon_max s1)) ;;
  Ok (con_memoria s1 (escribir (memoria s1) dir a2)).

Definition _aplicar_restricciones (s : PSOOptimizer) (indice_particula : nat)
  : resultado PSOOptimizer :=
  dir <- indice (particulas s) indice_particula ;;
  para_cada (paso_restriccion dir)
            (rango_pares (length (leer (memoria s) dir))) s.

(** Lines 187-202 for particle [i], with the two draws [r1] and [r2] of
    line 185. *)
Definition mover_particula (s : PSOOptimizer) (r1 r2 : R) (i : nat)
  : resultado PSOOptimizer :=
  vel_i <- indice (velocidades s) i ;;
  let inercia := escalar (w s) vel_i in
  dir_local <- indice (mejores_locales s) i ;;
  dir <- indice (particulas s) i ;;
  dif_local <- elemento_a_elemento Rminus (leer (memoria s) dir_local)
                 (leer (memoria s) dir) ;;
  let cognitivo := escalar (c1 s * r1) dif_local in
  dif_global <- elemento_a_elemento Rminus (mejor_global s)
                  (leer (memoria s) dir) ;;
  let social := escalar (c2 s * r2) dif_global in
  suma1 <- elemento_a_elemento Rplus inercia cognitivo ;;
  vel <- elemento_a_elemento Rplus suma1 social ;;
  velocidades1 <- asignar (velocidades s) i vel ;;
  let vel' := map (fun x => clip x (- vel_max s) (vel_max s)) vel in
  velocidades2 <- asignar velocidades1 i vel' ;;
  let s1 := con_velocidades s velocidades2 in
  (* [self.particulas[i] += self.velocidades[i]]: in place *)
  nueva <- elemento_a_elemento Rplus (leer (memoria s1) dir) vel' ;;
  let s2 := con_memoria s1 (escribir (memoria s1) dir nueva) in
  _aplicar_restricciones s2 i.

(** The body of the loop of [_actualizar_velocidades_posiciones]
    (lines 184-202) for particle [i]; the generator is part of the loop
    state. *)
Definition paso_movimiento (sg : PSOOptimizer * Generador) (i : nat)
  : resultado (PSOOptimizer * Generador) :=
  let (s, g) := sg in
  let (r1, g1) := random g in
  let (r2, g2) := random g1 in
  s3 <- mover_particula s r1 r2 i ;;
  Ok (s3, g2).

Definition _actualizar_velocidades_posiciones (s : PSOOptimizer) (g : Generador)
  : resultado (PSOOptimizer * Generador) :=
  para_cada paso_movimiento (rango (n_particulas s)) (s, g).

(** One pass of the body of the loop of [optimizar] (lines 143-150). *)
Definition iteracion (sg : PSOOptimizer * Generador)
  : resultado (PSOOptimizer * Generador) :=
  let (s, g) := sg in
  s1 <- _actualizar_mejores_posiciones s ;;
  sg2 <- _actualizar_velocidades_posiciones s1 g ;;
  let (s2, g2) := sg2 in
  Ok (con_historial s2 (historial_puntajes s2 ++ [mejor_puntaje_global s2]), g2).

Fixpoint iterar (n : nat) (sg : PSOOptimizer * Generador)
  : resultado (PSOOptimizer * Generador) :=
  match n with
  | O => Ok sg
  | S k => sg' <- iteracion sg ;; iterar k sg'
  end.

(** [optimizar]: the returned pair, with the object and the generator as the
    call leaves them. *)
Definition optimizar (s : PSOOptimizer) (g : Generador)
  : resultado ((list Sensor * R) * PSOOptimizer * Generador) :=
  sg <- iterar (Z.to_nat (max_iter s)) (s, g) ;;
  let (s', g') := sg in
  Ok ((_formatear_sensores (mejor_global s'), mejor_puntaje_global s'), s', g').

(** [datos[col].min()] and [.max()]: [None] stands for the [NaN] of an empty
    column. *)
Definition columna_min (col : list R) : option R :=
  match col with
  | [] => None
  | x :: resto => Some (fold_left Rmin resto x)
  end.

Definition columna_max (col : list R) : option R :=
  match col with
  | [] => None
  | x :: resto => Some (fold_left Rmax resto x)
  end.

Definition par_limites (a b : option R) : option (R * R) :=
  match a, b with
  | Some x, Some y => Some (x, y)
  | _, _ => None
  end.

(** The inner loop of [_inicializar_particulas]: one particle. *)
Fixpoint nueva_particula (lat lon : option (R * R)) (n : nat) (g : Generador)
  : resultado (list R * Generador) :=
  match n with
  | O => Ok ([], g)
  | S k =>
      r1 <- uniform lat g ;;
      let (la, g1) := r1 in
      r2 <- uniform lon g1 ;;
      let (lo, g2) := r2 in
      r3 <- nueva_particula lat lon k g2 ;;
      let (resto, g3) := r3 in
      Ok (la :: lo :: resto, g3)
  end.

Fixpoint _inicializar_particulas (lat lon : option (R * R)) (n_sensores : Z)
    (m : nat) (g : Generador) : resultado (list (list R) * Generador) :=
  match m with
  | O => Ok ([], g)
  | S k =>
      r1 <- nueva_particula lat lon (Z.to_nat n_sensores) g ;;
      let (particula, g1) := r1 in
      r2 <- _inicializar_particulas lat lon n_sensores k g1 ;;
      let (resto, g2) := r2 in
      Ok (particula :: resto, g2)
  end.

Fixpoint _inicializar_velocidades (n_sensores : Z) (m : nat) (g : Generador)
  : resultado (list (list R) * Generador) :=
  match m with
  | O => Ok ([], g)
  | S k =>
      r1 <- uniform_size (- (1 / 1000)) (1 / 1000) (n_sensores * 2) g ;;
      let (velocidad, g1) := r1 in
      r2 <- _inicializar_velocidades n_sensores k g1 ;;
      let (resto, g2) := r2 in
      Ok (velocidad :: resto, g2)
  end.

(** [__init__] (with [_inicializar_enjambre] inlined at its call).  The
    extrema are computed first, as in the source; with an empty dataset they
    are [NaN] and one of the later steps raises, so the last [None] branch is
    never taken (lemma [init_sin_datos]). *)
Definition init (datos : list Punto) (n_sensores n_particulas max_iter : Z)
    (g : Generador) : resultado (PSOOptimizer * Generador) :=
  let lat := par_limites (columna_min (map Latitud datos))
                         (columna_max (map Latitud datos)) in
  let lon := par_limites (columna_min (map Longitud datos))
                         (columna_max (map Longitud datos)) in
  r1 <- _inicializar_particulas lat lon n_sensores (Z.to_nat n_particulas) g ;;
  let (arreglos, g1) := r1 in
  r2 <- _inicializar_velocidades n_sensores (Z.to_nat n_particulas) g1 ;;
  let (vels, g2) := r2 in
  (* the arrays of the particles are allocated in order *)
  let dirs := seq 0 (length arreglos) in
  (* [self.particulas.copy()]: a copy of the list, not of the arrays *)
  let locales := dirs in
  puntajes <- mapear (_evaluar_particula datos) arreglos ;;
  mejor_idx <- argmax puntajes ;;
  dir_mejor <- indice dirs mejor_idx ;;
  mejor_puntaje <- indice puntajes mejor_idx ;;
  match lat, lon with
  | Some (la_min, la_max), Some (lo_min, lo_max) =>
      Ok (mkPSO datos n_sensores n_particulas max_iter
                la_min la_max lo_min lo_max
                PSO_CONFIG.inercia PSO_CONFIG.cognitivo PSO_CONFIG.social
                PSO_CONFIG.velocidad_maxima
                arreglos dirs vels locales puntajes
                (leer arreglos dir_mejor) mejor_puntaje [],
          g2)
  | _, _ => Error OverflowError
  end.

(* ================================================================== *)
(** ** main.py *)

(** [main.py], [ejecutar_optimizacion_pso]: construct the optimizer and run
    it.  The result carries the object, whose [historial_puntajes] the caller
    plots, and the generator as the run leaves it. *)
Definition ejecutar_optimizacion_pso (datos : list Punto)
    (n_sensores n_particulas max_iter : Z) (g : Generador)
  : resultado ((list Sensor * R) * PSOOptimizer * Generador) :=
  r <- init datos n_sensores n_particulas max_iter g ;;
  let (pso, g1) := r in
  optimizar pso g1.

(* ================================================================== *)
(** ** Vocabulary of the statements: the scoring engine *)

(** A sensor the engine can read: it has a latitude and a longitude. *)
Definition bien_formado (s : Sensor) : Prop := (2 <= length s)%nat.

(** The first of the three crop keys that labels no row of the dataset. *)
Definition primera_ausente (datos : list Punto) : option Cultivo :=
  find (fun c => (length (filas_de c datos) =? 0)%nat) claves_cultivo.

(** Every one of the three crop keys labels at least one row. *)
Definition cultivos_presentes (datos : list Punto) : Prop :=
  forall c, In c claves_cultivo -> filas_de c datos <> [].

(** A sensor given by its two coordinates. *)
Definition sensor_de (c : R * R) : Sensor := [fst c; snd c].

Definition lugar (p : Punto) : R * R := (Latitud p, Longitud p).

(** Euclidean distance in the plane of the coordinates. *)
Definition distancia (a b : R * R) : R :=
  sqrt ((fst a - fst b) ^ 2 + (snd a - snd b) ^ 2).

(** Distance from a sample point to its nearest sensor. *)
Definition dist_min (p : Punto) (sensores : list (R * R)) : R :=
  match map (distancia (lugar p)) sensores with
  | [] => 0
  | d :: ds => fold_right Rmin d ds
  end.

Definition suma (l : list R) : R := fold_right Rplus 0 l.

(** Arithmetic mean. *)
Definition media (l : list R) : R := suma l / INR (length l).

(** The credit profile of the coverage sub-score as a specification: 1 up to
    the coverage radius, then a straight line that reaches 0 at distance
    [tope], and 0 beyond. *)
Definition credito_lineal (tope d : R) : R :=
  let radio := CONFIG.radio_cobertura in
  if Rle_b d radio then 1
  else if Rle_b d tope then (tope - d) / (tope - radio)
  else 0.

(* ================================================================== *)
(** ** Vocabulary of the statements: the generator *)

(** The generator after [n] draws. *)
Definition avanzar (n : nat) (g : Generador) : Generador :=
  mkGenerador (flujo g) (n + cursor g).

(** Every draw of the generator is in [[0,1)], as [np.random.random]
    promises. *)
Definition en_rango (g : Generador) : Prop := forall k, 0 <= flujo g k < 1.

(** Two states of the generator that are about to produce the same draws. *)
Definition mismo_futuro (g1 g2 : Generador) : Prop :=
  forall k, flujo g1 (k + cursor g1) = flujo g2 (k + cursor g2).

(** Two outcomes that agree on everything but the representation of the
    generator they leave. *)
Definition misma_salida {A} (r1 r2 : resultado (A * Generador)) : Prop :=
  match r1, r2 with
  | Ok (a1, g1), Ok (a2, g2) => a1 = a2 /\ mismo_futuro g1 g2
  | Error e1, Error e2 => e1 = e2
  | _, _ => False
  end.

(* ================================================================== *)
(** ** Vocabulary of the statements: the optimizer *)

(** Cutting an array into consecutive pairs, by recursion on the array. *)
Fixpoint en_pares (l : list R) : list (list R) :=
  match l with
  | [] => []
  | [x] => [[x]]
  | x :: y :: resto => [x; y] :: en_pares resto
  end.

(** A sensor inside the rectangle of the domain. *)
Definition sensor_dentro (la_min la_max lo_min lo_max : R) (sensor : list R)
  : Prop :=
  match sensor with
  | [lat; lon] => la_min <= lat <= la_max /\ lo_min <= lon <= lo_max
  | _ => False
  end.

(** Every (latitude, longitude) pair of the array [a] lies inside the domain
    of the optimizer [s]. *)
Definition dentro (s : PSOOptimizer) (a : list R) : Prop :=
  Forall (sensor_dentro (lat_min s) (lat_max s) (lon_min s) (lon_max s))
         (_formatear_sensores a).

(** The bounds of component [j] of a position array: the even indices hold
    latitudes and the odd ones longitudes (lines 211-218). *)
Definition cota_inferior (s : PSOOptimizer) (j : nat) : R :=
  if Nat.even j then lat_min s else lon_min s.

Definition cota_superior (s : PSOOptimizer) (j : nat) : R :=
  if Nat.even j then lat_max s else lon_max s.

(** [a] is the least value of the column [col], and [b] its greatest. *)
Definition extremos_de (col : list R) (a b : R) : Prop :=
  In a col /\ In b col /\ forall x, In x col -> a <= x <= b.

(** What [_aplicar_restricciones] makes of an array of even length. *)
Fixpoint recortar (la_min la_max lo_min lo_max : R) (a : list R) : list R :=
  match a with
  | lat :: lon :: resto =>
      clip lat la_min la_max :: clip lon lo_min lo_max
        :: recortar la_min la_max lo_min lo_max resto
  | _ => a
  end.

(** The list [l] with [v] at index [i]. *)
Fixpoint poner {A} (l : list A) (i : nat) (v : A) : list A :=
  match l, i with
  | [], _ => []
  | _ :: resto, O => v :: resto
  | x :: resto, S k => x :: poner resto k v
  end.

(** The number of coordinates of a particle. *)
Definition dimension (s : PSOOptimizer) : nat := (2 * Z.to_nat (n_sensores s))%nat.

(** The shape of the object between two method calls: the dataset can be
    scored, there is at least one sensor, every array has [dimension]
    coordinates, the lists have one entry per particle and every address is
    allocated. *)
Record Valido (s : PSOOptimizer) : Prop := mkValido {
  v_datos : cultivos_presentes (datos s);
  v_sensores : (1 <= n_sensores s)%Z;
  v_memoria : Forall (fun a => length a = dimension s) (memoria s);
  v_particulas : length (particulas s) = Z.to_nat (n_particulas s);
  v_dirs : Forall (fun d => (d < length (memoria s))%nat) (particulas s);
  v_velocidades : length (velocidades s) = Z.to_nat (n_particulas s);
  v_vel_dim : Forall (fun v => length v = dimension s) (velocidades s);
  v_locales : length (mejores_locales s) = Z.to_nat (n_particulas s);
  v_dirs_locales : Forall (fun d => (d < length (memoria s))%nat) (mejores_locales s);
  v_puntajes : length (mejores_puntajes_locales s) = Z.to_nat (n_particulas s);
  v_global : length (mejor_global s) = dimension s
}.

(** The domain is not empty and every position the object holds is inside. *)
Record Acotado (s : PSOOptimizer) : Prop := mkAcotado {
  a_lat : lat_min s <= lat_max s;
  a_lon : lon_min s <= lon_max s;
  a_memoria : Forall (dentro s) (memoria s);
  a_global : dentro s (mejor_global s)
}.

(** The attributes that no method assigns after construction. *)
Definition parametros (s : PSOOptimizer)
  : list Punto * (Z * Z * Z) * (R * R * R * R) * (R * R * R * R) :=
  (datos s, (n_sensores s, n_particulas s, max_iter s),
   (lat_min s, lat_max s, lon_min s, lon_max s),
   (w s, c1 s, c2 s, vel_max s)).

(** Neither the personal best scores nor the global best score are lower in
    [s'] than in [s]. *)
Definition no_empeora (s s' : PSOOptimizer) : Prop :=
  mejor_puntaje_global s <= mejor_puntaje_global s'
  /\ length (mejores_puntajes_locales s') = length (mejores_puntajes_locales s)
  /\ forall i, nth i (mejores_puntajes_locales s) 0
               <= nth i (mejores_puntajes_locales s') 0.

(** A sequence of scores that never goes down. *)
Fixpoint creciente (l : list R) : Prop :=
  match l with
  | a :: (b :: _) as resto => a <= b /\ creciente resto
  | _ => True
  end.

(** The history never goes down and is bounded by the current global best
    score. *)
Definition historial_ordenado (s : PSOOptimizer) : Prop :=
  creciente (historial_puntajes s)
  /\ Forall (fun h => h <= mejor_puntaje_global s) (historial_puntajes s).

(** A step from [s] to [s'] that keeps the shape, the parameters, the
    history and the bounds, and lowers no best score. *)
Definition paso_bien (s s' : PSOOptimizer) : Prop :=
  Valido s'
  /\ parametros s' = parametros s
  /\ no_empeora s s'
  /\ historial_puntajes s' = historial_puntajes s
  /\ (Acotado s -> Acotado s').

(** The velocity that lines 188-196 compute for particle [i] from the draws
    [r1] and [r2]. *)
Definition nueva_velocidad (s : PSOOptimizer) (r1 r2 : R) (i : nat) : list R :=
  let pos := leer (memoria s) (nth i (particulas s) 0%nat) in
  let propia := leer (memoria s) (nth i (mejores_locales s) 0%nat) in
  let inercia := escalar (w s) (nth i (velocidades s) []) in
  let cognitivo := escalar (c1 s * r1) (map2 Rminus propia pos) in
  let social := escalar (c2 s * r2) (map2 Rminus (mejor_global s) pos) in
  map (fun x => clip x (- vel_max s) (vel_max s))
      (map2 Rplus (map2 Rplus inercia cognitivo) social).

(** The position that lines 199-202 leave in the array of particle [i]. *)
Definition nueva_posicion (s : PSOOptimizer) (r1 r2 : R) (i : nat) : list R :=
  recortar (lat_min s) (lat_max s) (lon_min s) (lon_max s)
    (map2 Rplus (leer (memoria s) (nth i (particulas s) 0%nat))
                (nueva_velocidad s r1 r2 i)).

(** The object after the move of particle [i]. *)
Definition mover (s : PSOOptimizer) (r1 r2 : R) (i : nat) : PSOOptimizer :=
  con_memoria
    (con_velocidades s (poner (velocidades s) i (nueva_velocidad s r1 r2 i)))
    (escribir (memoria s) (nth i (particulas s) 0%nat) (nueva_posicion s r1 r2 i)).

(* ================================================================== *)
(** ** Sample inputs *)

(** Sample data for the concrete instances: rows that are not critical zones
    (salinity 1, humidity 20). *)
Definition punto_en (lat lon : R) (c : Cultivo) : Punto :=
  mkPunto lat lon c 20 1 10 25.

(** Four rows on the corners of the unit square, with the three crops. *)
Definition datos_cuadrado : list Punto :=
  [punto_en 0 0 Maiz; punto_en 0 1 Tomate; punto_en 1 0 Chile; punto_en 1 1 Maiz].

(** A dataset with a single crop. *)
Definition datos_solo_maiz : list Punto := [punto_en 0 0 Maiz].

(** The three crops on one and the same spot: a domain of zero span. *)
Definition datos_un_lugar : list Punto :=
  [punto_en 0 0 Maiz; punto_en 0 0 Tomate; punto_en 0 0 Chile].

(** A generator for the concrete instances: every draw is 1/2. *)
Definition gen_medio : Generador := mkGenerador (fun _ => 1 / 2) 0.

(** A generator whose every draw is 3/4. *)
Definition gen_tres_cuartos : Generador := mkGenerador (fun _ => 3 / 4) 0.

(** A generator whose first four draws are 0 and whose later draws are 1/2. *)
Definition gen_escalon : Generador :=
  mkGenerador (fun k => if (k <? 4)%nat then 0 else 1 / 2) 0.

(** The object that construction builds for one sensor and one particle at
    position [(x, y)] with velocity [(vx, vy)] and score [p]: the array of
    the particle is at address 0, and [mejores_locales] holds that same
    address. *)
Definition objeto_de_una_particula (ds : list Punto) (t : Z)
    (a b c d x y vx vy p : R) : PSOOptimizer :=
  mkPSO ds 1 1 t a b c d
        PSO_CONFIG.inercia PSO_CONFIG.cognitivo PSO_CONFIG.social
        PSO_CONFIG.velocidad_maxima
        [[x; y]] [0%nat] [[vx; vy]] [0%nat] [p] [x; y] p [].

(* ================================================================== *)
(** ** Vocabulary of the further properties *)

(** The sample point [p] has a sensor of [sensores] within [radio]. *)
Definition cerca (radio : R) (sensores : list (R * R)) (p : Punto) : bool :=
  existsb (fun c => Rle_b (distancia (lugar p) c) radio) sensores.

(** Every unordered pair of a list, each once, in the order of the nested
    loops [i < j]. *)
Fixpoint parejas {A} (l : list A) : list (A * A) :=
  match l with
  | [] => []
  | x :: resto => map (pair x) resto ++ parejas resto
  end.

(** The crop label of a row is one of the three keys. *)
Definition cultivo_conocido (p : Punto) : Prop := In (cultivo p) claves_cultivo.

(** The balance term of one crop as a formula: one minus the gap between the
    crop's share of the rows and the covered fraction of its rows. *)
Definition termino_balance (radio : R) (sensores : list (R * R))
    (datos : list Punto) (c : Cultivo) : R :=
  1 - Rabs (INR (length (filas_de c datos)) / INR (length datos)
            - INR (length (filter (cerca radio sensores) (filas_de c datos)))
              / INR (length (filas_de c datos))).

(** Every velocity component is within the velocity limit. *)
Definition velocidades_acotadas (s : PSOOptimizer) : Prop :=
  Forall (Forall (fun v => - vel_max s <= v <= vel_max s)) (velocidades s).

(** The global best score is the objective value of the global best
    position. *)
Definition global_coherente (s : PSOOptimizer) : Prop :=
  _evaluar_particula (datos s) (mejor_global s) = Ok (mejor_puntaje_global s).

(** No personal best score is above the global best score. *)
Definition global_domina (s : PSOOptimizer) : Prop :=
  Forall (fun p => p <= mejor_puntaje_global s) (mejores_puntajes_locales s).

(** The scores the object holds are coherent: the global best score is the
    objective value of the global best position and lies in [0,1], it
    dominates the personal best scores, and the history holds scores in
    [0,1]. *)
Definition puntajes_coherentes (s : PSOOptimizer) : Prop :=
  global_coherente s
  /\ 0 <= mejor_puntaje_global s <= 1
  /\ global_domina s
  /\ Forall (fun h => 0 <= h <= 1) (historial_puntajes s).

(* ================================================================== *)
(** ** configuraciones.py *)

(** The list comprehension of [configuracion_aleatoria]: one [[lat, lon]]
    per pass, the latitude drawn before the longitude. *)
Fixpoint sensores_al_azar (lat lon : option (R * R)) (n : nat) (g : Generador)
  : resultado (list Sensor * Generador) :=
  match n with
  | O => Ok ([], g)
  | S k =>
      r1 <- uniform lat g ;;
      let (la, g1) := r1 in
      r2 <- uniform lon g1 ;;
      let (lo, g2) := r2 in
      r3 <- sensores_al_azar lat lon k g2 ;;
      let (resto, g3) := r3 in
      Ok ([la; lo] :: resto, g3)
  end.

(** [configuracion_aleatoria]: the extrema of the two coordinate columns,
    then [n_sensores] uniform pairs; [range] of a negative number is
    empty. *)
Definition configuracion_aleatoria (n_sensores : Z) (datos : list Punto)
    (g : Generador) : resultado (list Sensor * Generador) :=
  let lat := par_limites (columna_min (map Latitud datos))
                         (columna_max (map Latitud datos)) in
  let lon := par_limites (columna_min (map Longitud datos))
                         (columna_max (map Longitud datos)) in
  sensores_al_azar lat lon (Z.to_nat n_sensores) g.

(** The [while] loop of [configuracion_zonas_criticas], with a bound on the
    number of passes: [None] when the bound is reached with sensors still
    missing. *)
Fixpoint completar (pasadas : nat) (n_sensores : Z) (datos : list Punto)
    (sensores : list Sensor) (g : Generador)
  : option (resultado (list Sensor * Generador)) :=
  if (Z.of_nat (length sensores) <? n_sensores)%Z then
    match pasadas with
    | O => None
    | S k =>
        match configuracion_aleatoria
                (n_sensores - Z.of_nat (length sensores)) datos g with
        | Error e => Some (Error e)
        | Ok (nuevos, g') => completar k n_sensores datos (sensores ++ nuevos) g'
        end
    end
  else Some (Ok (sensores, g)).

(** [configuracion_zonas_criticas].  The rows keep their index labels through
    the filter, so [datos.loc[idx, ...]] reads the coordinates of the row
    itself.  [DataFrame.nlargest(n, 'Salinidad')] is pandas code: it is
    passed in as [nlargest], and the statements assume of it what
    [contrato_nlargest] says. *)
Definition configuracion_zonas_criticas
    (nlargest : Z -> list Punto -> list Punto) (pasadas : nat)
    (n_sensores : Z) (datos : list Punto) (g : Generador)
  : option (resultado (list Sensor * Generador)) :=
  let zonas_criticas := filter es_critica datos in
  if (n_sensores <=? Z.of_nat (length zonas_criticas))%Z then
    Some (Ok (map coords (nlargest n_sensores zonas_criticas), g))
  else
    completar pasadas n_sensores datos (map coords zonas_criticas) g.

(** What pandas documents of [nlargest(n, 'Salinidad')] on rows whose
    salinity is a number: it returns [min(n, len)] of the rows (none for
    [n <= 0]), and no row it leaves out is more saline than a row it
    returns. *)
Definition contrato_nlargest (nlargest : Z -> list Punto -> list Punto) : Prop :=
  forall n filas, exists resto,
    Permutation (nlargest n filas ++ resto) filas
    /\ length (nlargest n filas) = Nat.min (Z.to_nat n) (length filas)
    /\ forall p q, In p (nlargest n filas) -> In q resto ->
                   Salinidad q <= Salinidad p.

(** A selection that meets the contract: a stable sort by decreasing
    salinity, then the first [n] rows. *)
Fixpoint insertar_desc (p : Punto) (l : list Punto) : list Punto :=
  match l with
  | [] => [p]
  | q :: resto =>
      if Rle_b (Salinidad q) (Salinidad p) then p :: l
      else q :: insertar_desc p resto
  end.

Definition ordenar_desc (l : list Punto) : list Punto :=
  fold_right insertar_desc [] l.

Definition nlargest_estable (n : Z) (filas : list Punto) : list Punto :=
  firstn (Z.to_nat n) (ordenar_desc filas).

(** A row of the samples with a given salinity. *)
Definition punto_salino (lat lon : R) (c : Cultivo) (sal : R) : Punto :=
  mkPunto lat lon c 20 sal 10 25.

(** The unit square again, with two critical rows (salinity above 2.5). *)
Definition datos_salinos : list Punto :=
  [punto_salino 0 0 Maiz 3; punto_salino 0 1 Tomate 1;
   punto_salino 1 0 Chile 4; punto_salino 1 1 Maiz 1].

(* ================================================================== *)
(** * Properties of the scoring engine *)

Lemma Rle_b_true (x y : R) : Rle_b x y = true <-> x <= y.
Proof. unfold Rle_b. destruct (Rle_dec x y); split; intros; auto; discriminate. Qed.

Lemma Rle_b_false (x y : R) : Rle_b x y = false <-> y < x.
Proof.
  unfold Rle_b. destruct (Rle_dec x y); split; intros; auto; try discriminate; lra.
Qed.

Lemma Rlt_b_true (x y : R) : Rlt_b x y = true <-> x < y.
Proof. unfold Rlt_b. destruct (Rlt_dec x y); split; intros; auto; discriminate. Qed.

Lemma Rlt_b_false (x y : R) : Rlt_b x y = false <-> y <= x.
Proof.
  unfold Rlt_b. destruct (Rlt_dec x y); split; intros; auto; try discriminate; lra.
Qed.

Lemma Rgt_b_true (x y : R) : Rgt_b x y = true <-> y < x.
Proof. apply Rlt_b_true. Qed.

Lemma Rgt_b_false (x y : R) : Rgt_b x y = false <-> x <= y.
Proof. apply Rlt_b_false. Qed.

Lemma calcular_distancia_ok (p : Punto) (s : Sensor) :
  bien_formado s ->
  exists d, calcular_distancia (coords p) s = Ok d /\ 0 <= d.
Proof.
  unfold bien_formado. destruct s as [|x [|y s]]; simpl; try lia. intros _.
  eexists. split; [reflexivity|]. apply sqrt_pos.
Qed.

Lemma calcular_distancia_par (a b x y : R) (resto : list R) :
  calcular_distancia [a; b] (x :: y :: resto)
  = Ok (sqrt ((a - x) ^ 2 + (b - y) ^ 2)).
Proof. reflexivity. Qed.

Lemma mapear_distancias_ok (p : Punto) (sensores : list Sensor) :
  Forall bien_formado sensores ->
  exists ds, mapear (calcular_distancia (coords p)) sensores = Ok ds
             /\ length ds = length sensores /\ Forall (fun d => 0 <= d) ds.
Proof.
  induction 1 as [|s ss Hs _ IH].
  - exists []. simpl. auto.
  - destruct (calcular_distancia_ok p s Hs) as [d [Hd Hpos]].
    destruct IH as [ds [Hds [Hlen Hall]]].
    exists (d :: ds). simpl. rewrite Hd. simpl. rewrite Hds. simpl.
    repeat split; auto.
Qed.

Lemma credito_cobertura_rango (d : R) : 0 <= credito_cobertura d <= 1.
Proof.
  unfold credito_cobertura, CONFIG.radio_cobertura.
  destruct (Rle_b d (12 / 1000)) eqn:E.
  - lra.
  - apply Rle_b_false in E. split.
    + apply Rmax_l.
    + apply Rmax_lub; [lra|].
      assert (0 <= (d - 12 / 1000) / (2 * (12 / 1000))).
      { apply Rmult_le_pos; [lra|]. apply Rlt_le, Rinv_0_lt_compat. lra. }
      lra.
Qed.

Lemma cobertura_bucle_ok (sensores : list Sensor) (filas : list Punto) :
  sensores <> [] -> Forall bien_formado sensores ->
  forall acc, exists r,
    cobertura_bucle sensores filas acc = Ok r
    /\ acc <= r <= acc + INR (length filas).
Proof.
  intros Hne Hbf. induction filas as [|p resto IH]; intros acc.
  - exists acc. simpl. split; [reflexivity|lra].
  - destruct (mapear_distancias_ok p sensores Hbf) as [ds [Hds [Hlen _]]].
    destruct ds as [|d0 ds'].
    { destruct sensores; [contradiction|discriminate]. }
    destruct (IH (acc + credito_cobertura (fold_left Rmin ds' d0))) as [r [Hr Hb]].
    exists r. cbn [cobertura_bucle]. rewrite Hds. cbn [ligar minimo]. rewrite Hr.
    split; [reflexivity|].
    pose proof (credito_cobertura_rango (fold_left Rmin ds' d0)).
    change (length (p :: resto)) with (S (length resto)). rewrite S_INR. lra.
Qed.

Lemma cociente_rango (a : R) (n : nat) :
  (0 < n)%nat -> 0 <= a <= INR n -> 0 <= a / INR n <= 1.
Proof.
  intros Hn [H0 H1]. assert (0 < INR n) by (apply lt_0_INR; lia).
  split.
  - apply Rmult_le_pos; [lra|]. apply Rlt_le, Rinv_0_lt_compat; lra.
  - apply Rmult_le_reg_r with (INR n); [lra|].
    unfold Rdiv. rewrite Rmult_assoc, Rinv_l by lra. lra.
Qed.

Lemma cobertura_rango (sensores : list Sensor) (datos : list Punto) :
  sensores <> [] -> Forall bien_formado sensores -> datos <> [] ->
  exists r, calcular_cobertura_variabilidad sensores datos = Ok r /\ 0 <= r <= 1.
Proof.
  intros Hne Hbf Hd. unfold calcular_cobertura_variabilidad.
  destruct (cobertura_bucle_ok sensores datos Hne Hbf 0) as [r [Hr Hb]].
  rewrite Hr. cbn [ligar]. destruct datos as [|p ds]; [contradiction|].
  exists (r / INR (length (p :: ds))). split; [reflexivity|].
  apply cociente_rango; [simpl; lia|lra].
Qed.

Lemma cubierto_ok (p : Punto) (radio : R) (sensores : list Sensor) :
  Forall bien_formado sensores ->
  exists b, cubierto (coords p) radio sensores = Ok b.
Proof.
  induction 1 as [|s ss Hs _ IH].
  - exists false. reflexivity.
  - destruct (calcular_distancia_ok p s Hs) as [d [Hd _]].
    cbn [cubierto]. rewrite Hd. cbn [ligar].
    destruct (Rle_b d radio); [exists true; reflexivity|exact IH].
Qed.

Lemma contar_cubiertos_ok (sensores : list Sensor) (radio : R) (filas : list Punto) :
  Forall bien_formado sensores ->
  forall cuenta, exists n,
    contar_cubiertos sensores radio filas cuenta = Ok n
    /\ (cuenta <= n <= cuenta + length filas)%nat.
Proof.
  intros Hbf. induction filas as [|p resto IH]; intros cuenta.
  - exists cuenta. simpl. split; [reflexivity|lia].
  - destruct (cubierto_ok p radio sensores Hbf) as [b Hb].
    cbn [contar_cubiertos]. rewrite Hb. cbn [ligar].
    destruct (IH (if b then S cuenta else cuenta)) as [n [Hn Hr]].
    exists n. split; [exact Hn|]. destruct b; simpl; lia.
Qed.

Lemma filas_de_longitud (c : Cultivo) (datos : list Punto) :
  (length (filas_de c datos) <= length datos)%nat.
Proof. apply filter_length_le. Qed.

Lemma conteo_total_presente (datos : list Punto) (c : Cultivo) :
  filas_de c datos <> [] ->
  conteo_total datos c = Ok (length (filas_de c datos)).
Proof.
  unfold conteo_total. destruct (filas_de c datos); [contradiction|reflexivity].
Qed.

Lemma conteo_total_ausente (datos : list Punto) (c : Cultivo) :
  filas_de c datos = [] -> conteo_total datos c = Error (KeyError c).
Proof. unfold conteo_total. intros ->. reflexivity. Qed.

Lemma puntaje_cultivo_rango (total cubiertos n : nat) :
  (0 < total)%nat -> (total <= n)%nat -> (cubiertos <= total)%nat ->
  0 <= Rmin (1 - Rabs (INR total / INR n - INR cubiertos / INR total)) 1 <= 1.
Proof.
  intros Ht Hn Hc.
  assert (0 <= INR total / INR n <= 1).
  { apply cociente_rango; [lia|]. split; [apply pos_INR|apply le_INR; lia]. }
  assert (0 <= INR cubiertos / INR total <= 1).
  { apply cociente_rango; [lia|]. split; [apply pos_INR|apply le_INR; lia]. }
  assert (Rabs (INR total / INR n - INR cubiertos / INR total) <= 1).
  { apply Rabs_le. lra. }
  split; [apply Rmin_glb; lra|apply Rmin_r].
Qed.

Lemma balance_bucle_ok (datos : list Punto) (cubiertos : list (Cultivo * nat)) :
  Forall (fun cn => filas_de (fst cn) datos <> []
                    /\ (snd cn <= length (filas_de (fst cn) datos))%nat) cubiertos ->
  forall acc, exists r,
    balance_bucle datos cubiertos acc = Ok r
    /\ acc <= r <= acc + INR (length cubiertos).
Proof.
  induction 1 as [|[c n] resto [Hpres Hn] _ IH]; intros acc.
  - exists acc. simpl. split; [reflexivity|lra].
  - cbn [fst snd] in *. cbn [balance_bucle].
    rewrite (conteo_total_presente datos c Hpres). cbn [ligar].
    set (t := length (filas_de c datos)) in *.
    assert (Ht : (0 < t)%nat).
    { subst t. destruct (filas_de c datos); [contradiction|simpl; lia]. }
    pose proof (filas_de_longitud c datos) as Hlen. fold t in Hlen.
    pose proof (puntaje_cultivo_rango t n (length datos) Ht Hlen Hn) as Hp.
    destruct (IH (acc + Rmin (1 - Rabs (INR t / INR (length datos) - INR n / INR t)) 1))
      as [r [Hr Hb]].
    exists r. split; [exact Hr|].
    change (length ((c, n) :: resto)) with (S (length resto)). rewrite S_INR. lra.
Qed.

Lemma conteo_cubierto_ok (sensores : list Sensor) (datos : list Punto) (radio : R)
    (claves : list Cultivo) :
  Forall bien_formado sensores ->
  exists cs,
    mapear (fun c =>
              n <- contar_cubiertos sensores radio (filas_de c datos) 0 ;;
              Ok (c, n)) claves = Ok cs
    /\ map fst cs = claves
    /\ Forall (fun cn => (snd cn <= length (filas_de (fst cn) datos))%nat) cs.
Proof.
  intros Hbf. induction claves as [|c resto IH].
  - exists []. simpl. auto.
  - destruct (contar_cubiertos_ok sensores radio (filas_de c datos) Hbf 0%nat)
      as [n [Hn Hr]].
    destruct IH as [cs [Hcs [Hfst Hall]]].
    exists ((c, n) :: cs). cbn [mapear]. rewrite Hn. cbn [ligar]. rewrite Hcs.
    cbn [ligar]. repeat split; simpl; [congruence|].
    constructor; [simpl; lia|exact Hall].
Qed.

Lemma balance_rango (sensores : list Sensor) (datos : list Punto) :
  Forall bien_formado sensores -> cultivos_presentes datos ->
  exists r, balance_entre_cultivos sensores datos = Ok r /\ 0 <= r <= 1.
Proof.
  intros Hbf Hpres. unfold balance_entre_cultivos.
  destruct (conteo_cubierto_ok sensores datos CONFIG.radio_influencia
              claves_cultivo Hbf) as [cs [Hcs [Hfst Hall]]].
  rewrite Hcs. cbn [ligar].
  assert (Hfor : Forall (fun cn => filas_de (fst cn) datos <> []
                   /\ (snd cn <= length (filas_de (fst cn) datos))%nat) cs).
  { rewrite Forall_forall in *. intros cn Hin. split; [|auto].
    apply Hpres. rewrite <- Hfst. apply in_map. exact Hin. }
  destruct (balance_bucle_ok datos cs Hfor 0) as [r [Hr Hb]].
  rewrite Hr. cbn [ligar]. eexists. split; [reflexivity|].
  assert (Hl : length cs = 3%nat).
  { rewrite <- (length_map fst), Hfst. reflexivity. }
  apply cociente_rango; [lia|lra].
Qed.

(** With a crop key that labels no row, the second loop of the balance reaches
    the lookup of its count and stops there. *)
Lemma balance_bucle_ausente (datos : list Punto) (c : Cultivo)
    (cubiertos : list (Cultivo * nat)) :
  find (fun k => (length (filas_de k datos) =? 0)%nat) (map fst cubiertos) = Some c ->
  forall acc, balance_bucle datos cubiertos acc = Error (KeyError c).
Proof.
  induction cubiertos as [|[k n] resto IH]; intros Hf acc; [discriminate|].
  cbn [map fst find] in Hf. cbn [balance_bucle].
  destruct (length (filas_de k datos) =? 0)%nat eqn:E.
  - injection Hf as <-. apply Nat.eqb_eq in E.
    rewrite conteo_total_ausente; [reflexivity|].
    destruct (filas_de k datos); [reflexivity|discriminate].
  - apply Nat.eqb_neq in E. rewrite conteo_total_presente.
    + cbn [ligar]. apply IH. exact Hf.
    + intros H0. rewrite H0 in E. apply E. reflexivity.
Qed.

Lemma balance_ausente (sensores : list Sensor) (datos : list Punto) (c : Cultivo) :
  Forall bien_formado sensores -> primera_ausente datos = Some c ->
  balance_entre_cultivos sensores datos = Error (KeyError c).
Proof.
  intros Hbf Hprim. unfold balance_entre_cultivos.
  destruct (conteo_cubierto_ok sensores datos CONFIG.radio_influencia
              claves_cultivo Hbf) as [cs [Hcs [Hfst _]]].
  rewrite Hcs. cbn [ligar]. rewrite balance_bucle_ausente with (c := c).
  - reflexivity.
  - rewrite Hfst. exact Hprim.
Qed.

Lemma criticas_rango (sensores : list Sensor) (datos : list Punto) :
  Forall bien_formado sensores ->
  exists r, cubrir_zonas_problematicas sensores datos = Ok r /\ 0 <= r <= 1.
Proof.
  intros Hbf. unfold cubrir_zonas_problematicas.
  destruct (filter es_critica datos) as [|z zs] eqn:E.
  - exists 1. split; [reflexivity|lra].
  - destruct (contar_cubiertos_ok sensores (1 / 100) (z :: zs) Hbf 0%nat)
      as [n [Hn Hr]].
    rewrite Hn. cbn [ligar]. eexists. split; [reflexivity|].
    apply cociente_rango; [simpl; lia|].
    split; [apply pos_INR|apply le_INR; lia].
Qed.

Lemma calcular_distancia_bf (s t : Sensor) :
  bien_formado s -> bien_formado t ->
  exists d, calcular_distancia s t = Ok d.
Proof.
  unfold bien_formado.
  destruct s as [|a [|b s]]; simpl; try lia.
  destruct t as [|x [|y t]]; simpl; try lia.
  intros _ _. eexists. reflexivity.
Qed.

Lemma mapear_longitud {A B} (f : A -> resultado B) (xs : list A) (ys : list B) :
  mapear f xs = Ok ys -> length ys = length xs.
Proof.
  revert ys. induction xs as [|x xs IH]; intros ys; cbn [mapear].
  - intros [= <-]. reflexivity.
  - destruct (f x); [|discriminate]. cbn [ligar].
    destruct (mapear f xs) as [zs|]; [|discriminate]. cbn [ligar].
    intros [= <-]. simpl. f_equal. apply IH. reflexivity.
Qed.

Lemma distancias_pares_ok (sensores : list Sensor) :
  Forall bien_formado sensores ->
  exists ds, distancias_pares sensores = Ok ds
             /\ (length sensores - 1 <= length ds)%nat.
Proof.
  induction 1 as [|s ss Hs Hss IH].
  - exists []. simpl. split; [reflexivity|lia].
  - assert (Hf : exists fila, mapear (calcular_distancia s) ss = Ok fila).
    { clear IH. induction Hss as [|t ts Ht _ IHt].
      - exists []. reflexivity.
      - destruct (calcular_distancia_bf s t Hs Ht) as [d Hd].
        destruct IHt as [fila Hfila].
        exists (d :: fila). cbn [mapear]. rewrite Hd. cbn [ligar].
        rewrite Hfila. reflexivity. }
    destruct Hf as [fila Hfila]. destruct IH as [otras [Ho _]].
    exists (fila ++ otras). cbn [distancias_pares]. rewrite Hfila. cbn [ligar].
    rewrite Ho. cbn [ligar]. split; [reflexivity|].
    rewrite length_app, (mapear_longitud _ _ _ Hfila). simpl. lia.
Qed.

Lemma credito_dispersion_rango (d : R) : 0 <= credito_dispersion d <= 1.
Proof.
  unfold credito_dispersion, CONFIG.distancia_ideal.
  destruct (_ && _).
  - lra.
  - split; [apply Rmax_l|]. apply Rmax_lub; [lra|].
    assert (0 <= Rabs (d - 25 / 1000) / (25 / 1000)).
    { apply Rmult_le_pos; [apply Rabs_pos|].
      apply Rlt_le, Rinv_0_lt_compat. lra. }
    lra.
Qed.

Lemma suma_creditos_rango (ds : list R) (acc : R) :
  acc <= fold_left (fun a dist => a + credito_dispersion dist) ds acc
      <= acc + INR (length ds).
Proof.
  revert acc. induction ds as [|d ds IH]; intros acc.
  - simpl. lra.
  - cbn [fold_left]. specialize (IH (acc + credito_dispersion d)).
    pose proof (credito_dispersion_rango d).
    change (length (d :: ds)) with (S (length ds)). rewrite S_INR. lra.
Qed.

Lemma distribucion_rango (sensores : list Sensor) :
  Forall bien_formado sensores ->
  exists r, optimizar_distancias sensores = Ok r /\ 0 <= r <= 1.
Proof.
  intros Hbf. unfold optimizar_distancias.
  destruct (length sensores <=? 1)%nat eqn:E.
  - exists 1. split; [reflexivity|lra].
  - apply Nat.leb_gt in E.
    destruct (distancias_pares_ok sensores Hbf) as [ds [Hds Hlen]].
    rewrite Hds. cbn [ligar].
    destruct ds as [|d ds']; [simpl in Hlen; lia|].
    eexists. split; [reflexivity|].
    apply cociente_rango; [simpl; lia|].
    pose proof (suma_creditos_rango (d :: ds') 0). lra.
Qed.

Lemma cultivos_presentes_no_vacio (datos : list Punto) :
  cultivos_presentes datos -> datos <> [].
Proof.
  intros H ->. apply (H Maiz); [simpl; auto|reflexivity].
Qed.

(** The engine returns a score on every dataset in which the three crops
    occur, for every non-empty list of readable sensors. *)
Lemma funcion_objetivo_ok (sensores : list Sensor) (datos : list Punto) :
  sensores <> [] -> Forall bien_formado sensores -> cultivos_presentes datos ->
  exists p, funcion_objetivo sensores datos = Ok p /\ 0 <= p <= 1.
Proof.
  intros Hne Hbf Hpres.
  destruct (cobertura_rango sensores datos Hne Hbf
              (cultivos_presentes_no_vacio datos Hpres)) as [cob [Hcob Bcob]].
  destruct (balance_rango sensores datos Hbf Hpres) as [bal [Hbal Bbal]].
  destruct (criticas_rango sensores datos Hbf) as [cri [Hcri Bcri]].
  destruct (distribucion_rango sensores Hbf) as [dis [Hdis Bdis]].
  unfold funcion_objetivo. rewrite Hcob, Hbal, Hcri, Hdis. cbn [ligar].
  eexists. split; [reflexivity|].
  unfold CONFIG.peso_cobertura, CONFIG.peso_balance_cultivos,
    CONFIG.peso_zonas_criticas, CONFIG.peso_distribucion. lra.
Qed.

(* ------------------------------------------------------------------ *)
(** ** The coverage sub-score is a mean of per-point credits *)

Lemma mapear_distancias_pares (p : Punto) (sensores : list (R * R)) :
  mapear (calcular_distancia (coords p)) (map sensor_de sensores)
  = Ok (map (distancia (lugar p)) sensores).
Proof.
  induction sensores as [|[x y] cs IH]; [reflexivity|].
  cbn [map mapear]. unfold sensor_de at 1. cbn [fst snd].
  unfold coords at 1. rewrite calcular_distancia_par. cbn [ligar].
  rewrite IH. reflexivity.
Qed.

Lemma minimo_dist_min (p : Punto) (sensores : list (R * R)) :
  sensores <> [] ->
  minimo (map (distancia (lugar p)) sensores) = Ok (dist_min p sensores).
Proof.
  intros Hne. unfold dist_min, minimo.
  destruct (map (distancia (lugar p)) sensores) as [|d ds] eqn:E.
  - destruct sensores; [contradiction|discriminate].
  - f_equal. apply fold_symmetric.
    + intros x y z. apply Rmin_assoc.
    + intros y. apply Rmin_comm.
Qed.

Lemma credito_cobertura_lineal (d : R) :
  credito_cobertura d = credito_lineal (3 * CONFIG.radio_cobertura) d.
Proof.
  unfold credito_cobertura, credito_lineal, CONFIG.radio_cobertura.
  destruct (Rle_b d (12 / 1000)) eqn:E1; [reflexivity|].
  apply Rle_b_false in E1.
  destruct (Rle_b d (3 * (12 / 1000))) eqn:E2.
  - apply Rle_b_true in E2. rewrite Rmax_right; [field|].
    apply Rmult_le_reg_r with (2 * (12 / 1000)); [lra|].
    replace ((1 - (d - 12 / 1000) / (2 * (12 / 1000))) * (2 * (12 / 1000)))
      with (3 * (12 / 1000) - d) by (field; lra).
    lra.
  - apply Rle_b_false in E2. apply Rmax_left.
    apply Rmult_le_reg_r with (2 * (12 / 1000)); [lra|].
    replace ((1 - (d - 12 / 1000) / (2 * (12 / 1000))) * (2 * (12 / 1000)))
      with (3 * (12 / 1000) - d) by (field; lra).
    lra.
Qed.

Lemma cobertura_bucle_suma (sensores : list (R * R)) (filas : list Punto) :
  sensores <> [] ->
  forall acc,
    cobertura_bucle (map sensor_de sensores) filas acc
    = Ok (acc + suma (map (fun p => credito_cobertura (dist_min p sensores)) filas)).
Proof.
  intros Hne. induction filas as [|p resto IH]; intros acc.
  - simpl. f_equal. unfold suma. simpl. lra.
  - cbn [cobertura_bucle]. rewrite mapear_distancias_pares. cbn [ligar].
    rewrite (minimo_dist_min p sensores Hne). cbn [ligar]. rewrite IH.
    f_equal. unfold suma. simpl. lra.
Qed.

Lemma cobertura_es_media (sensores : list (R * R)) (datos : list Punto) :
  sensores <> [] -> datos <> [] ->
  calcular_cobertura_variabilidad (map sensor_de sensores) datos
  = Ok (media (map (fun p => credito_cobertura (dist_min p sensores)) datos)).
Proof.
  intros Hs Hd. unfold calcular_cobertura_variabilidad.
  rewrite (cobertura_bucle_suma sensores datos Hs). cbn [ligar].
  destruct datos as [|p ds]; [contradiction|].
  unfold dividir, media. rewrite length_map, Rplus_0_l. reflexivity.
Qed.

Lemma distancia_horizontal (x y b : R) :
  distancia (x, b) (y, b) = Rabs (x - y).
Proof.
  unfold distancia. cbn [fst snd].
  replace ((x - y) ^ 2 + (b - b) ^ 2) with (Rsqr (x - y)) by (unfold Rsqr; ring).
  apply sqrt_Rsqr_abs.
Qed.

Lemma primera_ausente_existe (datos : list Punto) (c0 : Cultivo) :
  In c0 claves_cultivo -> filas_de c0 datos = [] ->
  exists c, primera_ausente datos = Some c
            /\ In c claves_cultivo /\ filas_de c datos = [].
Proof.
  intros Hin H0. unfold primera_ausente.
  destruct (find (fun c => (length (filas_de c datos) =? 0)%nat) claves_cultivo)
    as [c|] eqn:E.
  - exists c. split; [reflexivity|]. apply find_some in E. destruct E as [Hc Hl].
    split; [exact Hc|]. apply Nat.eqb_eq in Hl.
    destruct (filas_de c datos); [reflexivity|discriminate].
  - apply (find_none _ _ E) in Hin. rewrite H0 in Hin. discriminate.
Qed.

Lemma funcion_objetivo_ausente (sensores : list Sensor) (datos : list Punto)
    (c : Cultivo) :
  sensores <> [] -> Forall bien_formado sensores -> datos <> [] ->
  primera_ausente datos = Some c ->
  funcion_objetivo sensores datos = Error (KeyError c).
Proof.
  intros Hne Hbf Hd Hp. unfold funcion_objetivo.
  destruct (cobertura_rango sensores datos Hne Hbf Hd) as [cob [Hcob _]].
  rewrite Hcob. cbn [ligar]. rewrite (balance_ausente sensores datos c Hbf Hp).
  reflexivity.
Qed.

Lemma cultivos_presentes_cuadrado : cultivos_presentes datos_cuadrado.
Proof.
  intros c [<-|[<-|[<-|[]]]]; discriminate.
Qed.

Lemma bien_formado_par (x y : R) : bien_formado [x; y].
Proof. unfold bien_formado. simpl. lia. Qed.

(* ------------------------------------------------------------------ *)
(** ** C1 *)

(** C1 (as the code has it): with at least one sensor and one sample point,
    the coverage sub-score is the arithmetic mean over the sample points of a
    credit that is 1 up to the coverage radius and then decays linearly to 0
    at THREE times the coverage radius (not twice), staying 0 beyond. *)
Theorem C1_cobertura_media_credito_3R (sensores : list (R * R)) (datos : list Punto) :
  sensores <> [] -> datos <> [] ->
  calcular_cobertura_variabilidad (map sensor_de sensores) datos
  = Ok (media (map (fun p => credito_lineal (3 * CONFIG.radio_cobertura)
                                            (dist_min p sensores)) datos)).
Proof.
  intros Hs Hd. rewrite (cobertura_es_media sensores datos Hs Hd).
  f_equal. f_equal. apply map_ext. intros p. apply credito_cobertura_lineal.
Qed.

Lemma C1_testigo :
  calcular_cobertura_variabilidad (map sensor_de [(0, 0)]) datos_cuadrado
  = Ok (media (map (fun p => credito_lineal (3 * CONFIG.radio_cobertura)
                                            (dist_min p [(0, 0)])) datos_cuadrado)).
Proof. apply C1_cobertura_media_credito_3R; discriminate. Defined.

(** C1 as stated fails: a sample point at distance exactly twice the
    coverage radius (24/1000) from the only sensor earns credit 1/2 in the
    code, where a line reaching 0 at twice the radius gives 0. *)
Lemma C1_contraejemplo_2R :
  calcular_cobertura_variabilidad (map sensor_de [(24 / 1000, 0)]) datos_solo_maiz
  = Ok (1 / 2)
  /\ media (map (fun p => credito_lineal (2 * CONFIG.radio_cobertura)
                                         (dist_min p [(24 / 1000, 0)]))
                datos_solo_maiz) = 0.
Proof.
  assert (Hd : dist_min (punto_en 0 0 Maiz) [(24 / 1000, 0)] = 24 / 1000).
  { unfold dist_min, lugar, punto_en. cbn [map Latitud Longitud fold_right].
    rewrite distancia_horizontal. rewrite Rabs_left; lra. }
  split.
  - rewrite cobertura_es_media by discriminate. f_equal.
    unfold datos_solo_maiz, media, suma. cbn [map fold_right length INR].
    rewrite Hd. unfold credito_cobertura, CONFIG.radio_cobertura.
    replace (Rle_b (24 / 1000) (12 / 1000)) with false
      by (symmetry; apply Rle_b_false; lra).
    rewrite Rmax_right by lra. field.
  - unfold datos_solo_maiz, media, suma. cbn [map fold_right length INR].
    rewrite Hd. unfold credito_lineal, CONFIG.radio_cobertura.
    replace (Rle_b (24 / 1000) (12 / 1000)) with false
      by (symmetry; apply Rle_b_false; lra).
    replace (Rle_b (24 / 1000) (2 * (12 / 1000))) with true
      by (symmetry; apply Rle_b_true; lra).
    field.
Qed.

(* ------------------------------------------------------------------ *)
(** ** C2 *)

(** When one of the three crop keys labels no row, the balance computation
    has no guard for it: it neither leaves the crop out nor returns a score,
    it stops with the [KeyError] of the lookup of the first such crop's
    count, which comes before the division by that count.  On a non-empty
    dataset the score operation stops with the same error. *)
Lemma balance_cultivo_ausente (sensores : list Sensor) (datos : list Punto)
    (c0 : Cultivo) :
  Forall bien_formado sensores ->
  In c0 claves_cultivo -> filas_de c0 datos = [] ->
  exists c,
    In c claves_cultivo /\ filas_de c datos = []
    /\ balance_entre_cultivos sensores datos = Error (KeyError c)
    /\ (sensores <> [] -> datos <> [] ->
        funcion_objetivo sensores datos = Error (KeyError c)).
Proof.
  intros Hbf Hin H0.
  destruct (primera_ausente_existe datos c0 Hin H0) as [c [Hp [Hc Hf]]].
  exists c. split; [exact Hc|]. split; [exact Hf|]. split.
  - apply balance_ausente; assumption.
  - intros Hs Hd. apply funcion_objetivo_ausente; assumption.
Qed.

(** C2, the code at two failing inputs.  With only maize in the dataset
    (tomato and chile have no row) and one sensor, the balance computation
    reaches the unguarded lookup of the tomato count and stops with its
    [KeyError]: the crop is not left out and no score is returned.  On the
    empty dataset (no row of any crop) the score operation reaches the
    division by the row count in the coverage sub-score and raises
    [ZeroDivisionError].  The sibling sub-scores guard their empty
    denominators ([cubrir_zonas_problematicas] without critical rows,
    [optimizar_distancias] without pairs). *)
Theorem C2_balance_sin_guarda :
  filas_de Tomate datos_solo_maiz = []
  /\ balance_entre_cultivos [[0; 0]] datos_solo_maiz = Error (KeyError Tomate)
  /\ funcion_objetivo [[0; 0]] [] = Error ZeroDivisionError
  /\ cubrir_zonas_problematicas [[0; 0]] datos_solo_maiz = Ok 1
  /\ optimizar_distancias [[0; 0]] = Ok 1.
Proof.
  split; [reflexivity|]. split; [|split; [reflexivity|split]].
  - apply balance_ausente; [|reflexivity].
    constructor; [apply bien_formado_par|constructor].
  - unfold cubrir_zonas_problematicas.
    assert (E : filter es_critica datos_solo_maiz = []).
    { cbn [datos_solo_maiz filter]. unfold es_critica, punto_en.
      cbn [Salinidad Humedad].
      replace (Rgt_b 1 (25 / 10)) with false by (symmetry; apply Rgt_b_false; lra).
      replace (Rlt_b 20 15) with false by (symmetry; apply Rlt_b_false; lra).
      replace (Rgt_b 20 40) with false by (symmetry; apply Rgt_b_false; lra).
      reflexivity. }
    rewrite E. reflexivity.
  - reflexivity.
Qed.

(* ------------------------------------------------------------------ *)
(** ** C5 *)

(** For every dataset in which each of the three crops labels at least one
    row, and every configuration of at least one sensor, the four sub-scores
    are returned and lie in [0,1], and the score is their combination with
    weights 0.35/0.25/0.25/0.15, in [0,1]. *)
Lemma puntaje_en_0_1 (sensores : list Sensor) (datos : list Punto) :
  sensores <> [] -> Forall bien_formado sensores -> cultivos_presentes datos ->
  exists cob bal cri dis,
    calcular_cobertura_variabilidad sensores datos = Ok cob /\ 0 <= cob <= 1
    /\ balance_entre_cultivos sensores datos = Ok bal /\ 0 <= bal <= 1
    /\ cubrir_zonas_problematicas sensores datos = Ok cri /\ 0 <= cri <= 1
    /\ optimizar_distancias sensores = Ok dis /\ 0 <= dis <= 1
    /\ funcion_objetivo sensores datos
       = Ok (35 / 100 * cob + 25 / 100 * bal + 25 / 100 * cri + 15 / 100 * dis)
    /\ 0 <= 35 / 100 * cob + 25 / 100 * bal + 25 / 100 * cri + 15 / 100 * dis <= 1.
Proof.
  intros Hne Hbf Hpres.
  destruct (cobertura_rango sensores datos Hne Hbf
              (cultivos_presentes_no_vacio datos Hpres)) as [cob [Hcob Bcob]].
  destruct (balance_rango sensores datos Hbf Hpres) as [bal [Hbal Bbal]].
  destruct (criticas_rango sensores datos Hbf) as [cri [Hcri Bcri]].
  destruct (distribucion_rango sensores Hbf) as [dis [Hdis Bdis]].
  exists cob, bal, cri, dis.
  repeat split; try assumption; try lra.
  unfold funcion_objetivo. rewrite Hcob, Hbal, Hcri, Hdis. reflexivity.
Qed.

(** C5, the code at a failing input: on a non-empty dataset with a single
    crop and one sensor, the coverage sub-score is returned (it is 1), the
    balance sub-score stops with the [KeyError] of the tomato count, and so
    the objective function returns no score at all. *)
Theorem C5_sin_puntaje_con_un_cultivo :
  datos_solo_maiz <> [] /\ [[0; 0]] <> ([] : list (list R))
  /\ calcular_cobertura_variabilidad [[0; 0]] datos_solo_maiz = Ok 1
  /\ funcion_objetivo [[0; 0]] datos_solo_maiz = Error (KeyError Tomate).
Proof.
  split; [discriminate|]. split; [discriminate|]. split.
  - change [[0; 0]] with (map sensor_de [(0, 0)]).
    rewrite cobertura_es_media by discriminate. f_equal.
    unfold datos_solo_maiz, media, suma. cbn [map fold_right length INR].
    replace (dist_min (punto_en 0 0 Maiz) [(0, 0)]) with 0.
    + unfold credito_cobertura, CONFIG.radio_cobertura.
      replace (Rle_b 0 (12 / 1000)) with true by (symmetry; apply Rle_b_true; lra).
      field.
    + unfold dist_min, lugar, punto_en. cbn [map Latitud Longitud fold_right].
      rewrite distancia_horizontal. rewrite Rminus_diag, Rabs_R0. reflexivity.
  - apply funcion_objetivo_ausente; try discriminate; [|reflexivity].
    constructor; [apply bien_formado_par|constructor].
Qed.

(* ================================================================== *)
(** * Properties of the optimizer *)

(** ** Lists, arrays and memory *)

Lemma indice_nth {A} (l : list A) (i : nat) (d : A) :
  (i < length l)%nat -> indice l i = Ok (nth i l d).
Proof.
  intros H. unfold indice. rewrite (nth_error_nth' l d H). reflexivity.
Qed.

Lemma asignar_ok {A} (l : list A) (i : nat) (v : A) :
  (i < length l)%nat ->
  exists l', asignar l i v = Ok l' /\ length l' = length l
             /\ (forall d, nth i l' d = v)
             /\ (forall j d, j <> i -> nth j l' d = nth j l d).
Proof.
  revert i. induction l as [|x l IH]; intros i Hi; [simpl in Hi; lia|].
  destruct i as [|k].
  - exists (v :: l). simpl. repeat split; auto.
    intros [|j] d Hj; [contradiction|reflexivity].
  - destruct (IH k) as [l' [Hl' [Hlen [Hk Hj]]]]; [simpl in Hi; lia|].
    exists (x :: l'). cbn [asignar]. rewrite Hl'. cbn [ligar].
    repeat split; simpl; auto.
    intros [|j] d Hne; [reflexivity|]. apply Hj. lia.
Qed.

Lemma asignar_Forall {A} (P : A -> Prop) (l l' : list A) (i : nat) (v : A) :
  asignar l i v = Ok l' -> Forall P l -> P v -> Forall P l'.
Proof.
  revert i l'. induction l as [|x l IH]; intros i l' H Hall Hv; [discriminate|].
  inversion Hall as [|? ? Hx Hl]; subst. destruct i as [|k]; cbn [asignar] in H.
  - injection H as <-. constructor; assumption.
  - destruct (asignar l k v) as [r|] eqn:E; [|discriminate]. cbn [ligar] in H.
    injection H as <-. constructor; [assumption|]. eapply IH; eauto.
Qed.

Lemma asignar_medio {A} (pre : list A) (x v : A) (post : list A) :
  asignar (pre ++ x :: post) (length pre) v = Ok (pre ++ v :: post).
Proof.
  induction pre as [|y pre IH]; [reflexivity|].
  cbn [app length asignar]. rewrite IH. reflexivity.
Qed.

Lemma indice_medio {A} (pre : list A) (x : A) (post : list A) :
  indice (pre ++ x :: post) (length pre) = Ok x.
Proof.
  unfold indice. rewrite nth_error_app2 by lia. rewrite Nat.sub_diag. reflexivity.
Qed.

Lemma leer_escribir (mem : list (list R)) (dir : nat) (a : list R) :
  (dir < length mem)%nat -> leer (escribir mem dir a) dir = a.
Proof.
  unfold leer. revert dir. induction mem as [|x mem IH]; intros dir H;
    [simpl in H; lia|].
  destruct dir as [|k]; [reflexivity|]. simpl. apply IH. simpl in H. lia.
Qed.

Lemma leer_escribir_otro (mem : list (list R)) (dir otro : nat) (a : list R) :
  otro <> dir -> leer (escribir mem dir a) otro = leer mem otro.
Proof.
  unfold leer. revert dir otro. induction mem as [|x mem IH]; intros dir otro H.
  - reflexivity.
  - destruct dir as [|k], otro as [|j]; simpl; try reflexivity; try contradiction.
    apply IH. lia.
Qed.

Lemma escribir_longitud (mem : list (list R)) (dir : nat) (a : list R) :
  length (escribir mem dir a) = length mem.
Proof.
  revert dir. induction mem as [|x mem IH]; intros dir; [reflexivity|].
  destruct dir; simpl; auto.
Qed.

Lemma escribir_escribir (mem : list (list R)) (dir : nat) (a b : list R) :
  escribir (escribir mem dir a) dir b = escribir mem dir b.
Proof.
  revert dir. induction mem as [|x mem IH]; intros dir; [reflexivity|].
  destruct dir; simpl; [reflexivity|]. rewrite IH. reflexivity.
Qed.

Lemma escribir_leer (mem : list (list R)) (dir : nat) :
  escribir mem dir (leer mem dir) = mem.
Proof.
  unfold leer. revert dir. induction mem as [|x mem IH]; intros dir;
    [reflexivity|].
  destruct dir; simpl; [reflexivity|]. rewrite IH. reflexivity.
Qed.

Lemma escribir_Forall (P : list R -> Prop) (mem : list (list R)) (dir : nat)
    (a : list R) :
  Forall P mem -> P a -> Forall P (escribir mem dir a).
Proof.
  intros Hall Ha. revert dir. induction Hall as [|x mem Hx Hm IH]; intros dir.
  - constructor.
  - destruct dir; simpl; constructor; auto.
Qed.

Lemma leer_Forall (P : list R -> Prop) (mem : list (list R)) (dir : nat) :
  Forall P mem -> (dir < length mem)%nat -> P (leer mem dir).
Proof.
  intros Hall Hd. unfold leer. rewrite Forall_forall in Hall.
  apply Hall. apply nth_In. exact Hd.
Qed.

Lemma con_memoria_misma (s : PSOOptimizer) : con_memoria s (memoria s) = s.
Proof. destruct s. reflexivity. Qed.

(* ------------------------------------------------------------------ *)
(** ** Formatting a particle *)

Lemma rango_pares_SS (n : nat) :
  rango_pares (S (S n)) = 0%nat :: map (fun i => S (S i)) (rango_pares n).
Proof.
  unfold rango_pares. change (Nat.div2 (S (S (S n)))) with (S (Nat.div2 (S n))).
  cbn [seq map]. f_equal. rewrite <- seq_shift, !map_map.
  apply map_ext. intros k. lia.
Qed.

Lemma formatear_en_pares (particula : list R) :
  _formatear_sensores particula = en_pares particula.
Proof.
  unfold _formatear_sensores.
  assert (H : forall n l, (length l <= n)%nat ->
            map (fun i => firstn 2 (skipn i l)) (rango_pares (length l))
            = en_pares l).
  { induction n as [|n IH]; intros l Hl.
    - destruct l; [reflexivity|simpl in Hl; lia].
    - destruct l as [|x [|y resto]]; [reflexivity|reflexivity|].
      change (length (x :: y :: resto)) with (S (S (length resto))).
      rewrite rango_pares_SS. cbn [map en_pares]. f_equal.
      rewrite map_map. cbn [skipn]. apply IH. simpl in Hl. lia. }
  apply (H (length particula)). lia.
Qed.

Lemma en_pares_concat (l : list R) : concat (en_pares l) = l.
Proof.
  assert (H : forall n l, (length l <= n)%nat -> concat (en_pares l) = l).
  { induction n as [|n IH]; intros k Hk.
    - destruct k; [reflexivity|simpl in Hk; lia].
    - destruct k as [|x [|y resto]]; [reflexivity|reflexivity|].
      cbn [en_pares concat app]. rewrite IH; [reflexivity|simpl in Hk; lia]. }
  apply (H (length l)). lia.
Qed.

Lemma en_pares_par (n : nat) (l : list R) :
  length l = (2 * n)%nat ->
  length (en_pares l) = n /\ Forall (fun sensor => length sensor = 2%nat) (en_pares l).
Proof.
  revert l. induction n as [|n IH]; intros l Hl.
  - destruct l; [simpl; auto|simpl in Hl; lia].
  - destruct l as [|x [|y resto]]; try (simpl in Hl; lia).
    destruct (IH resto) as [H1 H2]; [simpl in Hl; lia|].
    cbn [en_pares length]. split; [lia|]. constructor; [reflexivity|exact H2].
Qed.

(* ------------------------------------------------------------------ *)
(** ** Evaluating a particle *)

Lemma evaluar_ok (datos : list Punto) (a : list R) (n : nat) :
  cultivos_presentes datos -> (1 <= n)%nat -> length a = (2 * n)%nat ->
  exists p, _evaluar_particula datos a = Ok p /\ 0 <= p <= 1.
Proof.
  intros Hd Hn Hl. unfold _evaluar_particula. rewrite formatear_en_pares.
  destruct (en_pares_par n a Hl) as [Hlen Hall].
  apply funcion_objetivo_ok.
  - intros E. rewrite E in Hlen. simpl in Hlen. lia.
  - eapply Forall_impl; [|exact Hall]. unfold bien_formado. intros x ->. lia.
  - exact Hd.
Qed.

Lemma evaluar_valido (s : PSOOptimizer) (a : list R) :
  Valido s -> length a = dimension s ->
  exists p, _evaluar_particula (datos s) a = Ok p /\ 0 <= p <= 1.
Proof.
  intros V Hl. apply (evaluar_ok (datos s) a (Z.to_nat (n_sensores s))).
  - apply V.
  - pose proof (v_sensores s V). lia.
  - exact Hl.
Qed.

(* ------------------------------------------------------------------ *)
(** ** Loops *)

Lemma para_cada_invariante {S I} (cuerpo : S -> I -> resultado S)
    (P : S -> Prop) (Q : I -> Prop) :
  (forall s i, P s -> Q i -> exists s', cuerpo s i = Ok s' /\ P s') ->
  forall indices s, Forall Q indices -> P s ->
    exists s', para_cada cuerpo indices s = Ok s' /\ P s'.
Proof.
  intros Hpaso. induction indices as [|i resto IH]; intros s HQ HP.
  - exists s. split; [reflexivity|exact HP].
  - inversion HQ as [|? ? Hi Hresto]; subst.
    destruct (Hpaso s i HP Hi) as [s1 [E1 P1]].
    destruct (IH s1 Hresto P1) as [s2 [E2 P2]].
    exists s2. cbn [para_cada]. rewrite E1. cbn [ligar]. auto.
Qed.

Lemma rango_menor (n : Z) : Forall (fun i => (i < Z.to_nat n)%nat) (rango n).
Proof.
  unfold rango. apply Forall_forall. intros i Hi. apply in_seq in Hi. lia.
Qed.

(* ------------------------------------------------------------------ *)
(** ** What a step keeps *)

Lemma dimension_parametros (s s' : PSOOptimizer) :
  parametros s' = parametros s -> dimension s' = dimension s.
Proof. unfold parametros, dimension. intros [= ? ? ? ? ? ? ? ? ? ? ? ?]. congruence. Qed.

Lemma dentro_parametros (s s' : PSOOptimizer) (a : list R) :
  parametros s' = parametros s -> dentro s a -> dentro s' a.
Proof.
  unfold parametros, dentro. intros [= ? ? ? ? ? ? ? ? ? ? ? ?]. congruence.
Qed.

Lemma no_empeora_refl (s : PSOOptimizer) : no_empeora s s.
Proof. unfold no_empeora. repeat split; auto; intros; lra. Qed.

Lemma no_empeora_trans (s1 s2 s3 : PSOOptimizer) :
  no_empeora s1 s2 -> no_empeora s2 s3 -> no_empeora s1 s3.
Proof.
  unfold no_empeora. intros [A1 [B1 C1]] [A2 [B2 C2]].
  repeat split; [lra|congruence|].
  intros i. specialize (C1 i). specialize (C2 i). lra.
Qed.

Lemma paso_bien_refl (s : PSOOptimizer) : Valido s -> paso_bien s s.
Proof.
  intros V. unfold paso_bien.
  split; [exact V|]. split; [reflexivity|]. split; [apply no_empeora_refl|].
  split; [reflexivity|auto].
Qed.

Lemma paso_bien_trans (s1 s2 s3 : PSOOptimizer) :
  paso_bien s1 s2 -> paso_bien s2 s3 -> paso_bien s1 s3.
Proof.
  unfold paso_bien. intros [V2 [P2 [N2 [H2 A2]]]] [V3 [P3 [N3 [H3 A3]]]].
  split; [exact V3|]. split; [congruence|].
  split; [eapply no_empeora_trans; eauto|]. split; [congruence|auto].
Qed.

Lemma asignar_igual {A} (l l' : list A) (i : nat) (v : A) :
  asignar l i v = Ok l' ->
  length l' = length l
  /\ (forall d, nth i l' d = v)
  /\ (forall j d, j <> i -> nth j l' d = nth j l d).
Proof.
  intros H.
  assert (Hi : (i < length l)%nat).
  { revert i l' H. induction l as [|x l IH]; intros i l' H; [discriminate|].
    destruct i as [|k]; [simpl; lia|]. cbn [asignar] in H.
    destruct (asignar l k v) eqn:E; [|discriminate].
    simpl. apply IH in E. lia. }
  destruct (asignar_ok l i v Hi) as [l2 [E2 H2]].
  rewrite H in E2. injection E2 as <-. exact H2.
Qed.

(* ------------------------------------------------------------------ *)
(** ** Updating the bests *)

Lemma mejor_global_bien (s : PSOOptimizer) (p : R) (pos : list R) :
  Valido s -> length pos = dimension s -> (Acotado s -> dentro s pos) ->
  Rgt_b p (mejor_puntaje_global s) = true ->
  paso_bien s (con_mejor_global s p pos).
Proof.
  intros V Hl Hd Hg. apply Rgt_b_true in Hg. unfold paso_bien.
  split; [|split; [reflexivity|split; [|split; [reflexivity|]]]].
  - destruct V. constructor; assumption.
  - unfold no_empeora. cbn. split; [lra|]. split; [reflexivity|]. intros; lra.
  - intros A. specialize (Hd A). destruct A. constructor; assumption.
Qed.

Lemma mejor_local_bien (s : PSOOptimizer) (i : nat) (p : R) (a : list R)
    (puntajes : list R) (locales : list nat) :
  Valido s -> length a = dimension s -> (Acotado s -> dentro s a) ->
  Rgt_b p (nth i (mejores_puntajes_locales s) 0) = true ->
  asignar (mejores_puntajes_locales s) i p = Ok puntajes ->
  asignar (mejores_locales s) i (length (memoria s)) = Ok locales ->
  paso_bien s (con_mejor_local (con_memoria s (memoria s ++ [a])) puntajes locales).
Proof.
  intros V Hl Hd Hg E1 E2. apply Rgt_b_true in Hg.
  destruct (asignar_igual _ _ _ _ E1) as [L1 [N1 O1]].
  destruct (asignar_igual _ _ _ _ E2) as [L2 [N2 O2]].
  assert (Hmas : forall d, (d < length (memoria s))%nat ->
                           (d < length (memoria s ++ [a]))%nat).
  { intros d Hdd. rewrite length_app. simpl. lia. }
  unfold paso_bien.
  split; [|split; [reflexivity|split; [|split; [reflexivity|]]]].
  - destruct V. constructor; cbn; try assumption; try congruence.
    + apply Forall_app. split; [assumption|]. constructor; [exact Hl|constructor].
    + eapply Forall_impl; [|eassumption]. exact Hmas.
    + eapply asignar_Forall; [exact E2| |].
      * eapply Forall_impl; [|eassumption]. exact Hmas.
      * rewrite length_app. simpl. lia.
  - unfold no_empeora. cbn. split; [lra|]. split; [exact L1|].
    intros j. destruct (Nat.eq_dec j i) as [->|Hne].
    + rewrite N1. lra.
    + rewrite O1 by exact Hne. lra.
  - intros A. specialize (Hd A). destruct A. constructor; cbn; try assumption.
    apply Forall_app. split; [assumption|]. constructor; [exact Hd|constructor].
Qed.

Lemma paso_mejores_bien (s : PSOOptimizer) (i : nat) :
  Valido s -> (i < Z.to_nat (n_particulas s))%nat ->
  exists s', paso_mejores s i = Ok s' /\ paso_bien s s'
             /\ particulas s' = particulas s /\ velocidades s' = velocidades s.
Proof.
  intros V Hi.
  assert (Hip : (i < length (particulas s))%nat) by (rewrite (v_particulas s V); exact Hi).
  assert (Him : (i < length (mejores_puntajes_locales s))%nat)
    by (rewrite (v_puntajes s V); exact Hi).
  assert (Hil : (i < length (mejores_locales s))%nat)
    by (rewrite (v_locales s V); exact Hi).
  set (dir := nth i (particulas s) 0%nat).
  assert (Hdir : (dir < length (memoria s))%nat).
  { pose proof (v_dirs s V) as F. rewrite Forall_forall in F. apply F.
    apply nth_In. exact Hip. }
  set (a := leer (memoria s) dir).
  assert (Hl : length a = dimension s).
  { apply (leer_Forall (fun x => length x = dimension s)); [apply V|exact Hdir]. }
  assert (Hda : Acotado s -> dentro s a).
  { intros A. apply (leer_Forall (dentro s)); [apply A|exact Hdir]. }
  destruct (evaluar_valido s a V Hl) as [p [Hp _]].
  destruct (asignar_ok (mejores_puntajes_locales s) i p Him) as [puntajes [E1 _]].
  destruct (asignar_ok (mejores_locales s) i (length (memoria s)) Hil)
    as [locales [E2 _]].
  unfold paso_mejores. rewrite (indice_nth _ _ 0%nat Hip). cbn [ligar].
  fold dir. fold a. rewrite Hp. cbn [ligar].
  rewrite (indice_nth _ _ 0 Him). cbn [ligar].
  assert (H1 : exists s1,
    (if Rgt_b p (nth i (mejores_puntajes_locales s) 0)
     then puntajes0 <- asignar (mejores_puntajes_locales s) i p ;;
          locales0 <- asignar (mejores_locales s) i (length (memoria s)) ;;
          Ok (con_mejor_local (con_memoria s (memoria s ++ [a])) puntajes0 locales0)
     else Ok s) = Ok s1
    /\ paso_bien s s1 /\ particulas s1 = particulas s
    /\ velocidades s1 = velocidades s
    /\ leer (memoria s1) dir = a /\ (dir < length (memoria s1))%nat).
  { destruct (Rgt_b p (nth i (mejores_puntajes_locales s) 0)) eqn:G.
    - rewrite E1. cbn [ligar]. rewrite E2. cbn [ligar].
      eexists. split; [reflexivity|].
      split; [apply (mejor_local_bien s i p a puntajes locales); assumption|].
      split; [reflexivity|]. split; [reflexivity|]. cbn. split.
      + unfold leer. rewrite app_nth1 by exact Hdir. reflexivity.
      + rewrite length_app. simpl. lia.
    - exists s. split; [reflexivity|].
      split; [apply paso_bien_refl; exact V|]. auto. }
  destruct H1 as [s1 [Es1 [B1 [P1 [V1 [Hleer Hdir1]]]]]]. rewrite Es1. cbn [ligar].
  destruct (Rgt_b p (mejor_puntaje_global s1)) eqn:G.
  - eexists. split; [reflexivity|]. split; [|split; assumption].
    eapply paso_bien_trans; [exact B1|].
    destruct B1 as [Vs1 [Par1 _]].
    apply mejor_global_bien; try assumption.
    + rewrite (dimension_parametros _ _ Par1). exact Hl.
    + intros A. rewrite <- Hleer.
      apply (leer_Forall (dentro s1)); [apply A|exact Hdir1].
  - exists s1. auto.
Qed.

Lemma n_particulas_parametros (s s' : PSOOptimizer) :
  parametros s' = parametros s -> n_particulas s' = n_particulas s.
Proof. unfold parametros. intros [= ? ? ? ? ? ? ? ? ? ? ? ?]. assumption. Qed.

Lemma actualizar_mejores_bien (s : PSOOptimizer) :
  Valido s ->
  exists s', _actualizar_mejores_posiciones s = Ok s' /\ paso_bien s s'
             /\ particulas s' = particulas s /\ velocidades s' = velocidades s.
Proof.
  intros V. unfold _actualizar_mejores_posiciones.
  apply (para_cada_invariante paso_mejores
           (fun s' => paso_bien s s' /\ particulas s' = particulas s
                      /\ velocidades s' = velocidades s)
           (fun i => (i < Z.to_nat (n_particulas s))%nat)).
  - intros s1 i [B1 [P1 V1]] Hi.
    destruct (paso_mejores_bien s1 i) as [s2 [E2 [B2 [P2 V2]]]].
    + apply B1.
    + destruct B1 as [_ [Par _]].
      rewrite (n_particulas_parametros _ _ Par). exact Hi.
    + exists s2. split; [exact E2|]. split; [|split; congruence].
      eapply paso_bien_trans; eassumption.
  - apply rango_menor.
  - split; [apply paso_bien_refl; exact V|auto].
Qed.

(* ------------------------------------------------------------------ *)
(** ** Clamping to the domain *)

Lemma clip_rango (x a_min a_max : R) :
  a_min <= a_max -> a_min <= clip x a_min a_max <= a_max.
Proof.
  intros H. unfold clip. split.
  - apply Rmin_glb; [apply Rmax_r|exact H].
  - apply Rmin_r.
Qed.

Lemma clip_sobre (x a_min a_max : R) :
  a_min <= a_max -> a_max <= x -> clip x a_min a_max = a_max.
Proof.
  intros H Hx. unfold clip. apply Rmin_right.
  apply Rle_trans with x; [exact Hx|apply Rmax_l].
Qed.

Lemma clip_dentro (x a_min a_max : R) :
  a_min <= x <= a_max -> clip x a_min a_max = x.
Proof.
  intros [H1 H2]. unfold clip. rewrite Rmax_left by exact H1.
  apply Rmin_left. exact H2.
Qed.

Lemma recortar_longitud (la_min la_max lo_min lo_max : R) (a : list R) :
  length (recortar la_min la_max lo_min lo_max a) = length a.
Proof.
  assert (H : forall n l, (length l <= n)%nat ->
            length (recortar la_min la_max lo_min lo_max l) = length l).
  { induction n as [|n IH]; intros l Hl.
    - destruct l; [reflexivity|simpl in Hl; lia].
    - destruct l as [|x [|y resto]]; [reflexivity|reflexivity|].
      cbn [recortar length]. rewrite IH; [reflexivity|simpl in Hl; lia]. }
  apply (H (length a)). lia.
Qed.

Lemma recortar_dentro (la_min la_max lo_min lo_max : R) (n : nat) (a : list R) :
  la_min <= la_max -> lo_min <= lo_max -> length a = (2 * n)%nat ->
  Forall (sensor_dentro la_min la_max lo_min lo_max)
         (en_pares (recortar la_min la_max lo_min lo_max a)).
Proof.
  intros Hla Hlo. revert a. induction n as [|n IH]; intros a Hl.
  - destruct a; [constructor|simpl in Hl; lia].
  - destruct a as [|x [|y resto]]; try (simpl in Hl; lia).
    cbn [recortar en_pares]. constructor.
    + split; apply clip_rango; assumption.
    + apply IH. simpl in Hl. lia.
Qed.

Lemma restricciones_bucle (dir : nat) :
  forall k pre post s,
    (dir < length (memoria s))%nat ->
    leer (memoria s) dir = pre ++ post ->
    length post = (2 * k)%nat ->
    para_cada (paso_restriccion dir)
              (map (fun i => (length pre + 2 * i)%nat) (seq 0 k)) s
    = Ok (con_memoria s
            (escribir (memoria s) dir
               (pre ++ recortar (lat_min s) (lat_max s) (lon_min s) (lon_max s)
                                post))).
Proof.
  induction k as [|k IH]; intros pre post s Hdir Hleer Hl.
  - destruct post; [|simpl in Hl; lia]. cbn [seq map para_cada recortar].
    rewrite <- Hleer, escribir_leer, con_memoria_misma. reflexivity.
  - destruct post as [|lat [|lon resto]]; try (simpl in Hl; lia).
    cbn [seq map para_cada].
    replace (length pre + 2 * 0)%nat with (length pre) by lia.
    unfold paso_restriccion at 1. rewrite Hleer, indice_medio. cbn [ligar].
    rewrite asignar_medio. cbn [ligar]. cbn [memoria con_memoria].
    rewrite leer_escribir by exact Hdir.
    set (clat := clip lat (lat_min s) (lat_max s)).
    replace (pre ++ clat :: lon :: resto) with ((pre ++ [clat]) ++ lon :: resto)
      by (rewrite <- app_assoc; reflexivity).
    replace (length pre + 1)%nat with (length (pre ++ [clat]))
      by (rewrite length_app; reflexivity).
    rewrite indice_medio. cbn [ligar]. rewrite asignar_medio. cbn [ligar].
    cbn [lon_min lon_max con_memoria]. rewrite escribir_escribir.
    set (clon := clip lon (lon_min s) (lon_max s)).
    rewrite <- seq_shift, map_map.
    rewrite (map_ext (fun i => (length pre + 2 * S i)%nat)
                     (fun i => (length (pre ++ [clat; clon]) + 2 * i)%nat))
      by (intros i; rewrite length_app; simpl; lia).
    rewrite (IH (pre ++ [clat; clon]) resto).
    + cbn [memoria con_memoria lat_min lat_max lon_min lon_max].
      rewrite escribir_escribir. cbn [recortar]. fold clat. fold clon.
      rewrite <- !app_assoc. reflexivity.
    + cbn [memoria con_memoria]. rewrite escribir_longitud. exact Hdir.
    + cbn [memoria con_memoria]. rewrite leer_escribir by exact Hdir.
      rewrite <- !app_assoc. reflexivity.
    + simpl in Hl. lia.
Qed.

Lemma rango_pares_doble (n : nat) :
  rango_pares (2 * n) = map (fun i => (0 + 2 * i)%nat) (seq 0 n).
Proof.
  unfold rango_pares. rewrite Nat.div2_succ_double. reflexivity.
Qed.

Lemma aplicar_restricciones_forma (s : PSOOptimizer) (i n : nat) :
  (i < length (particulas s))%nat ->
  (nth i (particulas s) 0 < length (memoria s))%nat ->
  length (leer (memoria s) (nth i (particulas s) 0%nat)) = (2 * n)%nat ->
  _aplicar_restricciones s i
  = Ok (con_memoria s
          (escribir (memoria s) (nth i (particulas s) 0%nat)
             (recortar (lat_min s) (lat_max s) (lon_min s) (lon_max s)
                (leer (memoria s) (nth i (particulas s) 0%nat))))).
Proof.
  intros Hi Hdir Hl. unfold _aplicar_restricciones.
  rewrite (indice_nth _ _ 0%nat Hi). cbn [ligar]. rewrite Hl, rango_pares_doble.
  apply (restricciones_bucle _ n [] _ s Hdir); [reflexivity|exact Hl].
Qed.

(* ------------------------------------------------------------------ *)
(** ** Moving a particle *)

Lemma asignar_poner {A} (l : list A) (i : nat) (v : A) :
  (i < length l)%nat -> asignar l i v = Ok (poner l i v).
Proof.
  revert i. induction l as [|x l IH]; intros i Hi; [simpl in Hi; lia|].
  destruct i as [|k]; [reflexivity|]. cbn [asignar poner].
  rewrite IH by (simpl in Hi; lia). reflexivity.
Qed.

Lemma poner_longitud {A} (l : list A) (i : nat) (v : A) :
  length (poner l i v) = length l.
Proof.
  revert i. induction l as [|x l IH]; intros i; [reflexivity|].
  destruct i; simpl; auto.
Qed.

Lemma poner_poner {A} (l : list A) (i : nat) (u v : A) :
  poner (poner l i u) i v = poner l i v.
Proof.
  revert i. induction l as [|x l IH]; intros i; [reflexivity|].
  destruct i; simpl; [reflexivity|]. rewrite IH. reflexivity.
Qed.

Lemma poner_Forall {A} (P : A -> Prop) (l : list A) (i : nat) (v : A) :
  Forall P l -> P v -> Forall P (poner l i v).
Proof.
  intros Hall Hv. revert i. induction Hall as [|x l Hx Hl IH]; intros i.
  - constructor.
  - destruct i; simpl; constructor; auto.
Qed.

Lemma map2_longitud (f : R -> R -> R) (a b : list R) :
  length a = length b -> length (map2 f a b) = length a.
Proof.
  revert b. induction a as [|x a IH]; intros b H; [reflexivity|].
  destruct b as [|y b]; [discriminate|]. simpl. f_equal. apply IH.
  simpl in H. lia.
Qed.

Lemma map2_longitud_min (f : R -> R -> R) (a b : list R) :
  length (map2 f a b) = Nat.min (length a) (length b).
Proof.
  revert b. induction a as [|x a IH]; intros b; [reflexivity|].
  destruct b as [|y b]; [reflexivity|]. simpl. f_equal. apply IH.
Qed.

Ltac longitudes :=
  unfold escalar;
  repeat (rewrite length_map || rewrite map2_longitud_min);
  repeat match goal with
         | H : length _ = _ |- _ => rewrite H
         end;
  lia.

Lemma elemento_ok (f : R -> R -> R) (a b : list R) :
  length a = length b -> elemento_a_elemento f a b = Ok (map2 f a b).
Proof.
  intros H. unfold elemento_a_elemento. rewrite H, Nat.eqb_refl. reflexivity.
Qed.

Lemma escalar_longitud (k : R) (a : list R) : length (escalar k a) = length a.
Proof. apply length_map. Qed.

(** The lengths of the arrays a move reads. *)
Lemma arreglos_de_particula (s : PSOOptimizer) (i : nat) :
  Valido s -> (i < Z.to_nat (n_particulas s))%nat ->
  (nth i (particulas s) 0 < length (memoria s))%nat
  /\ length (leer (memoria s) (nth i (particulas s) 0%nat)) = dimension s
  /\ length (leer (memoria s) (nth i (mejores_locales s) 0%nat)) = dimension s
  /\ length (nth i (velocidades s) []) = dimension s.
Proof.
  intros V Hi.
  assert (H1 : (nth i (particulas s) 0 < length (memoria s))%nat).
  { pose proof (v_dirs s V) as F. rewrite Forall_forall in F. apply F.
    apply nth_In. rewrite (v_particulas s V). exact Hi. }
  assert (H2 : (nth i (mejores_locales s) 0 < length (memoria s))%nat).
  { pose proof (v_dirs_locales s V) as F. rewrite Forall_forall in F. apply F.
    apply nth_In. rewrite (v_locales s V). exact Hi. }
  split; [exact H1|].
  split; [apply (leer_Forall (fun x => length x = dimension s)); [apply V|exact H1]|].
  split; [apply (leer_Forall (fun x => length x = dimension s)); [apply V|exact H2]|].
  pose proof (v_vel_dim s V) as F. rewrite Forall_forall in F. apply F.
  apply nth_In. rewrite (v_velocidades s V). exact Hi.
Qed.

Lemma nueva_velocidad_longitud (s : PSOOptimizer) (r1 r2 : R) (i : nat) :
  Valido s -> (i < Z.to_nat (n_particulas s))%nat ->
  length (nueva_velocidad s r1 r2 i) = dimension s.
Proof.
  intros V Hi. destruct (arreglos_de_particula s i V Hi) as [_ [Hp [Hl Hv]]].
  pose proof (v_global s V) as Hg.
  unfold nueva_velocidad. longitudes.
Qed.

Lemma paso_movimiento_forma (s : PSOOptimizer) (g : Generador) (i : nat) :
  Valido s -> (i < Z.to_nat (n_particulas s))%nat ->
  paso_movimiento (s, g) i
  = Ok (mover s (flujo g (cursor g)) (flujo g (S (cursor g))) i, avanzar 2 g).
Proof.
  intros V Hi. destruct (arreglos_de_particula s i V Hi) as [Hdir [Hp [Hl Hv]]].
  pose proof (v_global s V) as Hg.
  pose proof (nueva_velocidad_longitud s (flujo g (cursor g))
                (flujo g (S (cursor g))) i V Hi) as Hnv.
  assert (Hip : (i < length (particulas s))%nat) by (rewrite (v_particulas s V); exact Hi).
  assert (Hil : (i < length (mejores_locales s))%nat)
    by (rewrite (v_locales s V); exact Hi).
  assert (Hiv : (i < length (velocidades s))%nat)
    by (rewrite (v_velocidades s V); exact Hi).
  unfold paso_movimiento, mover_particula, random. cbn [flujo cursor].
  rewrite (indice_nth _ _ [] Hiv). cbn [ligar].
  rewrite (indice_nth _ _ 0%nat Hil). cbn [ligar].
  rewrite (indice_nth _ _ 0%nat Hip). cbn [ligar].
  rewrite elemento_ok by congruence. cbn [ligar].
  rewrite elemento_ok by congruence. cbn [ligar].
  rewrite elemento_ok by (clear Hnv; longitudes). cbn [ligar].
  rewrite elemento_ok by (clear Hnv; longitudes). cbn [ligar].
  rewrite asignar_poner by exact Hiv. cbn [ligar].
  rewrite asignar_poner by (rewrite poner_longitud; exact Hiv). cbn [ligar].
  rewrite poner_poner. cbn [memoria con_velocidades].
  fold (nueva_velocidad s (flujo g (cursor g)) (flujo g (S (cursor g))) i).
  rewrite elemento_ok by congruence. cbn [ligar].
  rewrite (aplicar_restricciones_forma _ i (Z.to_nat (n_sensores s))).
  - cbn [ligar memoria particulas con_memoria con_velocidades
         lat_min lat_max lon_min lon_max].
    rewrite leer_escribir by exact Hdir. rewrite escribir_escribir.
    reflexivity.
  - exact Hip.
  - cbn [memoria particulas con_memoria con_velocidades].
    rewrite escribir_longitud. exact Hdir.
  - cbn [memoria particulas con_memoria con_velocidades].
    rewrite leer_escribir by exact Hdir.
    rewrite map2_longitud by congruence. exact Hp.
Qed.

Lemma nueva_posicion_longitud (s : PSOOptimizer) (r1 r2 : R) (i : nat) :
  Valido s -> (i < Z.to_nat (n_particulas s))%nat ->
  length (nueva_posicion s r1 r2 i) = dimension s.
Proof.
  intros V Hi. destruct (arreglos_de_particula s i V Hi) as [_ [Hp _]].
  pose proof (nueva_velocidad_longitud s r1 r2 i V Hi) as Hnv.
  unfold nueva_posicion. rewrite recortar_longitud. longitudes.
Qed.

Lemma nueva_posicion_dentro (s : PSOOptimizer) (r1 r2 : R) (i : nat) :
  Valido s -> (i < Z.to_nat (n_particulas s))%nat ->
  lat_min s <= lat_max s -> lon_min s <= lon_max s ->
  dentro s (nueva_posicion s r1 r2 i).
Proof.
  intros V Hi Hla Hlo. destruct (arreglos_de_particula s i V Hi) as [_ [Hp _]].
  pose proof (nueva_velocidad_longitud s r1 r2 i V Hi) as Hnv.
  unfold dentro, nueva_posicion. rewrite formatear_en_pares.
  apply (recortar_dentro _ _ _ _ (Z.to_nat (n_sensores s))); try assumption.
  unfold dimension in *. longitudes.
Qed.

Lemma mover_bien (s : PSOOptimizer) (r1 r2 : R) (i : nat) :
  Valido s -> (i < Z.to_nat (n_particulas s))%nat ->
  paso_bien s (mover s r1 r2 i).
Proof.
  intros V Hi.
  pose proof (nueva_velocidad_longitud s r1 r2 i V Hi) as Hnv.
  pose proof (nueva_posicion_longitud s r1 r2 i V Hi) as Hnp.
  unfold paso_bien.
  split; [|split; [reflexivity|split; [|split; [reflexivity|]]]].
  - destruct V. unfold mover. constructor; cbn; try assumption.
    + apply escribir_Forall; assumption.
    + rewrite escribir_longitud. assumption.
    + rewrite poner_longitud. assumption.
    + apply poner_Forall; assumption.
    + rewrite escribir_longitud. assumption.
  - unfold no_empeora, mover. cbn. split; [lra|]. split; [reflexivity|intros; lra].
  - intros A. pose proof (nueva_posicion_dentro s r1 r2 i V Hi (a_lat s A) (a_lon s A)).
    destruct A. unfold mover. constructor; cbn; try assumption.
    apply escribir_Forall; assumption.
Qed.

Lemma actualizar_velocidades_bien (s : PSOOptimizer) (g : Generador) :
  Valido s ->
  exists s' g', _actualizar_velocidades_posiciones s g = Ok (s', g')
    /\ paso_bien s s'
    /\ mejor_puntaje_global s' = mejor_puntaje_global s
    /\ mejores_puntajes_locales s' = mejores_puntajes_locales s
    /\ mejor_global s' = mejor_global s.
Proof.
  intros V. unfold _actualizar_velocidades_posiciones.
  destruct (para_cada_invariante paso_movimiento
           (fun sg => paso_bien s (fst sg)
                      /\ mejor_puntaje_global (fst sg) = mejor_puntaje_global s
                      /\ mejores_puntajes_locales (fst sg) = mejores_puntajes_locales s
                      /\ mejor_global (fst sg) = mejor_global s)
           (fun i => (i < Z.to_nat (n_particulas s))%nat))
    with (indices := rango (n_particulas s)) (s := (s, g))
    as [[s' g'] [E H]].
  - intros [s1 g1] i [B1 [G1 [L1 M1]]] Hi. cbn [fst] in *.
    assert (Hi1 : (i < Z.to_nat (n_particulas s1))%nat).
    { destruct B1 as [_ [Par _]].
      rewrite (n_particulas_parametros _ _ Par). exact Hi. }
    assert (V1 : Valido s1) by apply B1.
    rewrite (paso_movimiento_forma s1 g1 i V1 Hi1).
    eexists. split; [reflexivity|]. cbn [fst].
    split; [|auto].
    eapply paso_bien_trans; [exact B1|]. apply mover_bien; assumption.
  - apply rango_menor.
  - cbn [fst]. split; [apply paso_bien_refl; exact V|auto].
  - exists s', g'. split; [exact E|exact H].
Qed.

Lemma creciente_agregar (l : list R) (x : R) :
  creciente l -> Forall (fun h => h <= x) l -> creciente (l ++ [x]).
Proof.
  induction l as [|a l IH]; intros Hc Hall; [exact I|].
  inversion Hall as [|? ? Ha Hl]; subst.
  destruct l as [|b l].
  - simpl. split; [exact Ha|exact I].
  - destruct Hc as [Hab Hc]. change ((a :: b :: l) ++ [x]) with (a :: (b :: l) ++ [x]).
    change ((b :: l) ++ [x]) with (b :: l ++ [x]) in *.
    split; [exact Hab|]. apply IH; assumption.
Qed.

Lemma iteracion_bien (s : PSOOptimizer) (g : Generador) :
  Valido s ->
  exists s' g', iteracion (s, g) = Ok (s', g')
    /\ Valido s'
    /\ parametros s' = parametros s
    /\ no_empeora s s'
    /\ historial_puntajes s' = historial_puntajes s ++ [mejor_puntaje_global s']
    /\ (Acotado s -> Acotado s').
Proof.
  intros V. unfold iteracion.
  destruct (actualizar_mejores_bien s V) as [s1 [E1 [B1 _]]].
  rewrite E1. cbn [ligar].
  assert (V1 : Valido s1) by apply B1.
  destruct (actualizar_velocidades_bien s1 g V1) as [s2 [g2 [E2 [B2 _]]]].
  rewrite E2. cbn [ligar].
  pose proof (paso_bien_trans _ _ _ B1 B2) as [V2 [P2 [N2 [H2 A2]]]].
  eexists. eexists. split; [reflexivity|].
  split; [destruct V2; constructor; assumption|].
  split; [exact P2|]. split; [exact N2|]. split; [cbn; rewrite H2; reflexivity|].
  intros A. specialize (A2 A). destruct A2. constructor; assumption.
Qed.

Lemma iterar_bien (n : nat) :
  forall s g, Valido s ->
  exists s' g', iterar n (s, g) = Ok (s', g')
    /\ Valido s'
    /\ parametros s' = parametros s
    /\ no_empeora s s'
    /\ length (historial_puntajes s') = (length (historial_puntajes s) + n)%nat
    /\ (historial_ordenado s -> historial_ordenado s')
    /\ (Acotado s -> Acotado s').
Proof.
  induction n as [|n IH]; intros s g V.
  - exists s, g. split; [reflexivity|]. split; [exact V|]. split; [reflexivity|].
    split; [apply no_empeora_refl|]. split; [lia|auto].
  - destruct (iteracion_bien s g V) as [s1 [g1 [E1 [V1 [P1 [N1 [H1 A1]]]]]]].
    destruct (IH s1 g1 V1) as [s2 [g2 [E2 [V2 [P2 [N2 [L2 [O2 A2]]]]]]]].
    exists s2, g2. cbn [iterar]. rewrite E1. cbn [ligar].
    split; [exact E2|]. split; [exact V2|]. split; [congruence|].
    split; [eapply no_empeora_trans; eassumption|].
    split; [rewrite L2, H1, length_app; simpl; lia|].
    split; [|auto].
    intros [Hc Hf]. apply O2. unfold historial_ordenado. rewrite H1. split.
    + apply creciente_agregar; [exact Hc|].
      eapply Forall_impl; [|exact Hf]. intros h Hh. cbv beta in Hh.
      destruct N1 as [Hg _]. lra.
    + apply Forall_app. split.
      * eapply Forall_impl; [|exact Hf]. intros h Hh. cbv beta in Hh.
        destruct N1 as [Hg _]. lra.
      * constructor; [lra|constructor].
Qed.

(* ------------------------------------------------------------------ *)
(** ** Construction *)

Lemma fold_Rmin_le (l : list R) (x : R) : fold_left Rmin l x <= x.
Proof.
  revert x. induction l as [|y l IH]; intros x; [simpl; lra|].
  cbn [fold_left]. apply Rle_trans with (Rmin x y); [apply IH|apply Rmin_l].
Qed.

Lemma fold_Rmax_ge (l : list R) (x : R) : x <= fold_left Rmax l x.
Proof.
  revert x. induction l as [|y l IH]; intros x; [simpl; lra|].
  cbn [fold_left]. apply Rle_trans with (Rmax x y); [apply Rmax_l|apply IH].
Qed.

Lemma limites_columna (col : list R) :
  col <> [] ->
  exists a b, par_limites (columna_min col) (columna_max col) = Some (a, b)
              /\ a <= b.
Proof.
  destruct col as [|x resto]; [contradiction|]. intros _.
  exists (fold_left Rmin resto x), (fold_left Rmax resto x).
  split; [reflexivity|].
  apply Rle_trans with x; [apply fold_Rmin_le|apply fold_Rmax_ge].
Qed.

Lemma uniforme_rango (low high u : R) :
  low <= high -> 0 <= u < 1 -> low <= low + (high - low) * u <= high.
Proof. intros H [H0 H1]. split; nra. Qed.

Lemma nueva_particula_ok (a b c d : R) (n : nat) :
  forall g, exists arr,
    nueva_particula (Some (a, b)) (Some (c, d)) n g
    = Ok (arr, avanzar (2 * n) g)
    /\ length arr = (2 * n)%nat
    /\ (a <= b -> c <= d -> en_rango g ->
        Forall (sensor_dentro a b c d) (en_pares arr)).
Proof.
  induction n as [|n IH]; intros g.
  - exists []. split; [destruct g; reflexivity|]. split; [reflexivity|].
    intros; constructor.
  - destruct (IH (avanzar 2 g)) as [arr [E [L D]]].
    eexists. cbn [nueva_particula uniform random ligar flujo cursor].
    change (mkGenerador (flujo g) (S (S (cursor g)))) with (avanzar 2 g).
    rewrite E. cbn [ligar]. split; [|split].
    + f_equal. f_equal. unfold avanzar. cbn [flujo cursor]. f_equal. lia.
    + simpl. rewrite L. lia.
    + intros Hab Hcd Hg. cbn [en_pares]. constructor.
      * split; apply uniforme_rango; try assumption; apply Hg.
      * apply D; assumption.
Qed.

Lemma inicializar_particulas_ok (a b c d : R) (n_sensores : Z) (m : nat) :
  forall g, exists arreglos g',
    _inicializar_particulas (Some (a, b)) (Some (c, d)) n_sensores m g
    = Ok (arreglos, g')
    /\ length arreglos = m
    /\ Forall (fun x => length x = (2 * Z.to_nat n_sensores)%nat) arreglos
    /\ flujo g' = flujo g
    /\ (a <= b -> c <= d -> en_rango g ->
        Forall (fun x => Forall (sensor_dentro a b c d) (en_pares x)) arreglos).
Proof.
  induction m as [|m IH]; intros g.
  - exists [], g. repeat split; auto.
  - destruct (nueva_particula_ok a b c d (Z.to_nat n_sensores) g) as [arr [E [L D]]].
    destruct (IH (avanzar (2 * Z.to_nat n_sensores) g))
      as [arreglos [g' [E' [L' [F' [Hf D']]]]]].
    exists (arr :: arreglos), g'. cbn [_inicializar_particulas].
    rewrite E. cbn [ligar]. rewrite E'. cbn [ligar].
    split; [reflexivity|]. split; [simpl; congruence|].
    split; [constructor; assumption|]. split; [exact Hf|].
    intros Hab Hcd Hg. constructor; [apply D; assumption|].
    apply D'; assumption.
Qed.

Lemma uniform_n_longitud (low high : R) (size : nat) :
  forall g, length (fst (uniform_n low high size g)) = size.
Proof.
  induction size as [|k IH]; intros g; [reflexivity|].
  cbn [uniform_n random]. specialize (IH (mkGenerador (flujo g) (S (cursor g)))).
  destruct (uniform_n low high k (mkGenerador (flujo g) (S (cursor g)))).
  simpl in *. congruence.
Qed.

Lemma inicializar_velocidades_ok (n_sensores : Z) (m : nat) :
  (0 <= n_sensores)%Z ->
  forall g, exists vels g',
    _inicializar_velocidades n_sensores m g = Ok (vels, g')
    /\ length vels = m
    /\ Forall (fun v => length v = (2 * Z.to_nat n_sensores)%nat) vels.
Proof.
  intros Hn. induction m as [|m IH]; intros g.
  - exists [], g. repeat split; auto.
  - cbn [_inicializar_velocidades]. unfold uniform_size.
    replace (n_sensores * 2 <? 0)%Z with false by (symmetry; apply Z.ltb_ge; lia).
    cbn [ligar].
    pose proof (uniform_n_longitud (- (1 / 1000)) (1 / 1000)
                  (Z.to_nat (n_sensores * 2)) g) as L.
    destruct (uniform_n (- (1 / 1000)) (1 / 1000) (Z.to_nat (n_sensores * 2)) g)
      as [v g1].
    destruct (IH g1) as [vels [g' [E [L' F']]]]. rewrite E. cbn [ligar].
    exists (v :: vels), g'. split; [reflexivity|]. split; [simpl; congruence|].
    constructor; [|exact F']. simpl in L. rewrite L. lia.
Qed.

Lemma mapear_evaluar_ok (datos : list Punto) (n : nat) (arreglos : list (list R)) :
  cultivos_presentes datos -> (1 <= n)%nat ->
  Forall (fun x => length x = (2 * n)%nat) arreglos ->
  exists puntajes, mapear (_evaluar_particula datos) arreglos = Ok puntajes
                   /\ length puntajes = length arreglos.
Proof.
  intros Hd Hn. induction 1 as [|a l Ha _ IH].
  - exists []. auto.
  - destruct (evaluar_ok datos a n Hd Hn Ha) as [p [Hp _]].
    destruct IH as [ps [Hps L]].
    exists (p :: ps). cbn [mapear]. rewrite Hp. cbn [ligar]. rewrite Hps.
    split; [reflexivity|simpl; congruence].
Qed.

Lemma argmax_desde_menor (l : list R) :
  forall i mejor_i mejor, (mejor_i < i)%nat ->
    (argmax_desde l i mejor_i mejor < i + length l)%nat.
Proof.
  induction l as [|x l IH]; intros i mejor_i mejor H; [simpl; lia|].
  cbn [argmax_desde length]. destruct (Rgt_b x mejor).
  - specialize (IH (S i) i x). lia.
  - specialize (IH (S i) mejor_i mejor). lia.
Qed.

Lemma argmax_ok (l : list R) :
  l <> [] -> exists idx, argmax l = Ok idx /\ (idx < length l)%nat.
Proof.
  destruct l as [|x l]; [contradiction|]. intros _.
  eexists. split; [reflexivity|].
  pose proof (argmax_desde_menor l 1 0 x). simpl. lia.
Qed.

Lemma init_ok (ds : list Punto) (n m t : Z) (g : Generador) :
  cultivos_presentes ds -> (1 <= n)%Z -> (1 <= m)%Z ->
  exists s g', init ds n m t g = Ok (s, g')
    /\ Valido s
    /\ parametros s
       = (ds, (n, m, t), (lat_min s, lat_max s, lon_min s, lon_max s),
          (PSO_CONFIG.inercia, PSO_CONFIG.cognitivo, PSO_CONFIG.social,
           PSO_CONFIG.velocidad_maxima))
    /\ par_limites (columna_min (map Latitud ds)) (columna_max (map Latitud ds))
       = Some (lat_min s, lat_max s)
    /\ par_limites (columna_min (map Longitud ds)) (columna_max (map Longitud ds))
       = Some (lon_min s, lon_max s)
    /\ historial_puntajes s = []
    /\ mejores_locales s = particulas s
    /\ (en_rango g -> Acotado s).
Proof.
  intros Hd Hn Hm.
  assert (Hne : ds <> []) by (apply cultivos_presentes_no_vacio; exact Hd).
  destruct (limites_columna (map Latitud ds)) as [a [b [Elat Hab]]].
  { destruct ds; [contradiction|discriminate]. }
  destruct (limites_columna (map Longitud ds)) as [c [d [Elon Hcd]]].
  { destruct ds; [contradiction|discriminate]. }
  unfold init. rewrite Elat, Elon.
  destruct (inicializar_particulas_ok a b c d n (Z.to_nat m) g)
    as [arreglos [g1 [E1 [L1 [F1 [_ D1]]]]]].
  rewrite E1. cbn [ligar].
  destruct (inicializar_velocidades_ok n (Z.to_nat m) ltac:(lia) g1)
    as [vels [g2 [E2 [L2 F2]]]].
  rewrite E2. cbn [ligar].
  destruct (mapear_evaluar_ok ds (Z.to_nat n) arreglos Hd ltac:(lia) F1)
    as [puntajes [E3 L3]].
  rewrite E3. cbn [ligar].
  destruct (argmax_ok puntajes) as [idx [E4 L4]].
  { intros E. rewrite E in L3. simpl in L3. lia. }
  rewrite E4. cbn [ligar].
  assert (Hidx : (idx < length arreglos)%nat) by lia.
  rewrite (indice_nth _ _ 0%nat) by (rewrite length_seq; exact Hidx).
  cbn [ligar]. rewrite (indice_nth _ _ 0 L4). cbn [ligar].
  rewrite seq_nth by exact Hidx. cbn [Nat.add].
  assert (Hseq : Forall (fun x => (x < length arreglos)%nat) (seq 0 (length arreglos))).
  { apply Forall_forall. intros x Hx. apply in_seq in Hx. lia. }
  eexists. eexists. split; [reflexivity|].
  split; [|split; [reflexivity|split; [reflexivity|split; [reflexivity|
          split; [reflexivity|split; [reflexivity|]]]]]].
  - constructor; cbn; unfold dimension; cbn; try assumption; try lia.
    + rewrite length_seq. exact L1.
    + rewrite length_seq. exact L1.
    + apply (leer_Forall (fun x => length x = (2 * Z.to_nat n)%nat));
        assumption.
  - intros Hg. specialize (D1 Hab Hcd Hg).
    assert (Hdentro : Forall (fun x => Forall (sensor_dentro a b c d)
                                         (_formatear_sensores x)) arreglos).
    { eapply Forall_impl; [|exact D1]. intros x Hx. rewrite formatear_en_pares.
      exact Hx. }
    constructor; cbn; try assumption.
    apply (leer_Forall (fun x => Forall (sensor_dentro a b c d)
                                   (_formatear_sensores x))); assumption.
Qed.

(* ------------------------------------------------------------------ *)
(** ** Whole runs *)

Lemma iterar_siguiente (k : nat) :
  forall sg, iterar (S k) sg = (sg' <- iterar k sg ;; iteracion sg').
Proof.
  induction k as [|k IH]; intros sg.
  - cbn [iterar ligar]. destruct (iteracion sg); reflexivity.
  - change (iterar (S (S k)) sg) with (sg' <- iteracion sg ;; iterar (S k) sg').
    cbn [iterar]. destruct (iteracion sg) as [sg1|]; [|reflexivity].
    cbn [ligar]. apply IH.
Qed.

Lemma max_iter_parametros (s s' : PSOOptimizer) :
  parametros s' = parametros s -> max_iter s' = max_iter s.
Proof. unfold parametros. intros [= ? ? ? ? ? ? ? ? ? ? ? ?]. assumption. Qed.

Lemma limites_parametros (s s' : PSOOptimizer) :
  parametros s' = parametros s ->
  lat_min s' = lat_min s /\ lat_max s' = lat_max s
  /\ lon_min s' = lon_min s /\ lon_max s' = lon_max s.
Proof. unfold parametros. intros [= ? ? ? ? ? ? ? ? ? ? ? ?]. auto. Qed.

(** Every state a run goes through, from a valid object. *)
Lemma estados_de_la_corrida (s0 : PSOOptimizer) (g0 : Generador) :
  Valido s0 -> historial_puntajes s0 = [] ->
  forall k, exists sk gk sk1 gk1,
    iterar k (s0, g0) = Ok (sk, gk)
    /\ iterar (S k) (s0, g0) = Ok (sk1, gk1)
    /\ Valido sk
    /\ parametros sk = parametros s0
    /\ no_empeora s0 sk
    /\ no_empeora sk sk1
    /\ historial_puntajes sk1 = historial_puntajes sk ++ [mejor_puntaje_global sk1]
    /\ length (historial_puntajes sk) = k
    /\ creciente (historial_puntajes sk)
    /\ (Acotado s0 -> Acotado sk).
Proof.
  intros V H0 k.
  destruct (iterar_bien k s0 g0 V) as [sk [gk [Ek [Vk [Pk [Nk [Lk [Ok_ Ak]]]]]]]].
  destruct (iteracion_bien sk gk Vk) as [sk1 [gk1 [E1 [V1 [P1 [N1 [H1 A1]]]]]]].
  exists sk, gk, sk1, gk1.
  split; [exact Ek|]. split; [rewrite iterar_siguiente, Ek; exact E1|].
  split; [exact Vk|]. split; [exact Pk|]. split; [exact Nk|].
  split; [exact N1|]. split; [exact H1|].
  split; [rewrite Lk, H0; reflexivity|]. split; [|exact Ak].
  apply Ok_. unfold historial_ordenado. rewrite H0. split; [exact I|constructor].
Qed.

Lemma dimension_sensores (s : PSOOptimizer) (a : list R) :
  length a = dimension s ->
  length (_formatear_sensores a) = Z.to_nat (n_sensores s)
  /\ Forall (fun sensor => length sensor = 2%nat) (_formatear_sensores a)
  /\ concat (_formatear_sensores a) = a.
Proof.
  intros H. rewrite formatear_en_pares.
  destruct (en_pares_par (Z.to_nat (n_sensores s)) a H) as [H1 H2].
  split; [exact H1|]. split; [exact H2|apply en_pares_concat].
Qed.

(** A run on a dataset with the three crops, with at least one sensor and
    one particle: construction and optimization return, and the result is
    the formatted global best of the final object. *)
Lemma corrida_ok (ds : list Punto) (n m t : Z) (g : Generador) :
  cultivos_presentes ds -> (1 <= n)%Z -> (1 <= m)%Z ->
  exists s0 g0 s' g',
    init ds n m t g = Ok (s0, g0)
    /\ iterar (Z.to_nat t) (s0, g0) = Ok (s', g')
    /\ optimizar s0 g0
       = Ok ((_formatear_sensores (mejor_global s'), mejor_puntaje_global s'), s', g')
    /\ ejecutar_optimizacion_pso ds n m t g
       = Ok ((_formatear_sensores (mejor_global s'), mejor_puntaje_global s'), s', g')
    /\ Valido s0 /\ historial_puntajes s0 = []
    /\ n_sensores s0 = n /\ n_particulas s0 = m /\ max_iter s0 = t
    /\ par_limites (columna_min (map Latitud ds)) (columna_max (map Latitud ds))
       = Some (lat_min s0, lat_max s0)
    /\ par_limites (columna_min (map Longitud ds)) (columna_max (map Longitud ds))
       = Some (lon_min s0, lon_max s0)
    /\ mejores_locales s0 = particulas s0
    /\ (en_rango g -> Acotado s0).
Proof.
  intros Hd Hn Hm.
  destruct (init_ok ds n m t g Hd Hn Hm)
    as [s0 [g0 [E0 [V0 [P0 [Hlat [Hlon [H0 [Hal A0]]]]]]]]].
  assert (Hpar : n_sensores s0 = n /\ n_particulas s0 = m /\ max_iter s0 = t).
  { unfold parametros in P0. injection P0 as ? ? ? ? ? ? ? ?. auto. }
  destruct Hpar as [Pn [Pm Pt]].
  destruct (iterar_bien (Z.to_nat t) s0 g0 V0) as [s' [g' [E' _]]].
  exists s0, g0, s', g'.
  assert (Eo : optimizar s0 g0
               = Ok ((_formatear_sensores (mejor_global s'),
                      mejor_puntaje_global s'), s', g')).
  { unfold optimizar. rewrite Pt, E'. reflexivity. }
  split; [exact E0|]. split; [exact E'|]. split; [exact Eo|].
  split; [unfold ejecutar_optimizacion_pso; rewrite E0; exact Eo|].
  repeat (split; [assumption|]). exact A0.
Qed.

Lemma final_de_la_corrida (s0 : PSOOptimizer) (g0 : Generador) (k : nat)
    (s' : PSOOptimizer) (g' : Generador) :
  Valido s0 -> historial_puntajes s0 = [] ->
  iterar k (s0, g0) = Ok (s', g') ->
  Valido s'
  /\ parametros s' = parametros s0
  /\ no_empeora s0 s'
  /\ length (historial_puntajes s') = k
  /\ creciente (historial_puntajes s')
  /\ (Acotado s0 -> Acotado s').
Proof.
  intros V H0 E.
  destruct (estados_de_la_corrida s0 g0 V H0 k)
    as [sk [gk [sk1 [gk1 [Ek [_ [Vk [Pk [Nk [_ [_ [Lk [Ck Ak]]]]]]]]]]]]].
  rewrite E in Ek. injection Ek as <- <-. auto 10.
Qed.

Lemma en_rango_medio : en_rango gen_medio.
Proof. intros k. simpl. lra. Qed.

(* ------------------------------------------------------------------ *)
(** ** C9 *)

(** C9: on a dataset with the three crops, with at least one sensor and one
    particle, [optimizar] returns after exactly [max_iter] passes of the loop
    body (no early exit: the final object is the [max_iter]-fold iterate of
    the constructed one), each pass appends exactly one entry, the global
    best score of that moment, to the history, whose final length is
    [max_iter], and the result is the global best position cut into
    [n_sensores] pairs together with the global best score. *)
Theorem C9_exactamente_max_iter_iteraciones (ds : list Punto) (n m t : Z)
    (g : Generador) :
  cultivos_presentes ds -> (1 <= n)%Z -> (1 <= m)%Z ->
  exists s0 g0 s' g',
    init ds n m t g = Ok (s0, g0)
    /\ iterar (Z.to_nat t) (s0, g0) = Ok (s', g')
    /\ optimizar s0 g0
       = Ok ((_formatear_sensores (mejor_global s'), mejor_puntaje_global s'), s', g')
    /\ (forall k, exists sk gk sk1 gk1,
          iterar k (s0, g0) = Ok (sk, gk)
          /\ iterar (S k) (s0, g0) = Ok (sk1, gk1)
          /\ historial_puntajes sk1
             = historial_puntajes sk ++ [mejor_puntaje_global sk1])
    /\ length (historial_puntajes s') = Z.to_nat t
    /\ length (_formatear_sensores (mejor_global s')) = Z.to_nat n.
Proof.
  intros Hd Hn Hm.
  destruct (corrida_ok ds n m t g Hd Hn Hm)
    as [s0 [g0 [s' [g' [E0 [E' [Eo [_ [V0 [H0 [Pn [_ [_ _]]]]]]]]]]]]].
  destruct (final_de_la_corrida s0 g0 _ s' g' V0 H0 E') as [V' [P' [_ [L' _]]]].
  exists s0, g0, s', g'.
  split; [exact E0|]. split; [exact E'|]. split; [exact Eo|]. split; [|split].
  - intros k.
    destruct (estados_de_la_corrida s0 g0 V0 H0 k)
      as [sk [gk [sk1 [gk1 [Ek [Ek1 [_ [_ [_ [_ [Hk _]]]]]]]]]]].
    exists sk, gk, sk1, gk1. auto.
  - exact L'.
  - destruct (dimension_sensores s' (mejor_global s') (v_global s' V')) as [L _].
    rewrite L. unfold parametros in P'. injection P' as ? ? ? ? ? ? ? ?.
    congruence.
Qed.

Lemma C9_testigo :
  exists s0 g0 s' g',
    init datos_cuadrado 1 4 20 gen_medio = Ok (s0, g0)
    /\ iterar (Z.to_nat 20) (s0, g0) = Ok (s', g')
    /\ optimizar s0 g0
       = Ok ((_formatear_sensores (mejor_global s'), mejor_puntaje_global s'), s', g')
    /\ (forall k, exists sk gk sk1 gk1,
          iterar k (s0, g0) = Ok (sk, gk)
          /\ iterar (S k) (s0, g0) = Ok (sk1, gk1)
          /\ historial_puntajes sk1
             = historial_puntajes sk ++ [mejor_puntaje_global sk1])
    /\ length (historial_puntajes s') = Z.to_nat 20
    /\ length (_formatear_sensores (mejor_global s')) = Z.to_nat 1.
Proof.
  apply (C9_exactamente_max_iter_iteraciones datos_cuadrado 1 4 20 gen_medio).
  - exact cultivos_presentes_cuadrado.
  - lia.
  - lia.
Defined.

(* ------------------------------------------------------------------ *)
(** ** C8 *)

(** C8: over a whole run, from any state of the generator, no pass of the
    loop lowers a personal best score or the global best score, and the
    history returned by the run never goes down. *)
Theorem C8_puntajes_no_decrecen (ds : list Punto) (n m t : Z) (g : Generador) :
  cultivos_presentes ds -> (1 <= n)%Z -> (1 <= m)%Z ->
  exists s0 g0 res s' g',
    init ds n m t g = Ok (s0, g0)
    /\ optimizar s0 g0 = Ok (res, s', g')
    /\ (forall k, exists sk gk sk1 gk1,
          iterar k (s0, g0) = Ok (sk, gk)
          /\ iterar (S k) (s0, g0) = Ok (sk1, gk1)
          /\ no_empeora sk sk1)
    /\ no_empeora s0 s'
    /\ creciente (historial_puntajes s').
Proof.
  intros Hd Hn Hm.
  destruct (corrida_ok ds n m t g Hd Hn Hm)
    as [s0 [g0 [s' [g' [E0 [E' [Eo [_ [V0 [H0 _]]]]]]]]]].
  destruct (final_de_la_corrida s0 g0 _ s' g' V0 H0 E') as [_ [_ [N' [_ [C' _]]]]].
  exists s0, g0, (_formatear_sensores (mejor_global s'), mejor_puntaje_global s'),
    s', g'.
  split; [exact E0|]. split; [exact Eo|]. split; [|split; assumption].
  intros k.
  destruct (estados_de_la_corrida s0 g0 V0 H0 k)
    as [sk [gk [sk1 [gk1 [Ek [Ek1 [_ [_ [_ [Nk _]]]]]]]]]].
  exists sk, gk, sk1, gk1. auto.
Qed.

Lemma C8_testigo :
  exists s0 g0 res s' g',
    init datos_cuadrado 1 4 20 gen_medio = Ok (s0, g0)
    /\ optimizar s0 g0 = Ok (res, s', g')
    /\ (forall k, exists sk gk sk1 gk1,
          iterar k (s0, g0) = Ok (sk, gk)
          /\ iterar (S k) (s0, g0) = Ok (sk1, gk1)
          /\ no_empeora sk sk1)
    /\ no_empeora s0 s'
    /\ creciente (historial_puntajes s').
Proof.
  apply (C8_puntajes_no_decrecen datos_cuadrado 1 4 20 gen_medio).
  - exact cultivos_presentes_cuadrado.
  - lia.
  - lia.
Defined.

(* ------------------------------------------------------------------ *)
(** ** C10 *)

(** C10: a position vector of even length 2N is formatted into exactly N
    pairs whose concatenation, in order, is the vector; and the configuration
    a run returns has exactly [n_sensores] pairs, whose concatenation is the
    global best vector of the final object. *)
Theorem C10_formato_sin_perdida (particula : list R) (N : nat)
    (ds : list Punto) (n m t : Z) (g : Generador) :
  length particula = (2 * N)%nat ->
  cultivos_presentes ds -> (1 <= n)%Z -> (1 <= m)%Z ->
  (length (_formatear_sensores particula) = N
   /\ Forall (fun sensor => length sensor = 2%nat) (_formatear_sensores particula)
   /\ concat (_formatear_sensores particula) = particula)
  /\ exists sensores puntaje s' g',
       ejecutar_optimizacion_pso ds n m t g = Ok ((sensores, puntaje), s', g')
       /\ length sensores = Z.to_nat n
       /\ Forall (fun sensor => length sensor = 2%nat) sensores
       /\ concat sensores = mejor_global s'.
Proof.
  intros Hl Hd Hn Hm. split.
  - rewrite formatear_en_pares. destruct (en_pares_par N particula Hl) as [H1 H2].
    split; [exact H1|]. split; [exact H2|apply en_pares_concat].
  - destruct (corrida_ok ds n m t g Hd Hn Hm)
      as [s0 [g0 [s' [g' [E0 [E' [_ [Ee [V0 [H0 [Pn _]]]]]]]]]]].
    destruct (final_de_la_corrida s0 g0 _ s' g' V0 H0 E') as [V' [P' _]].
    destruct (dimension_sensores s' (mejor_global s') (v_global s' V'))
      as [L [F C]].
    eexists. eexists. exists s', g'. split; [exact Ee|].
    split; [|split; assumption].
    rewrite L. unfold parametros in P'. injection P' as ? ? ? ? ? ? ? ?.
    congruence.
Qed.

Lemma C10_testigo :
  (length (_formatear_sensores [1; 2; 3; 4]) = 2%nat
   /\ Forall (fun sensor => length sensor = 2%nat) (_formatear_sensores [1; 2; 3; 4])
   /\ concat (_formatear_sensores [1; 2; 3; 4]) = [1; 2; 3; 4])
  /\ exists sensores puntaje s' g',
       ejecutar_optimizacion_pso datos_cuadrado 1 4 20 gen_medio
       = Ok ((sensores, puntaje), s', g')
       /\ length sensores = Z.to_nat 1
       /\ Forall (fun sensor => length sensor = 2%nat) sensores
       /\ concat sensores = mejor_global s'.
Proof.
  apply (C10_formato_sin_perdida [1; 2; 3; 4] 2 datos_cuadrado 1 4 20 gen_medio).
  - reflexivity.
  - exact cultivos_presentes_cuadrado.
  - lia.
  - lia.
Defined.

(* ------------------------------------------------------------------ *)
(** ** C7 *)

Lemma map2_nth (f : R -> R -> R) (a b : list R) (j : nat) :
  (j < length a)%nat -> (j < length b)%nat ->
  nth j (map2 f a b) 0 = f (nth j a 0) (nth j b 0).
Proof.
  revert b j. induction a as [|x a IH]; intros b j Ha Hb; [simpl in Ha; lia|].
  destruct b as [|y b]; [simpl in Hb; lia|].
  destruct j as [|j]; [reflexivity|]. simpl. apply IH; simpl in *; lia.
Qed.

Lemma poner_nth {A} (l : list A) (i : nat) (v d : A) :
  (i < length l)%nat -> nth i (poner l i v) d = v.
Proof.
  revert i. induction l as [|x l IH]; intros i Hi; [simpl in Hi; lia|].
  destruct i as [|k]; [reflexivity|]. simpl. apply IH. simpl in Hi. lia.
Qed.

(** After the move of particle [i], its array holds the clamped position. *)
Lemma mover_posicion (s : PSOOptimizer) (r1 r2 : R) (i : nat) :
  Valido s -> (i < Z.to_nat (n_particulas s))%nat ->
  leer (memoria (mover s r1 r2 i)) (nth i (particulas (mover s r1 r2 i)) 0%nat)
  = nueva_posicion s r1 r2 i
  /\ nth i (velocidades (mover s r1 r2 i)) [] = nueva_velocidad s r1 r2 i.
Proof.
  intros V Hi. destruct (arreglos_de_particula s i V Hi) as [Hdir _].
  unfold mover. cbn [memoria particulas velocidades con_memoria con_velocidades].
  split; [apply leer_escribir; exact Hdir|].
  apply poner_nth. rewrite (v_velocidades s V). exact Hi.
Qed.

Lemma recortar_nth (la_min la_max lo_min lo_max : R) (n : nat) :
  forall (a : list R) (j : nat),
    length a = (2 * n)%nat -> (j < length a)%nat ->
    nth j (recortar la_min la_max lo_min lo_max a) 0
    = clip (nth j a 0) (if Nat.even j then la_min else lo_min)
                       (if Nat.even j then la_max else lo_max).
Proof.
  induction n as [|n IH]; intros a j Hl Hlt.
  - destruct a; simpl in *; lia.
  - destruct a as [|x [|y resto]]; try (simpl in Hl; lia).
    destruct j as [|[|j]].
    + reflexivity.
    + reflexivity.
    + cbn [recortar nth].
      change (Nat.even (S (S j))) with (Nat.even j).
      apply IH; [simpl in Hl; lia|simpl in Hlt; lia].
Qed.

Lemma clip_bajo (x a_min a_max : R) :
  a_min <= a_max -> x <= a_min -> clip x a_min a_max = a_min.
Proof.
  intros H Hx. unfold clip. rewrite Rmax_right by exact Hx.
  apply Rmin_left. exact H.
Qed.

Lemma fold_Rmin_minimo (l : list R) (x : R) :
  In (fold_left Rmin l x) (x :: l)
  /\ forall y, In y (x :: l) -> fold_left Rmin l x <= y.
Proof.
  revert x. induction l as [|z l IH]; intros x.
  - cbn [fold_left]. split; [left; reflexivity|].
    intros y [<-|[]]. lra.
  - cbn [fold_left]. destruct (IH (Rmin x z)) as [Hin Hle]. split.
    + destruct Hin as [E|Hin]; [|right; right; exact Hin].
      rewrite <- E. unfold Rmin. destruct (Rle_dec x z); [left|right; left];
        reflexivity.
    + intros y [<-|[<-|Hy]].
      * apply Rle_trans with (Rmin x z); [apply Hle; left; reflexivity|apply Rmin_l].
      * apply Rle_trans with (Rmin x z); [apply Hle; left; reflexivity|apply Rmin_r].
      * apply Hle. right. exact Hy.
Qed.

Lemma fold_Rmax_maximo (l : list R) (x : R) :
  In (fold_left Rmax l x) (x :: l)
  /\ forall y, In y (x :: l) -> y <= fold_left Rmax l x.
Proof.
  revert x. induction l as [|z l IH]; intros x.
  - cbn [fold_left]. split; [left; reflexivity|].
    intros y [<-|[]]. lra.
  - cbn [fold_left]. destruct (IH (Rmax x z)) as [Hin Hle]. split.
    + destruct Hin as [E|Hin]; [|right; right; exact Hin].
      rewrite <- E. unfold Rmax. destruct (Rle_dec x z); [right; left|left];
        reflexivity.
    + intros y [<-|[<-|Hy]].
      * apply Rle_trans with (Rmax x z); [apply Rmax_l|apply Hle; left; reflexivity].
      * apply Rle_trans with (Rmax x z); [apply Rmax_r|apply Hle; left; reflexivity].
      * apply Hle. right. exact Hy.
Qed.

(** The pair of extrema the constructor reads off a column is its least and
    its greatest value. *)
Lemma par_limites_extremos (col : list R) (a b : R) :
  par_limites (columna_min col) (columna_max col) = Some (a, b) ->
  extremos_de col a b.
Proof.
  destruct col as [|x l]; [discriminate|].
  cbn [columna_min columna_max par_limites]. intros H.
  assert (Ea : fold_left Rmin l x = a) by congruence.
  assert (Eb : fold_left Rmax l x = b) by congruence.
  destruct (fold_Rmin_minimo l x) as [Hin1 Hle1].
  destruct (fold_Rmax_maximo l x) as [Hin2 Hle2].
  rewrite Ea in Hin1, Hle1. rewrite Eb in Hin2, Hle2.
  split; [exact Hin1|]. split; [exact Hin2|].
  intros y Hy. split; [apply Hle1|apply Hle2]; exact Hy.
Qed.

(** C7: on a dataset with the three crops, with at least one sensor and one
    particle and a generator whose draws are in [0,1): the domain is the
    rectangle of the dataset's extrema, [lat_min] and [lat_max] being the
    least and the greatest latitude of a row and [lon_min] and [lon_max] the
    least and the greatest longitude; after every pass of the loop every
    position array is inside it; every position update of a particle, from
    any valid state of the object, leaves that particle inside it, and it is
    a hard clamp, component by component: where the velocity step carries
    the component, when that is inside the bounds of the component, the
    lower bound when the step ends at or below it, the upper bound when the
    step ends at or above it (no reflection, no wrapping); in particular a
    latitude that the velocity step would carry to [lat_max] or beyond ends
    exactly at [lat_max]; and every sensor the run returns is inside the
    domain. *)
Theorem C7_posiciones_dentro_del_dominio (ds : list Punto) (n m t : Z)
    (g : Generador) :
  cultivos_presentes ds -> (1 <= n)%Z -> (1 <= m)%Z -> en_rango g ->
  exists s0 g0 sensores puntaje s' g',
    init ds n m t g = Ok (s0, g0)
    /\ par_limites (columna_min (map Latitud ds)) (columna_max (map Latitud ds))
       = Some (lat_min s0, lat_max s0)
    /\ par_limites (columna_min (map Longitud ds)) (columna_max (map Longitud ds))
       = Some (lon_min s0, lon_max s0)
    /\ extremos_de (map Latitud ds) (lat_min s0) (lat_max s0)
    /\ extremos_de (map Longitud ds) (lon_min s0) (lon_max s0)
    /\ optimizar s0 g0 = Ok ((sensores, puntaje), s', g')
    /\ (forall k, exists sk gk,
          iterar k (s0, g0) = Ok (sk, gk) /\ Forall (dentro s0) (memoria sk))
    /\ (forall s gi i,
          Valido s -> parametros s = parametros s0 -> (i < Z.to_nat m)%nat ->
          exists s1 g1,
            paso_movimiento (s, gi) i = Ok (s1, g1)
            /\ dentro s0 (leer (memoria s1) (nth i (particulas s1) 0%nat))
            /\ (forall j, (j < dimension s0)%nat ->
                  let destino :=
                    nth j (leer (memoria s) (nth i (particulas s) 0%nat)) 0
                    + nth j (nth i (velocidades s1) []) 0 in
                  let llegada :=
                    nth j (leer (memoria s1) (nth i (particulas s1) 0%nat)) 0 in
                  (cota_inferior s0 j <= destino <= cota_superior s0 j ->
                   llegada = destino)
                  /\ (destino <= cota_inferior s0 j ->
                      llegada = cota_inferior s0 j)
                  /\ (cota_superior s0 j <= destino ->
                      llegada = cota_superior s0 j))
            /\ forall j, Nat.even j = true -> (j < dimension s0)%nat ->
                 lat_max s0 <= nth j (leer (memoria s) (nth i (particulas s) 0%nat)) 0
                               + nth j (nth i (velocidades s1) []) 0 ->
                 nth j (leer (memoria s1) (nth i (particulas s1) 0%nat)) 0
                 = lat_max s0)
    /\ Forall (sensor_dentro (lat_min s0) (lat_max s0) (lon_min s0) (lon_max s0))
              sensores.
Proof.
  intros Hd Hn Hm Hg.
  destruct (corrida_ok ds n m t g Hd Hn Hm)
    as [s0 [g0 [s' [g' [E0 [E' [Eo [_ [V0 [H0 [Pn [Pm [_ [Hlat [Hlon [_ A0]]]]]]]]]]]]]]]].
  specialize (A0 Hg).
  destruct (final_de_la_corrida s0 g0 _ s' g' V0 H0 E') as [V' [P' [_ [_ [_ A']]]]].
  specialize (A' A0).
  exists s0, g0, (_formatear_sensores (mejor_global s')), (mejor_puntaje_global s'),
    s', g'.
  split; [exact E0|]. split; [exact Hlat|]. split; [exact Hlon|].
  split; [apply par_limites_extremos; exact Hlat|].
  split; [apply par_limites_extremos; exact Hlon|].
  split; [exact Eo|]. split; [|split].
  - intros k.
    destruct (estados_de_la_corrida s0 g0 V0 H0 k)
      as [sk [gk [_ [_ [Ek [_ [_ [Pk [_ [_ [_ [_ [_ Ak]]]]]]]]]]]]].
    exists sk, gk. split; [exact Ek|].
    eapply Forall_impl; [|exact (a_memoria sk (Ak A0))].
    intros a. apply dentro_parametros. symmetry. exact Pk.
  - intros s gi i V P Hi.
    assert (His : (i < Z.to_nat (n_particulas s))%nat).
    { rewrite (n_particulas_parametros _ _ P), Pm. exact Hi. }
    destruct (limites_parametros _ _ P) as [L1 [L2 [L3 L4]]].
    rewrite (paso_movimiento_forma s gi i V His).
    eexists. eexists. split; [reflexivity|].
    destruct (mover_posicion s (flujo gi (cursor gi)) (flujo gi (S (cursor gi))) i
                V His) as [Epos Evel].
    rewrite Epos, Evel.
    destruct (arreglos_de_particula s i V His) as [_ [Hp _]].
    pose proof (nueva_velocidad_longitud s (flujo gi (cursor gi))
                  (flujo gi (S (cursor gi))) i V His) as Hnv.
    assert (Hcomp : forall j, (j < dimension s0)%nat ->
              nth j (nueva_posicion s (flujo gi (cursor gi))
                       (flujo gi (S (cursor gi))) i) 0
              = clip (nth j (leer (memoria s) (nth i (particulas s) 0%nat)) 0
                      + nth j (nueva_velocidad s (flujo gi (cursor gi))
                                 (flujo gi (S (cursor gi))) i) 0)
                     (cota_inferior s0 j) (cota_superior s0 j)).
    { intros j Hjd. rewrite <- (dimension_parametros _ _ P) in Hjd.
      unfold nueva_posicion, cota_inferior, cota_superior.
      rewrite (recortar_nth _ _ _ _ (Z.to_nat (n_sensores s)));
        [|unfold dimension in *; longitudes
         |rewrite map2_longitud_min, Hp, Hnv; lia].
      rewrite map2_nth by lia. rewrite L1, L2, L3, L4. reflexivity. }
    assert (Hcotas : forall j, cota_inferior s0 j <= cota_superior s0 j).
    { intros j. unfold cota_inferior, cota_superior.
      destruct (Nat.even j); apply A0. }
    split; [|split].
    + apply (dentro_parametros s s0); [symmetry; exact P|].
      apply nueva_posicion_dentro; try assumption.
      * rewrite L1, L2. apply A0.
      * rewrite L3, L4. apply A0.
    + intros j Hjd. cbv zeta. rewrite (Hcomp j Hjd). split; [|split].
      * intros Hin. apply clip_dentro. exact Hin.
      * intros Hbajo. apply clip_bajo; [apply Hcotas|exact Hbajo].
      * intros Hsobre. apply clip_sobre; [apply Hcotas|exact Hsobre].
    + intros j Hj Hjd Hsobre. rewrite (Hcomp j Hjd).
      unfold cota_inferior, cota_superior. rewrite Hj.
      apply clip_sobre; [apply A0|exact Hsobre].
  - pose proof (a_global s' A') as Hglobal. unfold dentro in Hglobal.
    destruct (limites_parametros _ _ P') as [L1 [L2 [L3 L4]]].
    rewrite L1, L2, L3, L4 in Hglobal. exact Hglobal.
Qed.

Lemma C7_testigo :
  exists s0 g0 sensores puntaje s' g',
    init datos_cuadrado 1 4 20 gen_medio = Ok (s0, g0)
    /\ par_limites (columna_min (map Latitud datos_cuadrado))
                   (columna_max (map Latitud datos_cuadrado))
       = Some (lat_min s0, lat_max s0)
    /\ par_limites (columna_min (map Longitud datos_cuadrado))
                   (columna_max (map Longitud datos_cuadrado))
       = Some (lon_min s0, lon_max s0)
    /\ extremos_de (map Latitud datos_cuadrado) (lat_min s0) (lat_max s0)
    /\ extremos_de (map Longitud datos_cuadrado) (lon_min s0) (lon_max s0)
    /\ optimizar s0 g0 = Ok ((sensores, puntaje), s', g')
    /\ (forall k, exists sk gk,
          iterar k (s0, g0) = Ok (sk, gk) /\ Forall (dentro s0) (memoria sk))
    /\ (forall s gi i,
          Valido s -> parametros s = parametros s0 -> (i < Z.to_nat 4)%nat ->
          exists s1 g1,
            paso_movimiento (s, gi) i = Ok (s1, g1)
            /\ dentro s0 (leer (memoria s1) (nth i (particulas s1) 0%nat))
            /\ (forall j, (j < dimension s0)%nat ->
                  let destino :=
                    nth j (leer (memoria s) (nth i (particulas s) 0%nat)) 0
                    + nth j (nth i (velocidades s1) []) 0 in
                  let llegada :=
                    nth j (leer (memoria s1) (nth i (particulas s1) 0%nat)) 0 in
                  (cota_inferior s0 j <= destino <= cota_superior s0 j ->
                   llegada = destino)
                  /\ (destino <= cota_inferior s0 j ->
                      llegada = cota_inferior s0 j)
                  /\ (cota_superior s0 j <= destino ->
                      llegada = cota_superior s0 j))
            /\ forall j, Nat.even j = true -> (j < dimension s0)%nat ->
                 lat_max s0 <= nth j (leer (memoria s) (nth i (particulas s) 0%nat)) 0
                               + nth j (nth i (velocidades s1) []) 0 ->
                 nth j (leer (memoria s1) (nth i (particulas s1) 0%nat)) 0
                 = lat_max s0)
    /\ Forall (sensor_dentro (lat_min s0) (lat_max s0) (lon_min s0) (lon_max s0))
              sensores.
Proof.
  apply (C7_posiciones_dentro_del_dominio datos_cuadrado 1 4 20 gen_medio).
  - exact cultivos_presentes_cuadrado.
  - lia.
  - lia.
  - exact en_rango_medio.
Defined.

(* ------------------------------------------------------------------ *)
(** ** C3 *)

Lemma init_sin_particulas (ds : list Punto) (n m t : Z) (g : Generador) :
  (m < 1)%Z -> init ds n m t g = Error ValueError.
Proof.
  intros Hm. unfold init. replace (Z.to_nat m) with 0%nat by lia. reflexivity.
Qed.

Lemma particulas_vacias (lat lon : option (R * R)) (n : Z) (m : nat)
    (g : Generador) :
  (n < 1)%Z ->
  _inicializar_particulas lat lon n m g = Ok (repeat [] m, g).
Proof.
  intros Hn. induction m as [|m IH]; [reflexivity|].
  cbn [_inicializar_particulas]. replace (Z.to_nat n) with 0%nat by lia.
  cbn [nueva_particula ligar]. rewrite IH. reflexivity.
Qed.

Lemma evaluar_vacia (ds : list Punto) :
  exists e, _evaluar_particula ds [] = Error e.
Proof.
  destruct ds as [|p ds].
  - exists ZeroDivisionError. reflexivity.
  - exists ValueError. reflexivity.
Qed.

Lemma init_sin_sensores (ds : list Punto) (n m t : Z) (g : Generador) :
  (1 <= m)%Z -> (n < 1)%Z -> exists e, init ds n m t g = Error e.
Proof.
  intros Hm Hn. unfold init. rewrite particulas_vacias by exact Hn.
  cbn [ligar]. destruct (Z.to_nat m) as [|k] eqn:Em; [lia|].
  cbn [_inicializar_velocidades]. unfold uniform_size.
  destruct (n * 2 <? 0)%Z eqn:En.
  - exists ValueError. reflexivity.
  - apply Z.ltb_ge in En. assert (n = 0%Z) by lia. subst n.
    cbn [ligar Z.mul Z.to_nat uniform_n].
    destruct (_inicializar_velocidades 0 k g) as [[vels g2]|e].
    + cbn [ligar repeat mapear]. destruct (evaluar_vacia ds) as [e He].
      rewrite He. exists e. reflexivity.
    + exists e. reflexivity.
Qed.

Lemma init_sin_datos (n m t : Z) (g : Generador) :
  exists e, init [] n m t g = Error e.
Proof.
  destruct (Z_lt_le_dec m 1) as [Hm|Hm].
  { exists ValueError. apply init_sin_particulas. exact Hm. }
  destruct (Z_lt_le_dec n 1) as [Hn|Hn].
  { apply init_sin_sensores; assumption. }
  exists OverflowError. unfold init. cbn [map columna_min columna_max par_limites].
  destruct (Z.to_nat m) as [|k] eqn:Em; [lia|].
  destruct (Z.to_nat n) as [|j] eqn:En; [lia|].
  cbn [_inicializar_particulas]. rewrite En. reflexivity.
Qed.

Lemma init_cultivo_ausente (ds : list Punto) (n m t : Z) (g : Generador)
    (c : Cultivo) :
  (1 <= n)%Z -> (1 <= m)%Z -> ds <> [] -> primera_ausente ds = Some c ->
  init ds n m t g = Error (KeyError c).
Proof.
  intros Hn Hm Hne Hc.
  destruct (limites_columna (map Latitud ds)) as [a [b [Elat _]]].
  { destruct ds; [contradiction|discriminate]. }
  destruct (limites_columna (map Longitud ds)) as [x [y [Elon _]]].
  { destruct ds; [contradiction|discriminate]. }
  unfold init. rewrite Elat, Elon.
  destruct (inicializar_particulas_ok a b x y n (Z.to_nat m) g)
    as [arreglos [g1 [E1 [L1 [F1 _]]]]].
  rewrite E1. cbn [ligar].
  destruct (inicializar_velocidades_ok n (Z.to_nat m) ltac:(lia) g1)
    as [vels [g2 [E2 _]]].
  rewrite E2. cbn [ligar].
  destruct arreglos as [|arr resto]; [simpl in L1; lia|].
  inversion F1 as [|? ? Harr _]; subst.
  cbn [mapear]. unfold _evaluar_particula at 1. rewrite formatear_en_pares.
  destruct (en_pares_par (Z.to_nat n) arr Harr) as [Hlen Hall].
  rewrite funcion_objetivo_ausente with (c := c); try assumption.
  - reflexivity.
  - intros E. rewrite E in Hlen. simpl in Hlen. lia.
  - eapply Forall_impl; [|exact Hall]. unfold bien_formado. intros s ->. lia.
Qed.

(** C3 (as the code has it): construction validates nothing.  It returns an
    optimizer whenever the dataset has the three crops, N >= 1 and M >= 1,
    whatever the iteration budget (negative included) and whatever the span
    of the domain; it stops with the exception of the first operation that
    breaks (not a validation error) when M < 1, when N < 1, when the dataset
    is empty, and when the dataset lacks one of the three crops. *)
Theorem C3_construccion_sin_validacion (ds : list Punto) (n m t : Z)
    (g : Generador) :
  (cultivos_presentes ds -> (1 <= n)%Z -> (1 <= m)%Z ->
   exists s g', init ds n m t g = Ok (s, g')
                /\ max_iter s = t
                /\ par_limites (columna_min (map Latitud ds))
                               (columna_max (map Latitud ds))
                   = Some (lat_min s, lat_max s)
                /\ par_limites (columna_min (map Longitud ds))
                               (columna_max (map Longitud ds))
                   = Some (lon_min s, lon_max s))
  /\ ((m < 1)%Z -> init ds n m t g = Error ValueError)
  /\ ((1 <= m)%Z -> (n < 1)%Z -> exists e, init ds n m t g = Error e)
  /\ (ds = [] -> exists e, init ds n m t g = Error e)
  /\ (forall c, (1 <= n)%Z -> (1 <= m)%Z -> ds <> [] ->
                primera_ausente ds = Some c ->
                init ds n m t g = Error (KeyError c)).
Proof.
  split; [|split; [|split; [|split]]].
  - intros Hd Hn Hm.
    destruct (init_ok ds n m t g Hd Hn Hm)
      as [s [g' [E [_ [P [Hlat [Hlon _]]]]]]].
    exists s, g'. split; [exact E|]. split; [|split; assumption].
    unfold parametros in P. injection P as ? ? ? ? ? ? ? ?. assumption.
  - apply init_sin_particulas.
  - apply init_sin_sensores.
  - intros ->. apply init_sin_datos.
  - intros c. apply init_cultivo_ausente.
Qed.

Lemma C3_testigo :
  (exists s g', init datos_cuadrado 1 4 (-1) gen_medio = Ok (s, g')
                /\ max_iter s = (-1)%Z
                /\ par_limites (columna_min (map Latitud datos_cuadrado))
                               (columna_max (map Latitud datos_cuadrado))
                   = Some (lat_min s, lat_max s)
                /\ par_limites (columna_min (map Longitud datos_cuadrado))
                               (columna_max (map Longitud datos_cuadrado))
                   = Some (lon_min s, lon_max s))
  /\ init datos_cuadrado 1 0 20 gen_medio = Error ValueError
  /\ (exists e, init datos_cuadrado 0 4 20 gen_medio = Error e)
  /\ (exists e, init [] 1 4 20 gen_medio = Error e)
  /\ init datos_solo_maiz 1 4 20 gen_medio = Error (KeyError Tomate).
Proof.
  split; [|split; [|split; [|split]]].
  - apply (proj1 (C3_construccion_sin_validacion datos_cuadrado 1 4 (-1) gen_medio)).
    + exact cultivos_presentes_cuadrado.
    + lia.
    + lia.
  - apply (proj1 (proj2 (C3_construccion_sin_validacion datos_cuadrado 1 0 20
                           gen_medio))).
    lia.
  - apply (proj1 (proj2 (proj2 (C3_construccion_sin_validacion datos_cuadrado 0 4 20
                                  gen_medio)))); lia.
  - apply (proj1 (proj2 (proj2 (proj2 (C3_construccion_sin_validacion [] 1 4 20
                                         gen_medio))))).
    reflexivity.
  - apply (proj2 (proj2 (proj2 (proj2 (C3_construccion_sin_validacion
                                         datos_solo_maiz 1 4 20 gen_medio)))));
      try lia; [discriminate|reflexivity].
Defined.

(** C3 as stated fails: construction succeeds with a negative iteration
    budget, and it succeeds on a dataset whose rows share one latitude and
    one longitude (a domain of zero span). *)
Lemma C3_contraejemplo_T_negativo_y_dominio_nulo :
  (exists s g', init datos_cuadrado 1 4 (-1) gen_medio = Ok (s, g')
                /\ max_iter s = (-1)%Z)
  /\ (exists s g', init datos_un_lugar 1 4 20 gen_medio = Ok (s, g')
                   /\ lat_min s = lat_max s /\ lon_min s = lon_max s).
Proof.
  split.
  - destruct (init_ok datos_cuadrado 1 4 (-1) gen_medio
                cultivos_presentes_cuadrado ltac:(lia) ltac:(lia))
      as [s [g' [E [_ [P _]]]]].
    exists s, g'. split; [exact E|].
    unfold parametros in P. injection P as ? ? ? ? ? ? ? ?. assumption.
  - assert (Hd : cultivos_presentes datos_un_lugar).
    { intros c [<-|[<-|[<-|[]]]]; discriminate. }
    destruct (init_ok datos_un_lugar 1 4 20 gen_medio Hd ltac:(lia) ltac:(lia))
      as [s [g' [E [_ [_ [Hlat [Hlon _]]]]]]].
    exists s, g'. split; [exact E|].
    cbn [datos_un_lugar map Latitud Longitud punto_en columna_min columna_max
         par_limites fold_left] in Hlat, Hlon.
    injection Hlat as A B. injection Hlon as C D.
    rewrite <- A, <- B, <- C, <- D.
    unfold Rmin, Rmax. repeat destruct (Rle_dec _ _); split; lra.
Qed.

(* ------------------------------------------------------------------ *)
(** ** C4 *)

Lemma mismo_futuro_random (g1 g2 : Generador) :
  mismo_futuro g1 g2 ->
  fst (random g1) = fst (random g2)
  /\ mismo_futuro (snd (random g1)) (snd (random g2)).
Proof.
  intros H. unfold random. cbn [fst snd]. split.
  - apply (H 0%nat).
  - intros k. cbn [flujo cursor]. specialize (H (S k)).
    replace (k + S (cursor g1))%nat with (S k + cursor g1)%nat by lia.
    replace (k + S (cursor g2))%nat with (S k + cursor g2)%nat by lia.
    exact H.
Qed.

Lemma misma_salida_ligar {A B} (r1 r2 : resultado (A * Generador))
    (k : A * Generador -> resultado (B * Generador)) :
  misma_salida r1 r2 ->
  (forall a g1 g2, mismo_futuro g1 g2 -> misma_salida (k (a, g1)) (k (a, g2))) ->
  misma_salida (ligar r1 k) (ligar r2 k).
Proof.
  intros H Hk. destruct r1 as [[a1 g1]|e1], r2 as [[a2 g2]|e2];
    cbn [misma_salida ligar] in *; try contradiction.
  - destruct H as [-> Hg]. apply Hk. exact Hg.
  - exact H.
Qed.

Lemma misma_salida_uniform (lim : option (R * R)) (g1 g2 : Generador) :
  mismo_futuro g1 g2 -> misma_salida (uniform lim g1) (uniform lim g2).
Proof.
  intros H. unfold uniform. destruct lim as [[low high]|]; [|reflexivity].
  destruct (mismo_futuro_random g1 g2 H) as [Hu Hg].
  destruct (random g1) as [u1 g1'], (random g2) as [u2 g2'].
  cbn [fst snd] in *. subst u2. split; [reflexivity|exact Hg].
Qed.

Lemma misma_salida_nueva_particula (lat lon : option (R * R)) (n : nat) :
  forall g1 g2, mismo_futuro g1 g2 ->
    misma_salida (nueva_particula lat lon n g1) (nueva_particula lat lon n g2).
Proof.
  induction n as [|n IH]; intros g1 g2 H.
  - split; [reflexivity|exact H].
  - cbn [nueva_particula].
    apply misma_salida_ligar; [apply misma_salida_uniform; exact H|].
    intros la h1 h2 Hh.
    apply misma_salida_ligar; [apply misma_salida_uniform; exact Hh|].
    intros lo k1 k2 Hk.
    apply misma_salida_ligar; [apply IH; exact Hk|].
    intros resto j1 j2 Hj. split; [reflexivity|exact Hj].
Qed.

Lemma misma_salida_particulas (lat lon : option (R * R)) (n : Z) (m : nat) :
  forall g1 g2, mismo_futuro g1 g2 ->
    misma_salida (_inicializar_particulas lat lon n m g1)
                 (_inicializar_particulas lat lon n m g2).
Proof.
  induction m as [|m IH]; intros g1 g2 H.
  - split; [reflexivity|exact H].
  - cbn [_inicializar_particulas].
    apply misma_salida_ligar; [apply misma_salida_nueva_particula; exact H|].
    intros p h1 h2 Hh.
    apply misma_salida_ligar; [apply IH; exact Hh|].
    intros resto j1 j2 Hj. split; [reflexivity|exact Hj].
Qed.

Lemma mismo_futuro_uniform_n (low high : R) (size : nat) :
  forall g1 g2, mismo_futuro g1 g2 ->
    fst (uniform_n low high size g1) = fst (uniform_n low high size g2)
    /\ mismo_futuro (snd (uniform_n low high size g1))
                    (snd (uniform_n low high size g2)).
Proof.
  induction size as [|k IH]; intros g1 g2 H.
  - split; [reflexivity|exact H].
  - cbn [uniform_n].
    destruct (mismo_futuro_random g1 g2 H) as [Hu Hg].
    destruct (random g1) as [u1 g1'], (random g2) as [u2 g2'].
    cbn [fst snd] in *. subst u2.
    destruct (IH g1' g2' Hg) as [Hl Hg'].
    destruct (uniform_n low high k g1') as [l1 h1],
             (uniform_n low high k g2') as [l2 h2].
    cbn [fst snd] in *. subst l2. split; [reflexivity|exact Hg'].
Qed.

Lemma misma_salida_velocidades (n : Z) (m : nat) :
  forall g1 g2, mismo_futuro g1 g2 ->
    misma_salida (_inicializar_velocidades n m g1)
                 (_inicializar_velocidades n m g2).
Proof.
  induction m as [|m IH]; intros g1 g2 H.
  - split; [reflexivity|exact H].
  - cbn [_inicializar_velocidades].
    apply misma_salida_ligar.
    + unfold uniform_size. destruct (n * 2 <? 0)%Z; [reflexivity|].
      destruct (mismo_futuro_uniform_n (- (1 / 1000)) (1 / 1000)
                  (Z.to_nat (n * 2)) g1 g2 H) as [Hl Hg].
      destruct (uniform_n _ _ _ g1) as [l1 h1], (uniform_n _ _ _ g2) as [l2 h2].
      cbn [fst snd] in *. subst l2. split; [reflexivity|exact Hg].
    + intros v h1 h2 Hh.
      apply misma_salida_ligar; [apply IH; exact Hh|].
      intros resto j1 j2 Hj. split; [reflexivity|exact Hj].
Qed.

Lemma misma_salida_init (ds : list Punto) (n m t : Z) (g1 g2 : Generador) :
  mismo_futuro g1 g2 -> misma_salida (init ds n m t g1) (init ds n m t g2).
Proof.
  intros H. unfold init.
  apply misma_salida_ligar; [apply misma_salida_particulas; exact H|].
  intros arreglos h1 h2 Hh.
  apply misma_salida_ligar; [apply misma_salida_velocidades; exact Hh|].
  intros vels j1 j2 Hj.
  destruct (mapear (_evaluar_particula ds) arreglos) as [puntajes|e];
    [|reflexivity].
  cbn [ligar]. destruct (argmax puntajes) as [idx|e]; [|reflexivity].
  cbn [ligar]. destruct (indice (seq 0 (length arreglos)) idx) as [dir|e];
    [|reflexivity].
  cbn [ligar]. destruct (indice puntajes idx) as [p|e]; [|reflexivity].
  cbn [ligar].
  destruct (par_limites (columna_min (map Latitud ds)) (columna_max (map Latitud ds)))
    as [[a b]|]; [|reflexivity].
  destruct (par_limites (columna_min (map Longitud ds)) (columna_max (map Longitud ds)))
    as [[c d]|]; [|reflexivity].
  split; [reflexivity|exact Hj].
Qed.

Lemma misma_salida_paso_movimiento (s : PSOOptimizer) (i : nat)
    (g1 g2 : Generador) :
  mismo_futuro g1 g2 ->
  misma_salida (paso_movimiento (s, g1) i) (paso_movimiento (s, g2) i).
Proof.
  intros H. unfold paso_movimiento.
  destruct (mismo_futuro_random g1 g2 H) as [Hu Hg].
  destruct (random g1) as [u1 h1], (random g2) as [u2 h2].
  cbn [fst snd] in *. subst u2.
  destruct (mismo_futuro_random h1 h2 Hg) as [Hv Hh].
  destruct (random h1) as [v1 k1], (random h2) as [v2 k2].
  cbn [fst snd] in *. subst v2.
  destruct (mover_particula s u1 v1 i) as [s3|e]; [|reflexivity].
  split; [reflexivity|exact Hh].
Qed.

Lemma misma_salida_movimientos (indices : list nat) :
  forall s g1 g2, mismo_futuro g1 g2 ->
    misma_salida (para_cada paso_movimiento indices (s, g1))
                 (para_cada paso_movimiento indices (s, g2)).
Proof.
  induction indices as [|i resto IH]; intros s g1 g2 H.
  - split; [reflexivity|exact H].
  - cbn [para_cada].
    apply misma_salida_ligar; [apply misma_salida_paso_movimiento; exact H|].
    intros s' h1 h2 Hh. apply IH. exact Hh.
Qed.

Lemma misma_salida_iteracion (s : PSOOptimizer) (g1 g2 : Generador) :
  mismo_futuro g1 g2 -> misma_salida (iteracion (s, g1)) (iteracion (s, g2)).
Proof.
  intros H. unfold iteracion.
  destruct (_actualizar_mejores_posiciones s) as [s1|e]; [|reflexivity].
  cbn [ligar]. unfold _actualizar_velocidades_posiciones.
  apply misma_salida_ligar; [apply misma_salida_movimientos; exact H|].
  intros s2 h1 h2 Hh. split; [reflexivity|exact Hh].
Qed.

Lemma misma_salida_iterar (k : nat) :
  forall s g1 g2, mismo_futuro g1 g2 ->
    misma_salida (iterar k (s, g1)) (iterar k (s, g2)).
Proof.
  induction k as [|k IH]; intros s g1 g2 H.
  - split; [reflexivity|exact H].
  - cbn [iterar].
    apply misma_salida_ligar; [apply misma_salida_iteracion; exact H|].
    intros s' h1 h2 Hh. apply IH. exact Hh.
Qed.

Lemma misma_salida_optimizar (s : PSOOptimizer) (g1 g2 : Generador) :
  mismo_futuro g1 g2 -> misma_salida (optimizar s g1) (optimizar s g2).
Proof.
  intros H. unfold optimizar.
  apply misma_salida_ligar; [apply misma_salida_iterar; exact H|].
  intros s' h1 h2 Hh. split; [reflexivity|exact Hh].
Qed.

(** C4 (as the code has it): the optimizer takes no seed and draws from the
    process-wide generator; the outcome of a run (configuration, best score,
    final object with its score history, or the exception) is determined by
    the dataset, the three sizes and the draws the generator is about to
    produce: two runs started from generator states with the same future
    draws have the same outcome. *)
Theorem C4_misma_corrida_con_los_mismos_sorteos (ds : list Punto) (n m t : Z)
    (g1 g2 : Generador) :
  mismo_futuro g1 g2 ->
  misma_salida (ejecutar_optimizacion_pso ds n m t g1)
               (ejecutar_optimizacion_pso ds n m t g2).
Proof.
  intros H. unfold ejecutar_optimizacion_pso.
  apply misma_salida_ligar; [apply misma_salida_init; exact H|].
  intros s h1 h2 Hh. apply misma_salida_optimizar. exact Hh.
Qed.

Lemma C4_testigo :
  misma_salida
    (ejecutar_optimizacion_pso datos_cuadrado 1 4 20 gen_medio)
    (ejecutar_optimizacion_pso datos_cuadrado 1 4 20
       (mkGenerador (fun _ => 1 / 2) 7)).
Proof.
  apply (C4_misma_corrida_con_los_mismos_sorteos datos_cuadrado 1 4 20 gen_medio
           (mkGenerador (fun _ => 1 / 2) 7)).
  intros k. reflexivity.
Defined.

(** Construction with one sensor and one particle, in closed form. *)
Lemma init_una_particula (ds : list Punto) (t : Z) (g : Generador)
    (a b c d : R) :
  cultivos_presentes ds ->
  par_limites (columna_min (map Latitud ds)) (columna_max (map Latitud ds))
  = Some (a, b) ->
  par_limites (columna_min (map Longitud ds)) (columna_max (map Longitud ds))
  = Some (c, d) ->
  exists p,
    _evaluar_particula ds [a + (b - a) * flujo g (cursor g);
                           c + (d - c) * flujo g (S (cursor g))] = Ok p
    /\ init ds 1 1 t g
       = Ok (objeto_de_una_particula ds t a b c d
               (a + (b - a) * flujo g (cursor g))
               (c + (d - c) * flujo g (S (cursor g)))
               (- (1 / 1000) + (1 / 1000 - - (1 / 1000))
                               * flujo g (S (S (cursor g))))
               (- (1 / 1000) + (1 / 1000 - - (1 / 1000))
                               * flujo g (S (S (S (cursor g)))))
               p,
             avanzar 4 g).
Proof.
  intros Hd Elat Elon.
  destruct (evaluar_ok ds [a + (b - a) * flujo g (cursor g);
                           c + (d - c) * flujo g (S (cursor g))] 1 Hd)
    as [p [Hp _]]; [lia|reflexivity|].
  exists p. split; [exact Hp|].
  unfold init. rewrite Elat, Elon.
  change (Z.to_nat 1) with 1%nat. cbn [_inicializar_particulas].
  change (Z.to_nat 1) with 1%nat.
  cbn [nueva_particula uniform random ligar flujo cursor].
  cbn [_inicializar_velocidades]. unfold uniform_size.
  change (1 * 2 <? 0)%Z with false. change (Z.to_nat (1 * 2)) with 2%nat.
  cbn [uniform_n random ligar flujo cursor mapear]. rewrite Hp.
  reflexivity.
Qed.

Lemma limites_cuadrado :
  par_limites (columna_min (map Latitud datos_cuadrado))
              (columna_max (map Latitud datos_cuadrado)) = Some (0, 1)
  /\ par_limites (columna_min (map Longitud datos_cuadrado))
                 (columna_max (map Longitud datos_cuadrado)) = Some (0, 1).
Proof.
  cbn [datos_cuadrado map Latitud Longitud punto_en columna_min columna_max
       par_limites fold_left].
  split; f_equal; f_equal; unfold Rmin, Rmax; repeat destruct (Rle_dec _ _); lra.
Qed.

(** With no iteration, a run with one sensor and one particle returns the
    initial position, which is made of the first two draws. *)
Lemma corrida_sin_iterar (g : Generador) :
  exists p s,
    ejecutar_optimizacion_pso datos_cuadrado 1 1 0 g
    = Ok (([[0 + (1 - 0) * flujo g (cursor g);
             0 + (1 - 0) * flujo g (S (cursor g))]], p), s, avanzar 4 g).
Proof.
  destruct limites_cuadrado as [Elat Elon].
  destruct (init_una_particula datos_cuadrado 0 g 0 1 0 1
              cultivos_presentes_cuadrado Elat Elon) as [p [_ E]].
  exists p. eexists. unfold ejecutar_optimizacion_pso. rewrite E. reflexivity.
Qed.

(** C4 as stated fails: the same call, repeated in the same process, starts
    from the generator as the first run left it and returns another
    configuration. *)
Lemma C4_contraejemplo_dos_corridas :
  exists sensores1 p1 s1 g1 sensores2 p2 s2 g2,
    ejecutar_optimizacion_pso datos_cuadrado 1 1 0 gen_escalon
    = Ok ((sensores1, p1), s1, g1)
    /\ ejecutar_optimizacion_pso datos_cuadrado 1 1 0 g1
       = Ok ((sensores2, p2), s2, g2)
    /\ sensores1 <> sensores2.
Proof.
  destruct (corrida_sin_iterar gen_escalon) as [p1 [s1 E1]].
  destruct (corrida_sin_iterar (avanzar 4 gen_escalon)) as [p2 [s2 E2]].
  do 8 eexists. split; [exact E1|]. split; [exact E2|].
  cbn [gen_escalon avanzar flujo cursor Nat.add Nat.ltb Nat.leb].
  intros H. injection H as H _. lra.
Qed.

(* ------------------------------------------------------------------ *)
(** ** C6 *)

(** The update of the bests for particle [i], in closed form: both
    replacements are guarded by a strict comparison. *)
Lemma paso_mejores_forma (s : PSOOptimizer) (i : nat) :
  Valido s -> (i < Z.to_nat (n_particulas s))%nat ->
  exists p,
    _evaluar_particula (datos s) (leer (memoria s) (nth i (particulas s) 0%nat))
    = Ok p
    /\ paso_mejores s i
       = Ok (let a := leer (memoria s) (nth i (particulas s) 0%nat) in
             let s1 :=
               if Rgt_b p (nth i (mejores_puntajes_locales s) 0)
               then con_mejor_local (con_memoria s (memoria s ++ [a]))
                      (poner (mejores_puntajes_locales s) i p)
                      (poner (mejores_locales s) i (length (memoria s)))
               else s in
             if Rgt_b p (mejor_puntaje_global s1)
             then con_mejor_global s1 p a
             else s1).
Proof.
  intros V Hi. destruct (arreglos_de_particula s i V Hi) as [_ [Hl _]].
  destruct (evaluar_valido s _ V Hl) as [p [Hp _]].
  exists p. split; [exact Hp|].
  unfold paso_mejores.
  rewrite (indice_nth _ _ 0%nat) by (rewrite (v_particulas s V); exact Hi).
  cbn [ligar]. rewrite Hp. cbn [ligar].
  rewrite (indice_nth _ _ 0) by (rewrite (v_puntajes s V); exact Hi).
  cbn [ligar].
  destruct (Rgt_b p (nth i (mejores_puntajes_locales s) 0)).
  - rewrite asignar_poner by (rewrite (v_puntajes s V); exact Hi). cbn [ligar].
    rewrite asignar_poner by (rewrite (v_locales s V); exact Hi). cbn [ligar].
    cbv zeta. destruct (Rgt_b p _); reflexivity.
  - cbn [ligar]. cbv zeta. destruct (Rgt_b p _); reflexivity.
Qed.

(** A score that exceeds neither the stored personal best nor the global
    best, ties included, leaves the object as it is. *)
Lemma paso_mejores_sin_mejora (s : PSOOptimizer) (i : nat) (p : R) :
  Valido s -> (i < Z.to_nat (n_particulas s))%nat ->
  _evaluar_particula (datos s) (leer (memoria s) (nth i (particulas s) 0%nat))
  = Ok p ->
  p <= nth i (mejores_puntajes_locales s) 0 -> p <= mejor_puntaje_global s ->
  paso_mejores s i = Ok s.
Proof.
  intros V Hi Hp Hl Hg.
  destruct (paso_mejores_forma s i V Hi) as [q [Hq E]].
  rewrite Hp in Hq. injection Hq as <-. rewrite E. cbv zeta.
  replace (Rgt_b p (nth i (mejores_puntajes_locales s) 0)) with false
    by (symmetry; apply Rgt_b_false; exact Hl).
  replace (Rgt_b p (mejor_puntaje_global s)) with false
    by (symmetry; apply Rgt_b_false; exact Hg).
  reflexivity.
Qed.

Lemma objeto_de_una_particula_valido (ds : list Punto) (t : Z)
    (a b c d x y vx vy p : R) :
  cultivos_presentes ds ->
  Valido (objeto_de_una_particula ds t a b c d x y vx vy p).
Proof.
  intros Hd. unfold objeto_de_una_particula.
  constructor; cbn; unfold dimension; cbn; auto; try lia;
    repeat constructor.
Qed.

(** One pass of the loop on the object of one particle: the update of the
    bests finds a tie and changes nothing, and the move writes the new
    position into the one array that is both the particle's position and,
    by address, its personal best. *)
Lemma iteracion_una_particula (ds : list Punto) (t : Z) (g : Generador)
    (a b c d x y vx vy p : R) :
  cultivos_presentes ds -> _evaluar_particula ds [x; y] = Ok p ->
  let s0 := objeto_de_una_particula ds t a b c d x y vx vy p in
  let s1 := mover s0 (flujo g (cursor g)) (flujo g (S (cursor g))) 0 in
  iteracion (s0, g)
  = Ok (con_historial s1 (historial_puntajes s1 ++ [mejor_puntaje_global s1]),
        avanzar 2 g).
Proof.
  intros Hd Hp s0 s1.
  pose proof (objeto_de_una_particula_valido ds t a b c d x y vx vy p Hd) as V.
  fold s0 in V. unfold iteracion.
  assert (E1 : _actualizar_mejores_posiciones s0 = Ok s0).
  { unfold _actualizar_mejores_posiciones.
    change (rango (n_particulas s0)) with [0%nat]. cbn [para_cada].
    rewrite (paso_mejores_sin_mejora s0 0 p V); [reflexivity| | | |].
    - cbn. lia.
    - exact Hp.
    - cbn. lra.
    - cbn. lra. }
  rewrite E1. cbn [ligar]. unfold _actualizar_velocidades_posiciones.
  change (rango (n_particulas s0)) with [0%nat]. cbn [para_cada].
  rewrite (paso_movimiento_forma s0 g 0 V) by (cbn; lia).
  reflexivity.
Qed.

(** Construction leaves [mejores_locales] equal to [particulas], address by
    address ([init_ok]); while particle [i] keeps that address, its move
    rewrites its stored personal best position as well. *)
Lemma mover_arrastra_el_mejor_local (s : PSOOptimizer) (r1 r2 : R) (i : nat) :
  Valido s -> (i < Z.to_nat (n_particulas s))%nat ->
  nth i (mejores_locales s) 0%nat = nth i (particulas s) 0%nat ->
  leer (memoria (mover s r1 r2 i)) (nth i (mejores_locales (mover s r1 r2 i)) 0%nat)
  = nueva_posicion s r1 r2 i.
Proof.
  intros V Hi Halias. destruct (mover_posicion s r1 r2 i V Hi) as [E _].
  unfold mover in *. cbn [mejores_locales particulas con_memoria con_velocidades] in *.
  rewrite Halias. exact E.
Qed.

(** C6, the code at a failing input: four rows on the unit square, one
    sensor, one particle, one iteration, every draw 3/4.  In the only pass of
    the loop the particle's score equals its stored personal best score (a
    tie, so nothing is replaced and the stored score stays), and yet the
    stored personal best position is no longer (3/4, 3/4) after the pass but
    the moved position: [mejores_locales] holds the very array of the
    particle.  The global best, a true copy, stays where it was. *)
Theorem C6_mejor_local_cambia_en_un_empate :
  exists p s0 g0 sensores s1 g1,
    init datos_cuadrado 1 1 1 gen_tres_cuartos = Ok (s0, g0)
    /\ optimizar s0 g0 = Ok ((sensores, p), s1, g1)
    /\ _evaluar_particula datos_cuadrado
         (leer (memoria s0) (nth 0 (particulas s0) 0%nat)) = Ok p
    /\ mejores_puntajes_locales s0 = [p]
    /\ mejores_puntajes_locales s1 = [p]
    /\ leer (memoria s0) (nth 0 (mejores_locales s0) 0%nat) = [3 / 4; 3 / 4]
    /\ leer (memoria s1) (nth 0 (mejores_locales s1) 0%nat)
       = [15007 / 20000; 15007 / 20000]
    /\ mejor_global s1 = [3 / 4; 3 / 4].
Proof.
  destruct limites_cuadrado as [Elat Elon].
  destruct (init_una_particula datos_cuadrado 1 gen_tres_cuartos 0 1 0 1
              cultivos_presentes_cuadrado Elat Elon) as [p [Hp E0]].
  cbn [gen_tres_cuartos flujo cursor] in Hp, E0.
  pose proof (iteracion_una_particula datos_cuadrado 1 (avanzar 4 gen_tres_cuartos)
                0 1 0 1 (0 + (1 - 0) * (3 / 4)) (0 + (1 - 0) * (3 / 4))
                (- (1 / 1000) + (1 / 1000 - - (1 / 1000)) * (3 / 4))
                (- (1 / 1000) + (1 / 1000 - - (1 / 1000)) * (3 / 4))
                p cultivos_presentes_cuadrado Hp) as E1.
  cbv zeta in E1.
  exists p. eexists. eexists. eexists. eexists. eexists.
  split; [exact E0|]. split.
  { unfold optimizar. change (Z.to_nat (max_iter _)) with 1%nat.
    cbn [iterar]. rewrite E1. reflexivity. }
  split; [exact Hp|]. split; [reflexivity|]. split; [reflexivity|].
  split; [cbn; f_equal; [lra|f_equal; lra]|].
  split; [|cbn; f_equal; [lra|f_equal; lra]].
  cbn [mejor_global mejor_puntaje_global historial_puntajes memoria
       mejores_locales con_historial mover con_memoria con_velocidades
       objeto_de_una_particula particulas nth escribir leer].
  unfold nueva_posicion, nueva_velocidad.
  cbn [memoria particulas mejores_locales velocidades mejor_global
       objeto_de_una_particula nth leer escalar map map2 recortar
       lat_min lat_max lon_min lon_max w c1 c2 vel_max avanzar
       gen_tres_cuartos flujo cursor].
  unfold PSO_CONFIG.inercia, PSO_CONFIG.cognitivo, PSO_CONFIG.social,
    PSO_CONFIG.velocidad_maxima, clip, Rmin, Rmax.
  f_equal; [|f_equal]; repeat destruct (Rle_dec _ _); lra.
Qed.

(* ================================================================== *)
(** * Further properties of the scoring engine *)

(** ** Nearest sensor *)

Lemma fold_right_Rmin_le (d : R) (ds : list R) :
  fold_right Rmin d ds <= d
  /\ forall x, In x ds -> fold_right Rmin d ds <= x.
Proof.
  induction ds as [|y ds [IH1 IH2]]; cbn [fold_right].
  - split; [lra|intros x []].
  - split.
    + apply Rle_trans with (fold_right Rmin d ds); [apply Rmin_r|exact IH1].
    + intros x [<-|Hx]; [apply Rmin_l|].
      apply Rle_trans with (fold_right Rmin d ds); [apply Rmin_r|auto].
Qed.

Lemma fold_right_Rmin_In (d : R) (ds : list R) :
  In (fold_right Rmin d ds) (d :: ds).
Proof.
  induction ds as [|y ds IH]; cbn [fold_right]; [left; reflexivity|].
  unfold Rmin at 1. destruct (Rle_dec y (fold_right Rmin d ds)).
  - right. left. reflexivity.
  - destruct IH as [H|H]; [left; exact H|right; right; exact H].
Qed.

(** [dist_min] is the least of the distances to the sensors. *)
Lemma dist_min_le (p : Punto) (sensores : list (R * R)) (c : R * R) :
  In c sensores -> dist_min p sensores <= distancia (lugar p) c.
Proof.
  intros Hin. unfold dist_min.
  destruct sensores as [|c0 cs]; [contradiction|]. cbn [map].
  destruct (fold_right_Rmin_le (distancia (lugar p) c0)
              (map (distancia (lugar p)) cs)) as [H1 H2].
  destruct Hin as [<-|Hin]; [exact H1|]. apply H2. apply in_map. exact Hin.
Qed.

Lemma dist_min_alcanzada (p : Punto) (sensores : list (R * R)) :
  sensores <> [] ->
  exists c, In c sensores /\ dist_min p sensores = distancia (lugar p) c.
Proof.
  destruct sensores as [|c0 cs]; [contradiction|]. intros _.
  unfold dist_min. cbn [map].
  pose proof (fold_right_Rmin_In (distancia (lugar p) c0)
                (map (distancia (lugar p)) cs)) as H.
  change (distancia (lugar p) c0 :: map (distancia (lugar p)) cs)
    with (map (distancia (lugar p)) (c0 :: cs)) in H.
  apply in_map_iff in H. destruct H as [c [E Hc]]. exists c. auto.
Qed.

Lemma credito_cobertura_decrece (d1 d2 : R) :
  d1 <= d2 -> credito_cobertura d2 <= credito_cobertura d1.
Proof.
  intros H. unfold credito_cobertura, CONFIG.radio_cobertura.
  destruct (Rle_b d1 (12 / 1000)) eqn:E1, (Rle_b d2 (12 / 1000)) eqn:E2.
  - lra.
  - apply Rle_b_false in E2. apply Rmax_lub; [lra|].
    assert (0 <= (d2 - 12 / 1000) / (2 * (12 / 1000))).
    { apply Rmult_le_pos; [lra|]. apply Rlt_le, Rinv_0_lt_compat. lra. }
    lra.
  - apply Rle_b_true in E2. apply Rle_b_false in E1. lra.
  - apply Rle_max_compat_l.
    assert ((d1 - 12 / 1000) / (2 * (12 / 1000))
            <= (d2 - 12 / 1000) / (2 * (12 / 1000))).
    { apply Rmult_le_compat_r; [|lra]. apply Rlt_le, Rinv_0_lt_compat. lra. }
    lra.
Qed.

Lemma suma_monotona {A} (f g : A -> R) (l : list A) :
  (forall x, In x l -> f x <= g x) -> suma (map f l) <= suma (map g l).
Proof.
  unfold suma. induction l as [|x l IH]; intros H; cbn [map fold_right]; [lra|].
  assert (f x <= g x) by (apply H; left; reflexivity).
  assert (fold_right Rplus 0 (map f l) <= fold_right Rplus 0 (map g l)).
  { apply IH. intros y Hy. apply H. right. exact Hy. }
  lra.
Qed.

Lemma suma_constante {A} (f : A -> R) (k : R) (l : list A) :
  (forall x, In x l -> f x = k) -> suma (map f l) = INR (length l) * k.
Proof.
  unfold suma. induction l as [|x l IH]; intros H.
  - simpl. ring.
  - cbn [map fold_right]. rewrite IH by (intros y Hy; apply H; right; exact Hy).
    rewrite (H x) by (left; reflexivity).
    change (length (x :: l)) with (S (length l)). rewrite S_INR. ring.
Qed.

(** ** Coverage *)

Lemma suma_maxima {A} (f : A -> R) (l : list A) :
  (forall x, In x l -> f x <= 1) -> suma (map f l) = INR (length l) ->
  forall x, In x l -> f x = 1.
Proof.
  unfold suma. induction l as [|y l IH]; intros Hle Hs x Hx; [contradiction|].
  cbn [map fold_right] in Hs.
  change (length (y :: l)) with (S (length l)) in Hs. rewrite S_INR in Hs.
  assert (Hy : f y <= 1) by (apply Hle; left; reflexivity).
  assert (Hl : fold_right Rplus 0 (map f l) <= INR (length l)).
  { pose proof (suma_monotona f (fun _ => 1) l) as M. unfold suma in M.
    specialize (M ltac:(intros z Hz; apply Hle; right; exact Hz)).
    pose proof (suma_constante (fun _ : A => 1) 1 l ltac:(reflexivity)) as K.
    unfold suma in K. lra. }
  destruct Hx as [<-|Hx]; [lra|].
  apply IH; [intros z Hz; apply Hle; right; exact Hz|lra|exact Hx].
Qed.

Lemma credito_cobertura_uno (d : R) :
  credito_cobertura d = 1 <-> d <= CONFIG.radio_cobertura.
Proof.
  unfold credito_cobertura, CONFIG.radio_cobertura.
  destruct (Rle_b d (12 / 1000)) eqn:E.
  - apply Rle_b_true in E. split; auto.
  - apply Rle_b_false in E. split; [|lra]. intros H. exfalso.
    assert (0 < (d - 12 / 1000) / (2 * (12 / 1000))).
    { apply Rmult_lt_0_compat; [lra|]. apply Rinv_0_lt_compat. lra. }
    unfold Rmax in H. destruct (Rle_dec _ _); lra.
Qed.

(** The coverage sub-score is 1 exactly when every sample point has a sensor
    within the coverage radius, and it is 0 when every sample point is at
    least three radii away from every sensor. *)
Theorem cobertura_completa_y_nula (sensores : list (R * R)) (datos : list Punto) :
  sensores <> [] -> datos <> [] ->
  (calcular_cobertura_variabilidad (map sensor_de sensores) datos = Ok 1
   <-> forall p, In p datos ->
         exists c, In c sensores
                   /\ distancia (lugar p) c <= CONFIG.radio_cobertura)
  /\ ((forall p c, In p datos -> In c sensores ->
         3 * CONFIG.radio_cobertura <= distancia (lugar p) c) ->
      calcular_cobertura_variabilidad (map sensor_de sensores) datos = Ok 0).
Proof.
  intros Hs Hd. rewrite (cobertura_es_media sensores datos Hs Hd).
  assert (Hn : 0 < INR (length datos)).
  { apply lt_0_INR. destruct datos; [contradiction|simpl; lia]. }
  unfold media. rewrite length_map. split; [split|].
  - intros H. injection H as H.
    assert (E : suma (map (fun p => credito_cobertura (dist_min p sensores)) datos)
                = INR (length datos)).
    { apply Rmult_eq_reg_r with (/ INR (length datos)).
      - unfold Rdiv in H. rewrite H. field. lra.
      - apply Rinv_neq_0_compat. lra. }
    intros p Hp.
    pose proof (suma_maxima _ datos
                  ltac:(intros z _; apply credito_cobertura_rango) E p Hp) as H1.
    apply credito_cobertura_uno in H1.
    destruct (dist_min_alcanzada p sensores Hs) as [c [Hc Ec]].
    exists c. split; [exact Hc|]. rewrite <- Ec. exact H1.
  - intros H. f_equal.
    rewrite (suma_constante _ 1).
    + field. lra.
    + intros p Hp. apply credito_cobertura_uno.
      destruct (H p Hp) as [c [Hc Hle]].
      apply Rle_trans with (distancia (lugar p) c); [apply dist_min_le; exact Hc|exact Hle].
  - intros H. f_equal. rewrite (suma_constante _ 0).
    + field. lra.
    + intros p Hp. rewrite credito_cobertura_lineal.
      destruct (dist_min_alcanzada p sensores Hs) as [c [Hc Ec]].
      specialize (H p c Hp Hc). rewrite Ec.
      unfold credito_lineal, CONFIG.radio_cobertura in *.
      replace (Rle_b (distancia (lugar p) c) (12 / 1000)) with false
        by (symmetry; apply Rle_b_false; lra).
      destruct (Rle_b (distancia (lugar p) c) (3 * (12 / 1000))) eqn:E;
        [|reflexivity].
      apply Rle_b_true in E.
      replace (distancia (lugar p) c) with (3 * (12 / 1000)) by lra. field.
Qed.

Lemma cobertura_completa_y_nula_testigo :
  (calcular_cobertura_variabilidad (map sensor_de [(0, 0)]) datos_solo_maiz = Ok 1
   <-> forall p, In p datos_solo_maiz ->
         exists c, In c [(0, 0)]
                   /\ distancia (lugar p) c <= CONFIG.radio_cobertura)
  /\ ((forall p c, In p datos_solo_maiz -> In c [(0, 0)] ->
         3 * CONFIG.radio_cobertura <= distancia (lugar p) c) ->
      calcular_cobertura_variabilidad (map sensor_de [(0, 0)]) datos_solo_maiz = Ok 0).
Proof.
  apply (cobertura_completa_y_nula [(0, 0)] datos_solo_maiz); discriminate.
Defined.

(** Adding a sensor never lowers the coverage sub-score. *)
Theorem cobertura_crece_con_sensores (c : R * R) (sensores : list (R * R))
    (datos : list Punto) :
  sensores <> [] -> datos <> [] ->
  exists r1 r2,
    calcular_cobertura_variabilidad (map sensor_de sensores) datos = Ok r1
    /\ calcular_cobertura_variabilidad (map sensor_de (c :: sensores)) datos = Ok r2
    /\ r1 <= r2.
Proof.
  intros Hs Hd.
  rewrite (cobertura_es_media sensores datos Hs Hd).
  rewrite (cobertura_es_media (c :: sensores) datos ltac:(discriminate) Hd).
  eexists. eexists. split; [reflexivity|]. split; [reflexivity|].
  unfold media. rewrite !length_map.
  apply Rmult_le_compat_r.
  - apply Rlt_le, Rinv_0_lt_compat, lt_0_INR.
    destruct datos; [contradiction|simpl; lia].
  - apply suma_monotona. intros p _. apply credito_cobertura_decrece.
    destruct (dist_min_alcanzada p sensores Hs) as [c' [Hc' E]].
    rewrite E. apply dist_min_le. right. exact Hc'.
Qed.

Lemma cobertura_crece_con_sensores_testigo :
  exists r1 r2,
    calcular_cobertura_variabilidad (map sensor_de [(0, 0)]) datos_cuadrado = Ok r1
    /\ calcular_cobertura_variabilidad (map sensor_de [(1, 1); (0, 0)]) datos_cuadrado
       = Ok r2
    /\ r1 <= r2.
Proof.
  apply (cobertura_crece_con_sensores (1, 1) [(0, 0)] datos_cuadrado); discriminate.
Defined.

(** The errors of the coverage sub-score: [ZeroDivisionError] on an empty
    dataset when the sensors are readable, [ValueError] (the [min] of no
    distance) without sensors on a non-empty dataset, and [IndexError] on a
    non-empty dataset when some sensor lacks a coordinate. *)
Theorem cobertura_errores (sensores : list Sensor) (datos : list Punto) :
  (datos = [] ->
   calcular_cobertura_variabilidad sensores datos = Error ZeroDivisionError)
  /\ (datos <> [] -> sensores = [] ->
      calcular_cobertura_variabilidad sensores datos = Error ValueError)
  /\ (datos <> [] -> Exists (fun s => (length s < 2)%nat) sensores ->
      calcular_cobertura_variabilidad sensores datos = Error IndexError).
Proof.
  split; [|split].
  - intros ->. reflexivity.
  - intros Hd ->. destruct datos as [|p ds]; [contradiction|]. reflexivity.
  - intros Hd Hex. destruct datos as [|p ds]; [contradiction|].
    unfold calcular_cobertura_variabilidad. cbn [cobertura_bucle].
    assert (E : mapear (calcular_distancia (coords p)) sensores = Error IndexError).
    { clear Hd. induction Hex as [s ss Hs|s ss _ IH].
      - cbn [mapear]. destruct s as [|a [|b s]]; try reflexivity.
        simpl in Hs. lia.
      - cbn [mapear]. destruct s as [|a [|b s]]; try reflexivity.
        unfold coords at 1. rewrite calcular_distancia_par. cbn [ligar].
        rewrite IH. reflexivity. }
    rewrite E. reflexivity.
Qed.

Lemma cobertura_errores_testigo :
  calcular_cobertura_variabilidad [[0; 0]] [] = Error ZeroDivisionError
  /\ calcular_cobertura_variabilidad [] datos_cuadrado = Error ValueError
  /\ calcular_cobertura_variabilidad [[0; 0]; [1]] datos_cuadrado = Error IndexError.
Proof.
  split; [|split].
  - apply (proj1 (cobertura_errores [[0; 0]] [])). reflexivity.
  - apply (proj1 (proj2 (cobertura_errores [] datos_cuadrado)));
      [discriminate|reflexivity].
  - apply (proj2 (proj2 (cobertura_errores [[0; 0]; [1]] datos_cuadrado)));
      [discriminate|].
    right. left. simpl. lia.
Defined.

(** ** Critical zones *)

Lemma Ok_inyectivo {A} (a b : A) : Ok a = Ok b -> a = b.
Proof. intros H. injection H as H. exact H. Qed.

Lemma calcular_distancia_sensor_de (p : Punto) (c : R * R) :
  calcular_distancia (coords p) (sensor_de c) = Ok (distancia (lugar p) c).
Proof. reflexivity. Qed.

Lemma cubierto_cerca (p : Punto) (radio : R) (sensores : list (R * R)) :
  cubierto (coords p) radio (map sensor_de sensores) = Ok (cerca radio sensores p).
Proof.
  induction sensores as [|c cs IH]; [reflexivity|].
  cbn [map cubierto]. rewrite calcular_distancia_sensor_de. cbn [ligar].
  unfold cerca. cbn [existsb].
  destruct (Rle_b (distancia (lugar p) c) radio); [reflexivity|exact IH].
Qed.

Lemma contar_cubiertos_filtro (sensores : list (R * R)) (radio : R)
    (filas : list Punto) :
  forall cuenta,
    contar_cubiertos (map sensor_de sensores) radio filas cuenta
    = Ok (cuenta + length (filter (cerca radio sensores) filas))%nat.
Proof.
  induction filas as [|p resto IH]; intros cuenta.
  - simpl. f_equal. lia.
  - cbn [contar_cubiertos filter]. rewrite cubierto_cerca. cbn [ligar].
    rewrite IH. destruct (cerca radio sensores p); f_equal; simpl; lia.
Qed.

Lemma filtro_completo {A} (f : A -> bool) (l : list A) :
  length (filter f l) = length l <-> forall x, In x l -> f x = true.
Proof.
  induction l as [|y l IH]; [simpl; split; [intros _ x []|reflexivity]|].
  cbn [filter]. pose proof (filter_length_le f l) as Hle.
  destruct (f y) eqn:E.
  - cbn [length]. split.
    + intros H x [<-|Hx]; [exact E|]. apply IH; [lia|exact Hx].
    + intros H. f_equal. apply IH. intros x Hx. apply H. right. exact Hx.
  - cbn [length]. split; [lia|].
    intros H. specialize (H y (or_introl eq_refl)). congruence.
Qed.

Lemma criticas_salinos :
  filter es_critica datos_salinos
  = [punto_salino 0 0 Maiz 3; punto_salino 1 0 Chile 4].
Proof.
  assert (H : forall la lo c sal,
            es_critica (punto_salino la lo c sal) = Rgt_b sal (25 / 10)).
  { intros. unfold es_critica, punto_salino, Rgt_b, Rlt_b.
    cbn [Salinidad Humedad].
    destruct (Rlt_dec 20 15); [lra|]. destruct (Rlt_dec 40 20); [lra|].
    destruct (Rlt_dec (25 / 10) sal); reflexivity. }
  unfold datos_salinos. cbn [filter]. rewrite !H. unfold Rgt_b, Rlt_b.
  destruct (Rlt_dec (25 / 10) 3); [|lra].
  destruct (Rlt_dec (25 / 10) 1); [lra|].
  destruct (Rlt_dec (25 / 10) 4); [|lra].
  reflexivity.
Qed.

(** The critical-zone sub-score is the fraction of the critical rows that
    have a sensor within 1/100 (1 when no row is critical); it is 1 exactly
    when every critical row has such a sensor, and 0 when there are critical
    rows and no sensor. *)
Theorem zonas_criticas_fraccion (sensores : list (R * R)) (datos : list Punto) :
  cubrir_zonas_problematicas (map sensor_de sensores) datos
  = Ok (match filter es_critica datos with
        | [] => 1
        | z :: zs => INR (length (filter (cerca (1 / 100) sensores) (z :: zs)))
                     / INR (length (z :: zs))
        end)
  /\ (cubrir_zonas_problematicas (map sensor_de sensores) datos = Ok 1
      <-> forall p, In p datos -> es_critica p = true ->
                    cerca (1 / 100) sensores p = true)
  /\ (filter es_critica datos <> [] ->
      cubrir_zonas_problematicas [] datos = Ok 0).
Proof.
  assert (E : cubrir_zonas_problematicas (map sensor_de sensores) datos
    = Ok (match filter es_critica datos with
          | [] => 1
          | z :: zs => INR (length (filter (cerca (1 / 100) sensores) (z :: zs)))
                       / INR (length (z :: zs))
          end)).
  { unfold cubrir_zonas_problematicas.
    destruct (filter es_critica datos) as [|z zs]; [reflexivity|].
    rewrite contar_cubiertos_filtro. reflexivity. }
  split; [exact E|]. split.
  - rewrite E.
    assert (Hf : (forall p, In p datos -> es_critica p = true ->
                    cerca (1 / 100) sensores p = true)
                 <-> forall p, In p (filter es_critica datos) ->
                       cerca (1 / 100) sensores p = true).
    { split.
      - intros H p Hp. apply filter_In in Hp. apply H; apply Hp.
      - intros H p Hp Hc. apply H. apply filter_In. auto. }
    rewrite Hf. destruct (filter es_critica datos) as [|z zs].
    + split; [intros _ p []|reflexivity].
    + rewrite <- filtro_completo.
      assert (Hn : 0 < INR (length (z :: zs))) by (apply lt_0_INR; simpl; lia).
      split.
      * intros H. apply Ok_inyectivo in H. apply INR_eq.
        apply Rmult_eq_reg_r with (/ INR (length (z :: zs)));
          [|apply Rinv_neq_0_compat; lra].
        etransitivity; [exact H|]. field. lra.
      * intros ->. f_equal. field. lra.
  - intros Hne. unfold cubrir_zonas_problematicas.
    destruct (filter es_critica datos) as [|z zs] eqn:F; [contradiction|].
    pose proof (contar_cubiertos_filtro [] (1 / 100) (z :: zs) 0) as K.
    cbn [map] in K. rewrite K. clear K.
    replace (filter (cerca (1 / 100) []) (z :: zs)) with (@nil Punto).
    + cbn [Nat.add length INR ligar]. f_equal. unfold Rdiv. ring.
    + symmetry. clear. induction (z :: zs) as [|q l IH]; [reflexivity|].
      cbn [filter cerca existsb]. exact IH.
Qed.

Lemma zonas_criticas_fraccion_testigo :
  filter es_critica datos_salinos <> []
  /\ cubrir_zonas_problematicas [] datos_salinos = Ok 0.
Proof.
  assert (H : filter es_critica datos_salinos <> [])
    by (rewrite criticas_salinos; discriminate).
  split; [exact H|].
  apply (proj2 (proj2 (zonas_criticas_fraccion [] datos_salinos))). exact H.
Defined.

(** ** Crop balance *)

Lemma termino_balance_rango (radio : R) (sensores : list (R * R))
    (datos : list Punto) (c : Cultivo) :
  termino_balance radio sensores datos c <= 1.
Proof.
  unfold termino_balance.
  pose proof (Rabs_pos (INR (length (filas_de c datos)) / INR (length datos)
            - INR (length (filter (cerca radio sensores) (filas_de c datos)))
              / INR (length (filas_de c datos)))).
  lra.
Qed.

Lemma filas_por_cultivo (datos : list Punto) :
  (forall p, In p datos -> cultivo_conocido p) ->
  length datos
  = (length (filas_de Maiz datos) + length (filas_de Tomate datos)
     + length (filas_de Chile datos))%nat.
Proof.
  unfold filas_de. induction datos as [|p ds IH]; intros H; [reflexivity|].
  assert (Hp : cultivo_conocido p) by (apply H; left; reflexivity).
  specialize (IH ltac:(intros q Hq; apply H; right; exact Hq)).
  cbn [filter length]. unfold cultivo_conocido, claves_cultivo in Hp.
  destruct Hp as [E|[E|[E|[]]]]; rewrite <- E; cbn [Cultivo_eqb length]; lia.
Qed.

Lemma termino_balance_cubierto (sensores : list (R * R)) (datos : list Punto)
    (c : Cultivo) :
  filas_de c datos <> [] ->
  (forall p, In p datos -> cerca CONFIG.radio_influencia sensores p = true) ->
  termino_balance CONFIG.radio_influencia sensores datos c
  = INR (length (filas_de c datos)) / INR (length datos).
Proof.
  intros Hne Hc. unfold termino_balance.
  assert (E : length (filter (cerca CONFIG.radio_influencia sensores)
                        (filas_de c datos)) = length (filas_de c datos)).
  { apply filtro_completo. intros p Hp. apply Hc.
    unfold filas_de in Hp. apply filter_In in Hp. apply Hp. }
  rewrite E.
  assert (Ht : 0 < INR (length (filas_de c datos))).
  { apply lt_0_INR. destruct (filas_de c datos); [contradiction|simpl; lia]. }
  assert (Hle : INR (length (filas_de c datos)) / INR (length datos) <= 1).
  { apply cociente_rango.
    - pose proof (filas_de_longitud c datos).
      destruct (filas_de c datos); [contradiction|simpl in *; lia].
    - split; [apply pos_INR|apply le_INR, filas_de_longitud]. }
  replace (INR (length (filas_de c datos)) / INR (length (filas_de c datos)))
    with 1 by (field; lra).
  rewrite Rabs_left1 by lra. ring.
Qed.

(** With the three crops in the dataset, the balance sub-score is the mean
    over the three crops of one minus the gap between the crop's share of the
    rows and the fraction of its rows that have a sensor within the
    influence radius.  So when every row is of one of the three crops and
    has a sensor within the influence radius (every crop fully covered), the
    balance sub-score is 1/3, not 1: each crop's term compares its share of
    the rows with a covered fraction of 1. *)
Theorem balance_formula (sensores : list (R * R)) (datos : list Punto) :
  cultivos_presentes datos ->
  balance_entre_cultivos (map sensor_de sensores) datos
  = Ok ((termino_balance CONFIG.radio_influencia sensores datos Maiz
         + termino_balance CONFIG.radio_influencia sensores datos Tomate
         + termino_balance CONFIG.radio_influencia sensores datos Chile) / 3)
  /\ ((forall p, In p datos -> cultivo_conocido p) ->
      (forall p, In p datos -> cerca CONFIG.radio_influencia sensores p = true) ->
      balance_entre_cultivos (map sensor_de sensores) datos = Ok (1 / 3)).
Proof.
  intros Hp.
  assert (Ef : balance_entre_cultivos (map sensor_de sensores) datos
    = Ok ((termino_balance CONFIG.radio_influencia sensores datos Maiz
           + termino_balance CONFIG.radio_influencia sensores datos Tomate
           + termino_balance CONFIG.radio_influencia sensores datos Chile) / 3)).
  { unfold balance_entre_cultivos, claves_cultivo.
    cbn [mapear]. rewrite !contar_cubiertos_filtro. cbn [ligar Nat.add].
    cbn [balance_bucle].
    rewrite !conteo_total_presente by (apply Hp; simpl; auto).
    cbn [ligar length INR].
    fold (termino_balance CONFIG.radio_influencia sensores datos Maiz).
    fold (termino_balance CONFIG.radio_influencia sensores datos Tomate).
    fold (termino_balance CONFIG.radio_influencia sensores datos Chile).
    rewrite !Rmin_left by apply termino_balance_rango.
    f_equal. field. }
  split; [exact Ef|].
  intros Hk Hc. rewrite Ef.
  rewrite !termino_balance_cubierto by (try apply Hp; simpl; auto).
  pose proof (filas_por_cultivo datos Hk) as E.
  assert (Hn : 0 < INR (length datos)).
  { apply lt_0_INR. pose proof (cultivos_presentes_no_vacio datos Hp).
    destruct datos; [contradiction|simpl; lia]. }
  f_equal.
  replace (INR (length (filas_de Maiz datos)) / INR (length datos)
           + INR (length (filas_de Tomate datos)) / INR (length datos)
           + INR (length (filas_de Chile datos)) / INR (length datos))
    with (INR (length datos) / INR (length datos)).
  - field. lra.
  - rewrite E at 1. rewrite !plus_INR. field. lra.
Qed.

Lemma balance_formula_testigo :
  balance_entre_cultivos (map sensor_de [(0, 0)]) datos_un_lugar
  = Ok ((termino_balance CONFIG.radio_influencia [(0, 0)] datos_un_lugar Maiz
         + termino_balance CONFIG.radio_influencia [(0, 0)] datos_un_lugar Tomate
         + termino_balance CONFIG.radio_influencia [(0, 0)] datos_un_lugar Chile)
        / 3)
  /\ balance_entre_cultivos (map sensor_de [(0, 0)]) datos_un_lugar = Ok (1 / 3).
Proof.
  assert (H0 : forall p, In p datos_un_lugar ->
                 cerca CONFIG.radio_influencia [(0, 0)] p = true).
  { intros p Hp. unfold cerca. cbn [existsb]. apply orb_true_iff. left.
    apply Rle_b_true.
    assert (E : lugar p = (0, 0)).
    { unfold datos_un_lugar in Hp. destruct Hp as [<-|[<-|[<-|[]]]]; reflexivity. }
    rewrite E, distancia_horizontal, Rminus_diag, Rabs_R0.
    unfold CONFIG.radio_influencia. lra. }
  assert (H1 : cultivos_presentes datos_un_lugar).
  { intros c [<-|[<-|[<-|[]]]]; discriminate. }
  assert (H2 : forall p, In p datos_un_lugar -> cultivo_conocido p).
  { intros p [<-|[<-|[<-|[]]]]; unfold cultivo_conocido; simpl; auto. }
  split.
  - apply (proj1 (balance_formula [(0, 0)] datos_un_lugar H1)).
  - apply (proj2 (balance_formula [(0, 0)] datos_un_lugar H1) H2 H0).
Defined.

(** ** Distribution *)

Lemma mapear_distancias_entre_sensores (s : R * R) (resto : list (R * R)) :
  mapear (calcular_distancia (sensor_de s)) (map sensor_de resto)
  = Ok (map (distancia s) resto).
Proof.
  induction resto as [|c cs IH]; [reflexivity|].
  cbn [map mapear]. rewrite IH. reflexivity.
Qed.

Lemma distancias_pares_parejas (sensores : list (R * R)) :
  distancias_pares (map sensor_de sensores)
  = Ok (map (fun ab => distancia (fst ab) (snd ab)) (parejas sensores)).
Proof.
  induction sensores as [|s resto IH]; [reflexivity|].
  cbn [map distancias_pares parejas].
  rewrite mapear_distancias_entre_sensores. cbn [ligar]. rewrite IH. cbn [ligar].
  rewrite map_app, map_map. reflexivity.
Qed.

Lemma parejas_longitud {A} (l : list A) :
  (2 * length (parejas l) = length l * (length l - 1))%nat.
Proof.
  induction l as [|x l IH]; [reflexivity|].
  cbn [parejas]. rewrite length_app, length_map. cbn [length].
  replace (S (length l) - 1)%nat with (length l) by lia.
  destruct (length l) as [|n] eqn:E; [simpl in *; lia|].
  replace (S n - 1)%nat with n in IH by lia. nia.
Qed.

Lemma suma_fold_left (f : R -> R) (l : list R) :
  forall acc, fold_left (fun a d => a + f d) l acc = acc + suma (map f l).
Proof.
  unfold suma. induction l as [|d l IH]; intros acc; cbn [fold_left map fold_right].
  - ring.
  - rewrite IH. ring.
Qed.

Lemma credito_dispersion_banda (d : R) :
  CONFIG.distancia_ideal * (7 / 10) <= d <= CONFIG.distancia_ideal * (13 / 10) ->
  credito_dispersion d = 1.
Proof.
  intros [H1 H2]. unfold credito_dispersion, Rge_b.
  replace (Rle_b (CONFIG.distancia_ideal * (7 / 10)) d) with true
    by (symmetry; apply Rle_b_true; exact H1).
  replace (Rle_b d (CONFIG.distancia_ideal * (13 / 10))) with true
    by (symmetry; apply Rle_b_true; exact H2).
  reflexivity.
Qed.

(** With at least two sensors, the distribution sub-score is the mean, over
    the n(n-1)/2 unordered pairs of sensors, of the spacing credit of the
    pair's distance; it is 1 when every pair is within 30% of the ideal
    distance. *)
Theorem distribucion_media_de_parejas (sensores : list (R * R)) :
  (2 <= length sensores)%nat ->
  optimizar_distancias (map sensor_de sensores)
  = Ok (media (map (fun ab => credito_dispersion (distancia (fst ab) (snd ab)))
                   (parejas sensores)))
  /\ (2 * length (parejas sensores)
      = length sensores * (length sensores - 1))%nat
  /\ ((forall ab, In ab (parejas sensores) ->
         CONFIG.distancia_ideal * (7 / 10) <= distancia (fst ab) (snd ab)
         <= CONFIG.distancia_ideal * (13 / 10)) ->
      optimizar_distancias (map sensor_de sensores) = Ok 1).
Proof.
  intros Hn.
  pose proof (parejas_longitud sensores) as Hl.
  assert (Hpos : (0 < length (parejas sensores))%nat) by nia.
  assert (E : optimizar_distancias (map sensor_de sensores)
    = Ok (media (map (fun ab => credito_dispersion (distancia (fst ab) (snd ab)))
                     (parejas sensores)))).
  { unfold optimizar_distancias. rewrite length_map.
    replace (length sensores <=? 1)%nat with false
      by (symmetry; apply Nat.leb_gt; lia).
    rewrite distancias_pares_parejas. cbn [ligar].
    rewrite suma_fold_left, length_map, map_map.
    unfold dividir, media. rewrite length_map.
    destruct (length (parejas sensores)) as [|k] eqn:Ek; [lia|].
    rewrite Rplus_0_l. reflexivity. }
  split; [exact E|]. split; [exact Hl|].
  intros Hb. rewrite E. f_equal. unfold media.
  rewrite (suma_constante _ 1), length_map.
  - field. apply not_0_INR. lia.
  - intros ab Hab. apply credito_dispersion_banda. apply Hb. exact Hab.
Qed.

Lemma distribucion_media_de_parejas_testigo :
  optimizar_distancias (map sensor_de [(0, 0); (25 / 1000, 0)])
  = Ok (media (map (fun ab => credito_dispersion (distancia (fst ab) (snd ab)))
                   (parejas [(0, 0); (25 / 1000, 0)])))
  /\ (2 * length (parejas [(0, 0); (25 / 1000, 0)])
      = length [(0, 0); (25 / 1000, 0)] * (length [(0, 0); (25 / 1000, 0)] - 1))%nat
  /\ ((forall ab, In ab (parejas [(0, 0); (25 / 1000, 0)]) ->
         CONFIG.distancia_ideal * (7 / 10) <= distancia (fst ab) (snd ab)
         <= CONFIG.distancia_ideal * (13 / 10)) ->
      optimizar_distancias (map sensor_de [(0, 0); (25 / 1000, 0)]) = Ok 1).
Proof.
  apply (distribucion_media_de_parejas [(0, 0); (25 / 1000, 0)]). simpl. lia.
Defined.

(* ================================================================== *)
(** * Further properties of the optimizer *)

(** ** Invariants of a run, in general *)

Section InvarianteDeCorrida.

Variable P : PSOOptimizer -> Prop.

Hypothesis P_mejores :
  forall s i s', Valido s -> P s -> (i < Z.to_nat (n_particulas s))%nat ->
                 paso_mejores s i = Ok s' -> P s'.

Hypothesis P_mover :
  forall s r1 r2 i, Valido s -> P s -> (i < Z.to_nat (n_particulas s))%nat ->
                    P (mover s r1 r2 i).

Hypothesis P_registro :
  forall s, P s ->
    P (con_historial s (historial_puntajes s ++ [mejor_puntaje_global s])).

Lemma mejores_invariante (s : PSOOptimizer) :
  Valido s -> P s ->
  exists s', _actualizar_mejores_posiciones s = Ok s' /\ paso_bien s s' /\ P s'.
Proof.
  intros V HP. unfold _actualizar_mejores_posiciones.
  apply (para_cada_invariante paso_mejores
           (fun s' => paso_bien s s' /\ P s')
           (fun i => (i < Z.to_nat (n_particulas s))%nat)).
  - intros s1 i [B1 P1] Hi.
    assert (Hi1 : (i < Z.to_nat (n_particulas s1))%nat).
    { destruct B1 as [_ [Par _]].
      rewrite (n_particulas_parametros _ _ Par). exact Hi. }
    destruct (paso_mejores_bien s1 i (proj1 B1) Hi1) as [s2 [E2 [B2 _]]].
    exists s2. split; [exact E2|]. split.
    + eapply paso_bien_trans; eassumption.
    + apply (P_mejores s1 i s2 (proj1 B1) P1 Hi1 E2).
  - apply rango_menor.
  - split; [apply paso_bien_refl; exact V|exact HP].
Qed.

Lemma movimientos_invariante (s : PSOOptimizer) (g : Generador) :
  Valido s -> P s ->
  exists s' g', _actualizar_velocidades_posiciones s g = Ok (s', g')
                /\ paso_bien s s' /\ P s'.
Proof.
  intros V HP. unfold _actualizar_velocidades_posiciones.
  destruct (para_cada_invariante paso_movimiento
           (fun sg => paso_bien s (fst sg) /\ P (fst sg))
           (fun i => (i < Z.to_nat (n_particulas s))%nat))
    with (indices := rango (n_particulas s)) (s := (s, g))
    as [[s' g'] [E H]].
  - intros [s1 g1] i [B1 P1] Hi. cbn [fst] in *.
    assert (Hi1 : (i < Z.to_nat (n_particulas s1))%nat).
    { destruct B1 as [_ [Par _]].
      rewrite (n_particulas_parametros _ _ Par). exact Hi. }
    rewrite (paso_movimiento_forma s1 g1 i (proj1 B1) Hi1).
    eexists. split; [reflexivity|]. cbn [fst]. split.
    + eapply paso_bien_trans; [exact B1|]. apply mover_bien; [apply B1|exact Hi1].
    + apply P_mover; [apply B1|exact P1|exact Hi1].
  - apply rango_menor.
  - cbn [fst]. split; [apply paso_bien_refl; exact V|exact HP].
  - exists s', g'. split; [exact E|exact H].
Qed.

Lemma iteracion_invariante (s : PSOOptimizer) (g : Generador) :
  Valido s -> P s ->
  exists s' g', iteracion (s, g) = Ok (s', g') /\ Valido s' /\ P s'.
Proof.
  intros V HP. unfold iteracion.
  destruct (mejores_invariante s V HP) as [s1 [E1 [B1 P1]]].
  rewrite E1. cbn [ligar].
  destruct (movimientos_invariante s1 g (proj1 B1) P1) as [s2 [g2 [E2 [B2 P2]]]].
  rewrite E2. cbn [ligar].
  eexists. eexists. split; [reflexivity|]. split.
  - destruct B2 as [V2 _]. destruct V2. constructor; assumption.
  - apply P_registro. exact P2.
Qed.

Lemma iterar_invariante (k : nat) :
  forall s g, Valido s -> P s ->
  exists s' g', iterar k (s, g) = Ok (s', g') /\ Valido s' /\ P s'.
Proof.
  induction k as [|k IH]; intros s g V HP.
  - exists s, g. auto.
  - destruct (iteracion_invariante s g V HP) as [s1 [g1 [E1 [V1 P1]]]].
    destruct (IH s1 g1 V1 P1) as [s2 [g2 [E2 H2]]].
    exists s2, g2. cbn [iterar]. rewrite E1. cbn [ligar]. auto.
Qed.

End InvarianteDeCorrida.

(** ** Construction, step by step *)

Lemma init_inversion (ds : list Punto) (n m t : Z) (g g' : Generador)
    (s : PSOOptimizer) :
  init ds n m t g = Ok (s, g') ->
  exists a b c d arreglos g1 vels puntajes idx,
    par_limites (columna_min (map Latitud ds)) (columna_max (map Latitud ds))
    = Some (a, b)
    /\ par_limites (columna_min (map Longitud ds)) (columna_max (map Longitud ds))
       = Some (c, d)
    /\ _inicializar_particulas (Some (a, b)) (Some (c, d)) n (Z.to_nat m) g
       = Ok (arreglos, g1)
    /\ _inicializar_velocidades n (Z.to_nat m) g1 = Ok (vels, g')
    /\ mapear (_evaluar_particula ds) arreglos = Ok puntajes
    /\ argmax puntajes = Ok idx
    /\ (idx < length arreglos)%nat
    /\ s = mkPSO ds n m t a b c d
                 PSO_CONFIG.inercia PSO_CONFIG.cognitivo PSO_CONFIG.social
                 PSO_CONFIG.velocidad_maxima
                 arreglos (seq 0 (length arreglos)) vels (seq 0 (length arreglos))
                 puntajes (leer arreglos idx) (nth idx puntajes 0) [].
Proof.
  unfold init. intros H.
  destruct (_inicializar_particulas _ _ n (Z.to_nat m) g) as [[arreglos g1]|e] eqn:E1;
    [|discriminate].
  cbn [ligar] in H.
  destruct (_inicializar_velocidades n (Z.to_nat m) g1) as [[vels g2]|e] eqn:E2;
    [|discriminate].
  cbn [ligar] in H.
  destruct (mapear (_evaluar_particula ds) arreglos) as [puntajes|e] eqn:E3;
    [|discriminate].
  cbn [ligar] in H.
  destruct (argmax puntajes) as [idx|e] eqn:E4; [|discriminate].
  cbn [ligar] in H.
  destruct (indice (seq 0 (length arreglos)) idx) as [dir|e] eqn:E5;
    [|discriminate].
  cbn [ligar] in H.
  destruct (indice puntajes idx) as [p|e] eqn:E6; [|discriminate].
  cbn [ligar] in H.
  destruct (par_limites (columna_min (map Latitud ds)) (columna_max (map Latitud ds)))
    as [[a b]|]; [|discriminate].
  destruct (par_limites (columna_min (map Longitud ds)) (columna_max (map Longitud ds)))
    as [[c d]|]; [|discriminate].
  apply Ok_inyectivo in H. injection H as <- <-.
  assert (Hidx : (idx < length arreglos)%nat).
  { unfold indice in E5.
    destruct (nth_error (seq 0 (length arreglos)) idx) eqn:N; [|discriminate].
    assert (nth_error (seq 0 (length arreglos)) idx <> None) by congruence.
    apply nth_error_Some in H. rewrite length_seq in H. exact H. }
  assert (Edir : dir = idx).
  { rewrite (indice_nth _ _ 0%nat) in E5 by (rewrite length_seq; exact Hidx).
    apply Ok_inyectivo in E5. rewrite seq_nth in E5 by exact Hidx. simpl in E5.
    congruence. }
  assert (Ep : p = nth idx puntajes 0).
  { rewrite (indice_nth _ _ 0) in E6.
    - apply Ok_inyectivo in E6. congruence.
    - rewrite (mapear_longitud _ _ _ E3). exact Hidx. }
  subst dir p.
  exists a, b, c, d, arreglos, g1, vels, puntajes, idx.
  repeat (split; [reflexivity || assumption|]). reflexivity.
Qed.

(** ** [np.argmax] *)

Lemma argmax_desde_maximo (l : list R) :
  forall (pre : list R) (mejor_i : nat),
    (mejor_i < length pre)%nat ->
    (forall j, (j < length pre)%nat -> nth j pre 0 <= nth mejor_i pre 0) ->
    (forall j, (j < mejor_i)%nat -> nth j pre 0 < nth mejor_i pre 0) ->
    (argmax_desde l (length pre) mejor_i (nth mejor_i pre 0%R)
     < length (pre ++ l))%nat
    /\ (forall j, (j < length (pre ++ l))%nat ->
          nth j (pre ++ l) 0
          <= nth (argmax_desde l (length pre) mejor_i (nth mejor_i pre 0))
                 (pre ++ l) 0)
    /\ (forall j,
          (j < argmax_desde l (length pre) mejor_i (nth mejor_i pre 0%R))%nat ->
          nth j (pre ++ l) 0
          < nth (argmax_desde l (length pre) mejor_i (nth mejor_i pre 0))
                (pre ++ l) 0).
Proof.
  induction l as [|x l IH]; intros pre mejor_i Hi Hmax Hprim.
  - cbn [argmax_desde]. rewrite app_nil_r. auto.
  - cbn [argmax_desde].
    assert (Eapp : (pre ++ [x]) ++ l = pre ++ x :: l)
      by (rewrite <- app_assoc; reflexivity).
    assert (Elen : length (pre ++ [x]) = S (length pre))
      by (rewrite length_app; simpl; lia).
    assert (Ex : nth (length pre) (pre ++ [x]) 0 = x).
    { rewrite app_nth2 by lia. rewrite Nat.sub_diag. reflexivity. }
    destruct (Rgt_b x (nth mejor_i pre 0)) eqn:G.
    + apply Rgt_b_true in G.
      pose proof (IH (pre ++ [x]) (length pre)) as K.
      rewrite Ex, Elen, Eapp in K. apply K.
      * lia.
      * intros j Hj.
        destruct (Nat.eq_dec j (length pre)) as [->|Hne]; [rewrite Ex; lra|].
        rewrite app_nth1 by lia. specialize (Hmax j ltac:(lia)). lra.
      * intros j Hj. rewrite app_nth1 by lia.
        specialize (Hmax j Hj). lra.
    + apply Rgt_b_false in G.
      assert (Em : nth mejor_i (pre ++ [x]) 0 = nth mejor_i pre 0)
        by (apply app_nth1; exact Hi).
      pose proof (IH (pre ++ [x]) mejor_i) as K.
      rewrite Em, Elen, Eapp in K. apply K.
      * lia.
      * intros j Hj.
        destruct (Nat.eq_dec j (length pre)) as [->|Hne].
        -- rewrite Ex. exact G.
        -- rewrite app_nth1 by lia. apply Hmax. lia.
      * intros j Hj. rewrite app_nth1 by lia. apply Hprim. exact Hj.
Qed.

(** [argmax] returns the first index of the largest entry. *)
Lemma argmax_primero_del_maximo (l : list R) (idx : nat) :
  argmax l = Ok idx ->
  (idx < length l)%nat
  /\ (forall j, (j < length l)%nat -> nth j l 0 <= nth idx l 0)
  /\ (forall j, (j < idx)%nat -> nth j l 0 < nth idx l 0).
Proof.
  destruct l as [|x l]; [discriminate|]. cbn [argmax]. intros H.
  apply Ok_inyectivo in H. subst idx.
  apply (argmax_desde_maximo l [x] 0).
  - simpl. lia.
  - intros j Hj. simpl in Hj. replace j with 0%nat by lia. lra.
  - intros j Hj. lia.
Qed.

(** ** The swarm after construction *)

Lemma mapear_nth {A B} (f : A -> resultado B) (xs : list A) (ys : list B)
    (dx : A) (dy : B) :
  mapear f xs = Ok ys ->
  forall j, (j < length xs)%nat -> f (nth j xs dx) = Ok (nth j ys dy).
Proof.
  revert ys. induction xs as [|x xs IH]; intros ys H j Hj; [simpl in Hj; lia|].
  cbn [mapear] in H. destruct (f x) as [y|] eqn:Ex; [|discriminate].
  cbn [ligar] in H. destruct (mapear f xs) as [zs|] eqn:Ez; [|discriminate].
  cbn [ligar] in H. apply Ok_inyectivo in H. subst ys.
  destruct j as [|j]; [exact Ex|]. cbn [nth]. apply (IH zs eq_refl).
  simpl in Hj. lia.
Qed.

Lemma init_siembra (ds : list Punto) (n m t : Z) (g g0 : Generador)
    (s0 : PSOOptimizer) :
  cultivos_presentes ds -> (1 <= n)%Z -> (1 <= m)%Z ->
  init ds n m t g = Ok (s0, g0) ->
  exists idx,
    (idx < Z.to_nat m)%nat
    /\ mejor_global s0 = leer (memoria s0) (nth idx (particulas s0) 0%nat)
    /\ mejor_puntaje_global s0 = nth idx (mejores_puntajes_locales s0) 0
    /\ (forall j, (j < Z.to_nat m)%nat ->
          _evaluar_particula ds (leer (memoria s0) (nth j (particulas s0) 0%nat))
          = Ok (nth j (mejores_puntajes_locales s0) 0)
          /\ nth j (mejores_puntajes_locales s0) 0 <= mejor_puntaje_global s0)
    /\ (forall j, (j < idx)%nat ->
          nth j (mejores_puntajes_locales s0) 0 < mejor_puntaje_global s0).
Proof.
  intros Hd Hn Hm E0.
  destruct (init_ok ds n m t g Hd Hn Hm) as [s0' [g0' [E0' [V0 [P0 _]]]]].
  rewrite E0 in E0'. apply Ok_inyectivo in E0'.
  assert (s0' = s0) by congruence. subst s0'. clear E0'.
  destruct (init_inversion ds n m t g g0 s0 E0)
    as [a [b [c [d [arreglos [g1 [vels [puntajes [idx
        [_ [_ [_ [_ [E3 [E4 [Hidx Es]]]]]]]]]]]]]]]].
  pose proof (v_particulas s0 V0) as Hlen.
  assert (Pm : n_particulas s0 = m).
  { unfold parametros in P0. injection P0 as ? ? ? ? ? ? ? ?. assumption. }
  rewrite Pm in Hlen. subst s0. cbn in Hlen. rewrite length_seq in Hlen.
  destruct (argmax_primero_del_maximo puntajes idx E4) as [_ [Hmax Hprim]].
  pose proof (mapear_longitud _ _ _ E3) as L3.
  exists idx. split; [lia|].
  cbn [mejor_global mejor_puntaje_global memoria particulas
       mejores_puntajes_locales].
  split; [rewrite seq_nth by exact Hidx; reflexivity|].
  split; [reflexivity|]. split.
  - intros j Hj. rewrite seq_nth by lia. cbn [Nat.add]. split.
    + unfold leer. apply (mapear_nth _ _ _ [] 0 E3). lia.
    + apply Hmax. lia.
  - exact Hprim.
Qed.

(** Construction succeeds and seeds the bests from the initial scores: every
    personal best score is the score of the particle's own position, the
    global best is the position and score of the particle [idx] with the
    largest score, and every particle before [idx] has a strictly lower
    score (a tie keeps the first particle). *)
Theorem construccion_siembra_los_mejores (ds : list Punto) (n m t : Z)
    (g : Generador) :
  cultivos_presentes ds -> (1 <= n)%Z -> (1 <= m)%Z ->
  exists s0 g0 idx,
    init ds n m t g = Ok (s0, g0)
    /\ (idx < Z.to_nat m)%nat
    /\ mejor_global s0 = leer (memoria s0) (nth idx (particulas s0) 0%nat)
    /\ mejor_puntaje_global s0 = nth idx (mejores_puntajes_locales s0) 0
    /\ (forall j, (j < Z.to_nat m)%nat ->
          _evaluar_particula ds (leer (memoria s0) (nth j (particulas s0) 0%nat))
          = Ok (nth j (mejores_puntajes_locales s0) 0)
          /\ nth j (mejores_puntajes_locales s0) 0 <= mejor_puntaje_global s0)
    /\ (forall j, (j < idx)%nat ->
          nth j (mejores_puntajes_locales s0) 0 < mejor_puntaje_global s0).
Proof.
  intros Hd Hn Hm.
  destruct (init_ok ds n m t g Hd Hn Hm) as [s0 [g0 [E0 _]]].
  destruct (init_siembra ds n m t g g0 s0 Hd Hn Hm E0) as [idx H].
  exists s0, g0, idx. split; [exact E0|exact H].
Qed.

Lemma construccion_siembra_los_mejores_testigo :
  exists s0 g0 idx,
    init datos_cuadrado 1 4 20 gen_medio = Ok (s0, g0)
    /\ (idx < Z.to_nat 4)%nat
    /\ mejor_global s0 = leer (memoria s0) (nth idx (particulas s0) 0%nat)
    /\ mejor_puntaje_global s0 = nth idx (mejores_puntajes_locales s0) 0
    /\ (forall j, (j < Z.to_nat 4)%nat ->
          _evaluar_particula datos_cuadrado
            (leer (memoria s0) (nth j (particulas s0) 0%nat))
          = Ok (nth j (mejores_puntajes_locales s0) 0)
          /\ nth j (mejores_puntajes_locales s0) 0 <= mejor_puntaje_global s0)
    /\ (forall j, (j < idx)%nat ->
          nth j (mejores_puntajes_locales s0) 0 < mejor_puntaje_global s0).
Proof.
  apply (construccion_siembra_los_mejores datos_cuadrado 1 4 20 gen_medio).
  - exact cultivos_presentes_cuadrado.
  - lia.
  - lia.
Defined.

(** ** The first pass of the loop *)

Lemma para_cada_fijo {S I} (cuerpo : S -> I -> resultado S) (indices : list I)
    (s : S) :
  (forall i, In i indices -> cuerpo s i = Ok s) ->
  para_cada cuerpo indices s = Ok s.
Proof.
  induction indices as [|i resto IH]; intros H; [reflexivity|].
  cbn [para_cada]. rewrite (H i) by (left; reflexivity). cbn [ligar].
  apply IH. intros j Hj. apply H. right. exact Hj.
Qed.

(** In the first pass of the loop the update of the bests re-evaluates every
    particle where construction scored it and changes nothing; after the
    pass the personal best scores and the global best are those of
    construction, while [mejores_locales] still holds the addresses of the
    particles' own arrays, so each stored personal best position is the
    particle's current, moved position. *)
Theorem primera_iteracion (ds : list Punto) (n m t : Z) (g : Generador) :
  cultivos_presentes ds -> (1 <= n)%Z -> (1 <= m)%Z ->
  exists s0 g0 s1 g1,
    init ds n m t g = Ok (s0, g0)
    /\ _actualizar_mejores_posiciones s0 = Ok s0
    /\ iteracion (s0, g0) = Ok (s1, g1)
    /\ mejores_puntajes_locales s1 = mejores_puntajes_locales s0
    /\ mejor_puntaje_global s1 = mejor_puntaje_global s0
    /\ mejor_global s1 = mejor_global s0
    /\ mejores_locales s1 = particulas s1
    /\ historial_puntajes s1 = [mejor_puntaje_global s0].
Proof.
  intros Hd Hn Hm.
  destruct (init_ok ds n m t g Hd Hn Hm)
    as [s0 [g0 [E0 [V0 [P0 [_ [_ [H0 [Hal _]]]]]]]]].
  destruct (init_siembra ds n m t g g0 s0 Hd Hn Hm E0)
    as [idx [Hidx [_ [_ [Hev _]]]]].
  assert (Pd : datos s0 = ds /\ n_particulas s0 = m).
  { unfold parametros in P0. injection P0 as ? ? ? ? ? ? ? ?. auto. }
  destruct Pd as [Pd Pm].
  assert (E1 : _actualizar_mejores_posiciones s0 = Ok s0).
  { unfold _actualizar_mejores_posiciones. apply para_cada_fijo.
    intros i Hi. unfold rango in Hi. apply in_seq in Hi. rewrite Pm in Hi.
    destruct (Hev i ltac:(lia)) as [Ei Hle].
    apply (paso_mejores_sin_mejora s0 i (nth i (mejores_puntajes_locales s0) 0) V0).
    - rewrite Pm. lia.
    - rewrite Pd. exact Ei.
    - lra.
    - exact Hle. }
  destruct (movimientos_invariante
              (fun s => mejores_locales s = mejores_locales s0
                        /\ particulas s = particulas s0
                        /\ mejores_puntajes_locales s = mejores_puntajes_locales s0
                        /\ mejor_puntaje_global s = mejor_puntaje_global s0
                        /\ mejor_global s = mejor_global s0
                        /\ historial_puntajes s = historial_puntajes s0)
              ltac:(intros s r1 r2 i _ H _; exact H) s0 g0 V0)
    as [s1 [g1 [E2 [_ [A [B [C [D [F G]]]]]]]]].
  { repeat split; reflexivity. }
  exists s0, g0. eexists. exists g1.
  split; [exact E0|]. split; [exact E1|].
  unfold iteracion. rewrite E1. cbn [ligar]. rewrite E2. cbn [ligar].
  split; [reflexivity|]. cbn.
  repeat (split; [assumption || congruence|]).
  rewrite G, H0, D. reflexivity.
Qed.

Lemma primera_iteracion_testigo :
  exists s0 g0 s1 g1,
    init datos_cuadrado 1 4 20 gen_medio = Ok (s0, g0)
    /\ _actualizar_mejores_posiciones s0 = Ok s0
    /\ iteracion (s0, g0) = Ok (s1, g1)
    /\ mejores_puntajes_locales s1 = mejores_puntajes_locales s0
    /\ mejor_puntaje_global s1 = mejor_puntaje_global s0
    /\ mejor_global s1 = mejor_global s0
    /\ mejores_locales s1 = particulas s1
    /\ historial_puntajes s1 = [mejor_puntaje_global s0].
Proof.
  apply (primera_iteracion datos_cuadrado 1 4 20 gen_medio).
  - exact cultivos_presentes_cuadrado.
  - lia.
  - lia.
Defined.

(** ** Coherence of the scores along a run *)

Lemma puntajes_coherentes_mejores (s : PSOOptimizer) (i : nat)
    (s' : PSOOptimizer) :
  Valido s -> puntajes_coherentes s -> (i < Z.to_nat (n_particulas s))%nat ->
  paso_mejores s i = Ok s' -> puntajes_coherentes s'.
Proof.
  intros V [Hc [Hr [Hd Hh]]] Hi E.
  destruct (paso_mejores_forma s i V Hi) as [p [Hp E']].
  rewrite E in E'. apply Ok_inyectivo in E'. subst s'. cbv zeta.
  destruct (arreglos_de_particula s i V Hi) as [_ [Hl _]].
  destruct (evaluar_valido s _ V Hl) as [q [Hq Hq01]].
  rewrite Hp in Hq. apply Ok_inyectivo in Hq. subst q.
  unfold puntajes_coherentes, global_coherente, global_domina in *.
  destruct (Rgt_b p (nth i (mejores_puntajes_locales s) 0)) eqn:G1.
  - cbn [mejor_puntaje_global con_mejor_local con_memoria].
    destruct (Rgt_b p (mejor_puntaje_global s)) eqn:G2; cbn.
    + apply Rgt_b_true in G2. split; [exact Hp|]. split; [exact Hq01|].
      split; [|exact Hh]. apply poner_Forall; [|lra].
      eapply Forall_impl; [|exact Hd]. intros x Hx. cbv beta in Hx. lra.
    + apply Rgt_b_false in G2. split; [exact Hc|]. split; [exact Hr|].
      split; [|exact Hh]. apply poner_Forall; [exact Hd|exact G2].
  - destruct (Rgt_b p (mejor_puntaje_global s)) eqn:G2; cbn.
    + apply Rgt_b_true in G2. split; [exact Hp|]. split; [exact Hq01|].
      split; [|exact Hh].
      eapply Forall_impl; [|exact Hd]. intros x Hx. cbv beta in Hx. lra.
    + auto.
Qed.

Lemma puntajes_coherentes_registro (s : PSOOptimizer) :
  puntajes_coherentes s ->
  puntajes_coherentes
    (con_historial s (historial_puntajes s ++ [mejor_puntaje_global s])).
Proof.
  intros [Hc [Hr [Hd Hh]]].
  unfold puntajes_coherentes, global_coherente, global_domina in *. cbn.
  split; [exact Hc|]. split; [exact Hr|]. split; [exact Hd|].
  apply Forall_app. split; [exact Hh|]. constructor; [exact Hr|constructor].
Qed.

Lemma Forall_nth_todos (P : R -> Prop) (l : list R) :
  (forall j, (j < length l)%nat -> P (nth j l 0)) -> Forall P l.
Proof.
  intros H. apply Forall_forall. intros x Hx.
  destruct (In_nth l x 0 Hx) as [j [Hj <-]]. apply H. exact Hj.
Qed.

Lemma puntajes_coherentes_init (ds : list Punto) (n m t : Z)
    (g g0 : Generador) (s0 : PSOOptimizer) :
  cultivos_presentes ds -> (1 <= n)%Z -> (1 <= m)%Z ->
  init ds n m t g = Ok (s0, g0) -> puntajes_coherentes s0.
Proof.
  intros Hd Hn Hm E0.
  destruct (init_siembra ds n m t g g0 s0 Hd Hn Hm E0)
    as [idx [Hidx [Eg [Ep [Hev _]]]]].
  destruct (init_ok ds n m t g Hd Hn Hm)
    as [s0' [g0' [E0' [V0 [P0 [_ [_ [H0 _]]]]]]]].
  rewrite E0 in E0'. apply Ok_inyectivo in E0'. injection E0' as <- <-.
  assert (Pd : datos s0 = ds /\ n_particulas s0 = m).
  { unfold parametros in P0. injection P0 as ? ? ? ? ? ? ? ?. auto. }
  destruct Pd as [Pd Pm].
  assert (Hc : global_coherente s0).
  { unfold global_coherente. rewrite Pd, Eg, Ep. apply Hev. exact Hidx. }
  split; [exact Hc|]. split.
  - destruct (evaluar_valido s0 (mejor_global s0) V0 (v_global s0 V0))
      as [q [Hq Hq01]].
    unfold global_coherente in Hc. rewrite Hc in Hq.
    apply Ok_inyectivo in Hq. subst q. exact Hq01.
  - split; [|rewrite H0; constructor].
    unfold global_domina. apply Forall_nth_todos. intros j Hj.
    apply Hev. rewrite (v_puntajes s0 V0), Pm in Hj. exact Hj.
Qed.

(** The score a run returns is the objective value of the configuration it
    returns, and lies in [0,1]. *)
Theorem corrida_puntaje_de_la_configuracion (ds : list Punto) (n m t : Z)
    (g : Generador) :
  cultivos_presentes ds -> (1 <= n)%Z -> (1 <= m)%Z ->
  exists sensores puntaje s' g',
    ejecutar_optimizacion_pso ds n m t g = Ok ((sensores, puntaje), s', g')
    /\ funcion_objetivo sensores ds = Ok puntaje
    /\ 0 <= puntaje <= 1.
Proof.
  intros Hd Hn Hm.
  destruct (corrida_ok ds n m t g Hd Hn Hm)
    as [s0 [g0 [s' [g' [E0 [E' [_ [Ee [V0 [H0 _]]]]]]]]]].
  pose proof (puntajes_coherentes_init ds n m t g g0 s0 Hd Hn Hm E0) as C0.
  destruct (iterar_invariante puntajes_coherentes
              puntajes_coherentes_mejores
              ltac:(intros s r1 r2 i _ H _; exact H)
              puntajes_coherentes_registro (Z.to_nat t) s0 g0 V0 C0)
    as [s2 [g2 [E2 [_ [Hc [Hr _]]]]]].
  rewrite E' in E2. apply Ok_inyectivo in E2. injection E2 as <- <-.
  destruct (final_de_la_corrida s0 g0 _ s' g' V0 H0 E') as [_ [P' _]].
  destruct (init_ok ds n m t g Hd Hn Hm) as [s0' [g0' [E0' [_ [P0 _]]]]].
  rewrite E0 in E0'. apply Ok_inyectivo in E0'. injection E0' as <- <-.
  assert (Pd : datos s' = ds).
  { rewrite P0 in P'. unfold parametros in P'.
    injection P' as ? ? ? ? ? ? ? ?. assumption. }
  eexists. eexists. exists s', g'. split; [exact Ee|].
  split; [|exact Hr]. unfold global_coherente, _evaluar_particula in Hc.
  rewrite Pd in Hc. exact Hc.
Qed.

Lemma corrida_puntaje_de_la_configuracion_testigo :
  exists sensores puntaje s' g',
    ejecutar_optimizacion_pso datos_cuadrado 1 4 20 gen_medio
    = Ok ((sensores, puntaje), s', g')
    /\ funcion_objetivo sensores datos_cuadrado = Ok puntaje
    /\ 0 <= puntaje <= 1.
Proof.
  apply (corrida_puntaje_de_la_configuracion datos_cuadrado 1 4 20 gen_medio).
  - exact cultivos_presentes_cuadrado.
  - lia.
  - lia.
Defined.

(** After a run, no history entry and no personal best score is above the
    returned score, every history entry is in [0,1], and with at least one
    iteration the last history entry is the returned score. *)
Theorem corrida_historial_bajo_el_mejor (ds : list Punto) (n m t : Z)
    (g : Generador) :
  cultivos_presentes ds -> (1 <= n)%Z -> (1 <= m)%Z ->
  exists sensores puntaje s' g',
    ejecutar_optimizacion_pso ds n m t g = Ok ((sensores, puntaje), s', g')
    /\ Forall (fun h => 0 <= h <= puntaje) (historial_puntajes s')
    /\ Forall (fun p => p <= puntaje) (mejores_puntajes_locales s')
    /\ ((1 <= t)%Z -> last (historial_puntajes s') 0 = puntaje).
Proof.
  intros Hd Hn Hm.
  destruct (corrida_ok ds n m t g Hd Hn Hm)
    as [s0 [g0 [s' [g' [E0 [E' [_ [Ee [V0 [H0 _]]]]]]]]]].
  pose proof (puntajes_coherentes_init ds n m t g g0 s0 Hd Hn Hm E0) as C0.
  destruct (iterar_invariante puntajes_coherentes
              puntajes_coherentes_mejores
              ltac:(intros s r1 r2 i _ H _; exact H)
              puntajes_coherentes_registro (Z.to_nat t) s0 g0 V0 C0)
    as [s2 [g2 [E2 [_ [_ [_ [Hdom Hh]]]]]]].
  rewrite E' in E2. apply Ok_inyectivo in E2. injection E2 as <- <-.
  destruct (iterar_bien (Z.to_nat t) s0 g0 V0)
    as [s2 [g2 [E2 [_ [_ [_ [_ [Ho _]]]]]]]].
  rewrite E' in E2. apply Ok_inyectivo in E2. injection E2 as <- <-.
  destruct Ho as [_ Hle].
  { unfold historial_ordenado. rewrite H0. split; [exact I|constructor]. }
  eexists. eexists. exists s', g'. split; [exact Ee|]. split; [|split].
  - rewrite Forall_forall in *. intros h Hin.
    specialize (Hh h Hin). specialize (Hle h Hin). cbv beta in *. lra.
  - exact Hdom.
  - intros Ht.
    destruct (estados_de_la_corrida s0 g0 V0 H0 (Z.to_nat t - 1))
      as [sk [gk [sk1 [gk1 [_ [Ek1 [_ [_ [_ [_ [Hk _]]]]]]]]]]].
    replace (S (Z.to_nat t - 1)) with (Z.to_nat t) in Ek1 by lia.
    rewrite E' in Ek1. apply Ok_inyectivo in Ek1. injection Ek1 as <- <-.
    rewrite Hk. apply last_last.
Qed.

Lemma corrida_historial_bajo_el_mejor_testigo :
  exists sensores puntaje s' g',
    ejecutar_optimizacion_pso datos_cuadrado 1 4 20 gen_medio
    = Ok ((sensores, puntaje), s', g')
    /\ Forall (fun h => 0 <= h <= puntaje) (historial_puntajes s')
    /\ Forall (fun p => p <= puntaje) (mejores_puntajes_locales s')
    /\ ((1 <= 20)%Z -> last (historial_puntajes s') 0 = puntaje).
Proof.
  apply (corrida_historial_bajo_el_mejor datos_cuadrado 1 4 20 gen_medio).
  - exact cultivos_presentes_cuadrado.
  - lia.
  - lia.
Defined.

(** ** Velocities *)

Lemma uniform_n_rango (low high : R) (size : nat) :
  low <= high ->
  forall g, en_rango g ->
    Forall (fun v => low <= v <= high) (fst (uniform_n low high size g)).
Proof.
  intros Hlh. induction size as [|k IH]; intros g Hg; [constructor|].
  cbn [uniform_n random].
  specialize (IH (mkGenerador (flujo g) (S (cursor g))) Hg).
  destruct (uniform_n low high k (mkGenerador (flujo g) (S (cursor g)))) as [l g2].
  cbn [fst] in *. constructor; [|exact IH].
  apply uniforme_rango; [exact Hlh|apply Hg].
Qed.

Lemma uniform_n_flujo (low high : R) (size : nat) :
  forall g, snd (uniform_n low high size g) = avanzar size g.
Proof.
  induction size as [|k IH]; intros g; [destruct g; reflexivity|].
  cbn [uniform_n random].
  specialize (IH (mkGenerador (flujo g) (S (cursor g)))).
  destruct (uniform_n low high k (mkGenerador (flujo g) (S (cursor g)))) as [l g2].
  cbn [snd] in *. rewrite IH. unfold avanzar. cbn [flujo cursor]. f_equal. lia.
Qed.

Lemma inicializar_velocidades_rango (n : Z) (m : nat) :
  forall g vels g', en_rango g ->
    _inicializar_velocidades n m g = Ok (vels, g') ->
    Forall (Forall (fun v => - (1 / 1000) <= v <= 1 / 1000)) vels.
Proof.
  induction m as [|m IH]; intros g vels g' Hg E.
  - cbn in E. apply Ok_inyectivo in E. injection E as <- <-. constructor.
  - cbn [_inicializar_velocidades] in E. unfold uniform_size in E.
    destruct (n * 2 <? 0)%Z; [discriminate|]. cbn [ligar] in E.
    pose proof (uniform_n_rango (- (1 / 1000)) (1 / 1000) (Z.to_nat (n * 2))
                  ltac:(lra) g Hg) as Hr.
    pose proof (uniform_n_flujo (- (1 / 1000)) (1 / 1000) (Z.to_nat (n * 2)) g)
      as Hf.
    destruct (uniform_n (- (1 / 1000)) (1 / 1000) (Z.to_nat (n * 2)) g) as [v g1].
    cbn [fst snd] in *.
    destruct (_inicializar_velocidades n m g1) as [[resto g2]|] eqn:E2;
      [|discriminate].
    cbn [ligar] in E. apply Ok_inyectivo in E. injection E as <- <-.
    constructor; [exact Hr|]. apply (IH g1 resto g2); [|exact E2].
    subst g1. exact Hg.
Qed.

Lemma vel_max_parametros (s s' : PSOOptimizer) :
  parametros s' = parametros s -> vel_max s' = vel_max s.
Proof. unfold parametros. intros [= ? ? ? ? ? ? ? ? ? ? ? ?]. assumption. Qed.

Lemma velocidades_acotadas_mejores (s : PSOOptimizer) (i : nat)
    (s' : PSOOptimizer) :
  Valido s -> 0 <= vel_max s /\ velocidades_acotadas s ->
  (i < Z.to_nat (n_particulas s))%nat ->
  paso_mejores s i = Ok s' -> 0 <= vel_max s' /\ velocidades_acotadas s'.
Proof.
  intros V [H0 Hv] Hi E.
  destruct (paso_mejores_bien s i V Hi) as [s2 [E2 [[_ [Par _]] [_ Ev]]]].
  rewrite E in E2. apply Ok_inyectivo in E2. subst s2.
  unfold velocidades_acotadas in *.
  rewrite Ev, (vel_max_parametros _ _ Par). auto.
Qed.

Lemma velocidades_acotadas_mover (s : PSOOptimizer) (r1 r2 : R) (i : nat) :
  Valido s -> 0 <= vel_max s /\ velocidades_acotadas s ->
  (i < Z.to_nat (n_particulas s))%nat ->
  0 <= vel_max (mover s r1 r2 i) /\ velocidades_acotadas (mover s r1 r2 i).
Proof.
  intros V [H0 Hv] Hi. unfold velocidades_acotadas, mover in *.
  cbn [vel_max velocidades con_memoria con_velocidades].
  split; [exact H0|]. apply poner_Forall; [exact Hv|].
  unfold nueva_velocidad. apply Forall_forall. intros x Hx.
  apply in_map_iff in Hx. destruct Hx as [y [<- _]].
  apply clip_rango. lra.
Qed.

(** Construction draws every velocity component in [-0.001, 0.001], and
    after any number of passes of the loop every velocity component is
    within the velocity limit [-0.005, 0.005]. *)
Theorem velocidades_dentro_del_limite (ds : list Punto) (n m t : Z)
    (g : Generador) :
  cultivos_presentes ds -> (1 <= n)%Z -> (1 <= m)%Z -> en_rango g ->
  exists s0 g0,
    init ds n m t g = Ok (s0, g0)
    /\ vel_max s0 = 5 / 1000
    /\ Forall (Forall (fun v => - (1 / 1000) <= v <= 1 / 1000)) (velocidades s0)
    /\ forall k, exists sk gk,
         iterar k (s0, g0) = Ok (sk, gk)
         /\ Forall (Forall (fun v => - (5 / 1000) <= v <= 5 / 1000))
                   (velocidades sk).
Proof.
  intros Hd Hn Hm Hg.
  destruct (init_ok ds n m t g Hd Hn Hm) as [s0 [g0 [E0 [V0 [P0 _]]]]].
  destruct (init_inversion ds n m t g g0 s0 E0)
    as [a [b [c [d [arreglos [g1 [vels [puntajes [idx
        [_ [_ [E1 [E2 [_ [_ [_ Es]]]]]]]]]]]]]]]].
  assert (Hg1 : en_rango g1).
  { destruct (inicializar_particulas_ok a b c d n (Z.to_nat m) g)
      as [arr [h [E1' [_ [_ [Hf _]]]]]].
    rewrite E1 in E1'. apply Ok_inyectivo in E1'. injection E1' as <- <-.
    intros k. rewrite Hf. apply Hg. }
  pose proof (inicializar_velocidades_rango n (Z.to_nat m) g1 vels g0 Hg1 E2) as Hv.
  assert (Ev : velocidades s0 = vels) by (subst s0; reflexivity).
  assert (Em : vel_max s0 = 5 / 1000) by (subst s0; reflexivity).
  exists s0, g0. split; [exact E0|]. split; [exact Em|].
  split; [rewrite Ev; exact Hv|].
  intros k.
  destruct (iterar_invariante
              (fun s => 0 <= vel_max s /\ velocidades_acotadas s)
              velocidades_acotadas_mejores velocidades_acotadas_mover
              ltac:(intros s H; exact H) k s0 g0 V0)
    as [sk [gk [Ek [_ [_ Hk]]]]].
  { split; [rewrite Em; lra|]. unfold velocidades_acotadas. rewrite Ev, Em.
    eapply Forall_impl; [|exact Hv]. intros v Hvv.
    eapply Forall_impl; [|exact Hvv]. intros x Hx. cbv beta in Hx. lra. }
  exists sk, gk. split; [exact Ek|].
  destruct (iterar_bien k s0 g0 V0) as [sk' [gk' [Ek' [_ [Pk _]]]]].
  rewrite Ek in Ek'. apply Ok_inyectivo in Ek'. injection Ek' as <- <-.
  unfold velocidades_acotadas in Hk.
  rewrite (vel_max_parametros _ _ Pk), Em in Hk. exact Hk.
Qed.

Lemma velocidades_dentro_del_limite_testigo :
  exists s0 g0,
    init datos_cuadrado 1 4 20 gen_medio = Ok (s0, g0)
    /\ vel_max s0 = 5 / 1000
    /\ Forall (Forall (fun v => - (1 / 1000) <= v <= 1 / 1000)) (velocidades s0)
    /\ forall k, exists sk gk,
         iterar k (s0, g0) = Ok (sk, gk)
         /\ Forall (Forall (fun v => - (5 / 1000) <= v <= 5 / 1000))
                   (velocidades sk).
Proof.
  apply (velocidades_dentro_del_limite datos_cuadrado 1 4 20 gen_medio).
  - exact cultivos_presentes_cuadrado.
  - lia.
  - lia.
  - exact en_rango_medio.
Defined.

(** ** Consumption of random draws *)

Lemma avanzar_avanzar (a b : nat) (g : Generador) :
  avanzar a (avanzar b g) = avanzar (a + b) g.
Proof. unfold avanzar. cbn [flujo cursor]. f_equal. lia. Qed.

Lemma avanzar_cero (g : Generador) : avanzar 0 g = g.
Proof. destruct g. reflexivity. Qed.

Lemma particulas_sorteos (a b c d : R) (n : Z) (m : nat) :
  forall g, exists arreglos,
    _inicializar_particulas (Some (a, b)) (Some (c, d)) n m g
    = Ok (arreglos, avanzar (m * (2 * Z.to_nat n)) g).
Proof.
  induction m as [|m IH]; intros g.
  - exists []. cbn. rewrite avanzar_cero. reflexivity.
  - destruct (nueva_particula_ok a b c d (Z.to_nat n) g) as [arr [E _]].
    destruct (IH (avanzar (2 * Z.to_nat n) g)) as [arreglos E'].
    exists (arr :: arreglos). cbn [_inicializar_particulas].
    rewrite E. cbn [ligar]. rewrite E'. cbn [ligar].
    rewrite avanzar_avanzar. f_equal. f_equal. f_equal. lia.
Qed.

Lemma velocidades_sorteos (n : Z) (m : nat) :
  (0 <= n)%Z ->
  forall g, exists vels,
    _inicializar_velocidades n m g
    = Ok (vels, avanzar (m * (2 * Z.to_nat n)) g).
Proof.
  intros Hn. induction m as [|m IH]; intros g.
  - exists []. cbn. rewrite avanzar_cero. reflexivity.
  - cbn [_inicializar_velocidades]. unfold uniform_size.
    replace (n * 2 <? 0)%Z with false by (symmetry; apply Z.ltb_ge; lia).
    cbn [ligar].
    pose proof (uniform_n_flujo (- (1 / 1000)) (1 / 1000) (Z.to_nat (n * 2)) g)
      as Hf.
    destruct (uniform_n (- (1 / 1000)) (1 / 1000) (Z.to_nat (n * 2)) g) as [v g1].
    cbn [snd] in Hf. subst g1.
    destruct (IH (avanzar (Z.to_nat (n * 2)) g)) as [vels E]. rewrite E.
    cbn [ligar]. exists (v :: vels). rewrite avanzar_avanzar.
    f_equal. f_equal. f_equal. lia.
Qed.

Lemma movimientos_sorteos (indices : list nat) :
  forall s g, Valido s ->
    Forall (fun i => (i < Z.to_nat (n_particulas s))%nat) indices ->
    exists s', para_cada paso_movimiento indices (s, g)
               = Ok (s', avanzar (2 * length indices) g)
               /\ paso_bien s s'.
Proof.
  induction indices as [|i resto IH]; intros s g V HF.
  - exists s. cbn. rewrite avanzar_cero. split; [reflexivity|].
    apply paso_bien_refl. exact V.
  - inversion HF as [|? ? Hi Hr]; subst.
    cbn [para_cada]. rewrite (paso_movimiento_forma s g i V Hi). cbn [ligar].
    pose proof (mover_bien s (flujo g (cursor g)) (flujo g (S (cursor g))) i V Hi)
      as B.
    destruct (IH (mover s (flujo g (cursor g)) (flujo g (S (cursor g))) i)
                 (avanzar 2 g)) as [s' [E B']].
    + apply B.
    + destruct B as [_ [Par _]]. rewrite (n_particulas_parametros _ _ Par).
      exact Hr.
    + exists s'. rewrite E, avanzar_avanzar. split.
      * f_equal. f_equal. f_equal. simpl. lia.
      * eapply paso_bien_trans; eassumption.
Qed.

Lemma iterar_sorteos (k : nat) :
  forall s g, Valido s ->
  exists s', iterar k (s, g)
             = Ok (s', avanzar (k * (2 * Z.to_nat (n_particulas s))) g).
Proof.
  induction k as [|k IH]; intros s g V.
  - exists s. cbn. rewrite avanzar_cero. reflexivity.
  - cbn [iterar]. unfold iteracion.
    destruct (actualizar_mejores_bien s V) as [s1 [E1 [B1 _]]].
    rewrite E1. cbn [ligar].
    destruct B1 as [V1 [Par1 _]].
    destruct (movimientos_sorteos (rango (n_particulas s1)) s1 g V1
                (rango_menor _)) as [s2 [E2 [V2 [Par2 _]]]].
    unfold _actualizar_velocidades_posiciones. rewrite E2. cbn [ligar].
    match goal with
    | |- context [iterar k (?st, _)] =>
        assert (V3 : Valido st) by (destruct V2; constructor; assumption);
        destruct (IH st (avanzar (2 * length (rango (n_particulas s1))) g) V3)
          as [s' E3]
    end.
    exists s'. rewrite E3, avanzar_avanzar. cbn [n_particulas con_historial].
    rewrite (n_particulas_parametros _ _ Par2).
    unfold rango. rewrite length_seq.
    rewrite (n_particulas_parametros _ _ Par1).
    f_equal. f_equal. f_equal. lia.
Qed.

(** A run consumes exactly 4*N*M draws for construction (two per coordinate
    pair for the positions, two for the velocities) and 2*M draws per
    iteration (one pair [r1], [r2] per particle, shared by all its
    coordinates), whatever the scores are. *)
Theorem corrida_sorteos (ds : list Punto) (n m t : Z) (g : Generador) :
  cultivos_presentes ds -> (1 <= n)%Z -> (1 <= m)%Z ->
  exists s0 resultado_final s',
    init ds n m t g = Ok (s0, avanzar (4 * Z.to_nat n * Z.to_nat m) g)
    /\ ejecutar_optimizacion_pso ds n m t g
       = Ok (resultado_final, s',
             avanzar (4 * Z.to_nat n * Z.to_nat m
                      + 2 * Z.to_nat m * Z.to_nat t) g).
Proof.
  intros Hd Hn Hm.
  destruct (corrida_ok ds n m t g Hd Hn Hm)
    as [s0 [g0 [s' [g' [E0 [E' [_ [Ee [V0 [_ [_ [Pm _]]]]]]]]]]]].
  destruct (init_inversion ds n m t g g0 s0 E0)
    as [a [b [c [d [arreglos [g1 [vels [puntajes [idx
        [_ [_ [E1 [E2 _]]]]]]]]]]]]].
  destruct (particulas_sorteos a b c d n (Z.to_nat m) g) as [arr E1'].
  assert (Eg1 : g1 = avanzar (Z.to_nat m * (2 * Z.to_nat n)) g)
    by (rewrite E1 in E1'; congruence).
  subst g1.
  destruct (velocidades_sorteos n (Z.to_nat m) ltac:(lia)
              (avanzar (Z.to_nat m * (2 * Z.to_nat n)) g)) as [vs E2'].
  assert (Eg0 : g0 = avanzar (4 * Z.to_nat n * Z.to_nat m) g).
  { rewrite E2 in E2'. rewrite avanzar_avanzar in E2'.
    replace (Z.to_nat m * (2 * Z.to_nat n) + Z.to_nat m * (2 * Z.to_nat n))%nat
      with (4 * Z.to_nat n * Z.to_nat m)%nat in E2' by lia.
    congruence. }
  subst g0.
  destruct (iterar_sorteos (Z.to_nat t) s0
              (avanzar (4 * Z.to_nat n * Z.to_nat m) g) V0) as [s2 E2''].
  assert (Eg' : g' = avanzar (4 * Z.to_nat n * Z.to_nat m
                              + 2 * Z.to_nat m * Z.to_nat t) g).
  { rewrite E' in E2''. rewrite avanzar_avanzar, Pm in E2''.
    replace (Z.to_nat t * (2 * Z.to_nat m) + 4 * Z.to_nat n * Z.to_nat m)%nat
      with (4 * Z.to_nat n * Z.to_nat m + 2 * Z.to_nat m * Z.to_nat t)%nat
      in E2'' by lia.
    congruence. }
  subst g'.
  exists s0. eexists. exists s'. split; [exact E0|exact Ee].
Qed.

Lemma corrida_sorteos_testigo :
  exists s0 resultado_final s',
    init datos_cuadrado 1 4 20 gen_medio
    = Ok (s0, avanzar (4 * Z.to_nat 1 * Z.to_nat 4) gen_medio)
    /\ ejecutar_optimizacion_pso datos_cuadrado 1 4 20 gen_medio
       = Ok (resultado_final, s',
             avanzar (4 * Z.to_nat 1 * Z.to_nat 4
                      + 2 * Z.to_nat 4 * Z.to_nat 20) gen_medio).
Proof.
  apply (corrida_sorteos datos_cuadrado 1 4 20 gen_medio).
  - exact cultivos_presentes_cuadrado.
  - lia.
  - lia.
Defined.

(** ** Running the same object again *)

Lemma iterar_historial_prefijo (k : nat) :
  forall s g s' g', Valido s -> iterar k (s, g) = Ok (s', g') ->
  exists nuevos, historial_puntajes s' = historial_puntajes s ++ nuevos
                 /\ length nuevos = k.
Proof.
  induction k as [|k IH]; intros s g s' g' V E.
  - cbn in E. apply Ok_inyectivo in E. injection E as <- <-.
    exists []. rewrite app_nil_r. auto.
  - cbn [iterar] in E.
    destruct (iteracion_bien s g V) as [s1 [g1 [E1 [V1 [_ [_ [H1 _]]]]]]].
    rewrite E1 in E. cbn [ligar] in E.
    destruct (IH s1 g1 s' g' V1 E) as [nuevos [Hn Ln]].
    exists (mejor_puntaje_global s1 :: nuevos). split; [|simpl; lia].
    rewrite Hn, H1, <- app_assoc. reflexivity.
Qed.

(** [optimizar] never resets the object: a second call on the same object
    runs [max_iter] more passes from the swarm as the first call left it,
    appends [max_iter] more entries to the same history (which stays
    non-decreasing), and returns a score that is not lower. *)
Theorem optimizar_dos_veces (ds : list Punto) (n m t : Z) (g : Generador) :
  cultivos_presentes ds -> (1 <= n)%Z -> (1 <= m)%Z ->
  exists s0 g0 sensores1 puntaje1 s1 g1 sensores2 puntaje2 s2 g2 nuevos,
    init ds n m t g = Ok (s0, g0)
    /\ optimizar s0 g0 = Ok ((sensores1, puntaje1), s1, g1)
    /\ optimizar s1 g1 = Ok ((sensores2, puntaje2), s2, g2)
    /\ length (historial_puntajes s1) = Z.to_nat t
    /\ historial_puntajes s2 = historial_puntajes s1 ++ nuevos
    /\ length nuevos = Z.to_nat t
    /\ creciente (historial_puntajes s2)
    /\ puntaje1 <= puntaje2.
Proof.
  intros Hd Hn Hm.
  destruct (corrida_ok ds n m t g Hd Hn Hm)
    as [s0 [g0 [s1 [g1 [E0 [E1 [Eo [_ [V0 [H0 [_ [_ [Pt _]]]]]]]]]]]]].
  destruct (iterar_bien (Z.to_nat t) s0 g0 V0)
    as [s1' [g1' [E1' [V1 [P1 [_ [L1 [O1 _]]]]]]]].
  rewrite E1 in E1'. apply Ok_inyectivo in E1'. injection E1' as <- <-.
  assert (Ho1 : historial_ordenado s1).
  { apply O1. unfold historial_ordenado. rewrite H0. split; [exact I|constructor]. }
  destruct (iterar_bien (Z.to_nat t) s1 g1 V1)
    as [s2 [g2 [E2 [_ [_ [[N2 _] [_ [O2 _]]]]]]]].
  destruct (iterar_historial_prefijo _ s1 g1 s2 g2 V1 E2) as [nuevos [Hn2 Ln2]].
  exists s0, g0. eexists. eexists. exists s1, g1. eexists. eexists.
  exists s2, g2, nuevos.
  split; [exact E0|]. split; [exact Eo|]. split.
  { unfold optimizar. rewrite (max_iter_parametros _ _ P1), Pt, E2. reflexivity. }
  split; [rewrite L1, H0; reflexivity|]. split; [exact Hn2|].
  split; [exact Ln2|]. split; [apply (O2 Ho1)|exact N2].
Qed.

Lemma optimizar_dos_veces_testigo :
  exists s0 g0 sensores1 puntaje1 s1 g1 sensores2 puntaje2 s2 g2 nuevos,
    init datos_cuadrado 1 4 20 gen_medio = Ok (s0, g0)
    /\ optimizar s0 g0 = Ok ((sensores1, puntaje1), s1, g1)
    /\ optimizar s1 g1 = Ok ((sensores2, puntaje2), s2, g2)
    /\ length (historial_puntajes s1) = Z.to_nat 20
    /\ historial_puntajes s2 = historial_puntajes s1 ++ nuevos
    /\ length nuevos = Z.to_nat 20
    /\ creciente (historial_puntajes s2)
    /\ puntaje1 <= puntaje2.
Proof.
  apply (optimizar_dos_veces datos_cuadrado 1 4 20 gen_medio).
  - exact cultivos_presentes_cuadrado.
  - lia.
  - lia.
Defined.

(** ** The baseline configurations *)

Lemma sensores_al_azar_particula (lat lon : option (R * R)) (n : nat) :
  forall g,
    sensores_al_azar lat lon n g
    = (r <- nueva_particula lat lon n g ;;
       let (arr, g') := r in Ok (en_pares arr, g')).
Proof.
  induction n as [|n IH]; intros g; [reflexivity|].
  cbn [sensores_al_azar nueva_particula].
  destruct (uniform lat g) as [[la g1]|e]; [|reflexivity]. cbn [ligar].
  destruct (uniform lon g1) as [[lo g2]|e]; [|reflexivity]. cbn [ligar].
  rewrite IH.
  destruct (nueva_particula lat lon n g2) as [[arr g3]|e]; reflexivity.
Qed.

Lemma sensores_al_azar_ok (a b c d : R) (n : nat) :
  forall g, exists pares,
    sensores_al_azar (Some (a, b)) (Some (c, d)) n g
    = Ok (map sensor_de pares, avanzar (2 * n) g)
    /\ length pares = n
    /\ (a <= b -> c <= d -> en_rango g ->
        Forall (fun s => sensor_dentro a b c d s) (map sensor_de pares)).
Proof.
  induction n as [|n IH]; intros g.
  - exists []. split; [destruct g; reflexivity|]. split; [reflexivity|].
    intros; constructor.
  - destruct (IH (avanzar 2 g)) as [pares [E [L D]]].
    exists ((a + (b - a) * flujo g (cursor g),
             c + (d - c) * flujo g (S (cursor g))) :: pares).
    cbn [sensores_al_azar uniform random ligar flujo cursor].
    change (mkGenerador (flujo g) (S (S (cursor g)))) with (avanzar 2 g).
    rewrite E. cbn [ligar]. split; [|split].
    + f_equal. f_equal. unfold avanzar. cbn [flujo cursor]. f_equal. lia.
    + simpl. rewrite L. reflexivity.
    + intros Hab Hcd Hg. cbn [map]. constructor.
      * split; apply uniforme_rango; try assumption; apply Hg.
      * apply D; assumption.
Qed.

Lemma configuracion_aleatoria_ok (n : Z) (ds : list Punto) (g : Generador) :
  ds <> [] ->
  exists a b c d pares,
    par_limites (columna_min (map Latitud ds)) (columna_max (map Latitud ds))
    = Some (a, b)
    /\ par_limites (columna_min (map Longitud ds)) (columna_max (map Longitud ds))
       = Some (c, d)
    /\ configuracion_aleatoria n ds g
       = Ok (map sensor_de pares, avanzar (2 * Z.to_nat n) g)
    /\ length pares = Z.to_nat n
    /\ (en_rango g -> Forall (sensor_dentro a b c d) (map sensor_de pares)).
Proof.
  intros Hne.
  destruct (limites_columna (map Latitud ds)) as [a [b [Ea Hab]]];
    [destruct ds; [contradiction|discriminate]|].
  destruct (limites_columna (map Longitud ds)) as [c [d [Ec Hcd]]];
    [destruct ds; [contradiction|discriminate]|].
  destruct (sensores_al_azar_ok a b c d (Z.to_nat n) g) as [pares [E [L D]]].
  exists a, b, c, d, pares. split; [exact Ea|]. split; [exact Ec|].
  unfold configuracion_aleatoria. rewrite Ea, Ec.
  split; [exact E|]. split; [exact L|]. intros Hg. apply D; assumption.
Qed.

(** The random baseline drawn with the generator in a given state is the
    first particle the constructor of the optimizer draws from that state:
    the same sensors, and the same [2 * n_sensores] draws consumed. *)
Theorem configuracion_aleatoria_primera_particula (ds : list Punto)
    (n m t : Z) (g g0 : Generador) (s0 : PSOOptimizer) :
  init ds n m t g = Ok (s0, g0) -> (1 <= m)%Z ->
  configuracion_aleatoria n ds g
  = Ok (_formatear_sensores (leer (memoria s0) 0),
        avanzar (2 * Z.to_nat n) g).
Proof.
  intros E Hm.
  destruct (init_inversion _ _ _ _ _ _ _ E)
    as [a [b [c [d [arreglos [g1 [vels [puntajes [idx
         [Ea [Ec [Ep [_ [_ [_ [_ ->]]]]]]]]]]]]]]]].
  cbn [memoria]. unfold configuracion_aleatoria. rewrite Ea, Ec.
  rewrite sensores_al_azar_particula.
  destruct (Z.to_nat m) as [|k] eqn:Ek; [lia|].
  cbn [_inicializar_particulas] in Ep.
  destruct (nueva_particula_ok a b c d (Z.to_nat n) g) as [arr [En _]].
  rewrite En in Ep |- *. cbn [ligar] in Ep |- *.
  destruct (_inicializar_particulas (Some (a, b)) (Some (c, d)) n k
              (avanzar (2 * Z.to_nat n) g)) as [[resto g2]|e];
    [|discriminate].
  cbn [ligar] in Ep. apply Ok_inyectivo in Ep.
  assert (Ha : arreglos = arr :: resto) by congruence. subst arreglos.
  unfold leer. cbn [nth]. rewrite formatear_en_pares. reflexivity.
Qed.

Lemma configuracion_aleatoria_primera_particula_testigo :
  exists s0 g0,
    init datos_cuadrado 2 3 5 gen_medio = Ok (s0, g0)
    /\ configuracion_aleatoria 2 datos_cuadrado gen_medio
       = Ok (_formatear_sensores (leer (memoria s0) 0),
             avanzar (2 * Z.to_nat 2) gen_medio).
Proof.
  destruct (corrida_ok datos_cuadrado 2 3 5 gen_medio
              cultivos_presentes_cuadrado ltac:(lia) ltac:(lia))
    as [s0 [g0 [s1 [g1 [E0 _]]]]].
  exists s0, g0. split; [exact E0|].
  apply (configuracion_aleatoria_primera_particula
           datos_cuadrado 2 3 5 gen_medio g0 s0 E0).
  lia.
Defined.

(** On a dataset with at least one row the random baseline returns exactly
    [n_sensores] sensors (none when the number is not positive), each a
    [[lat, lon]] pair inside the bounding box of the dataset, and consumes
    two draws per sensor; with the three crops in the dataset and at least
    one sensor the configuration has a score, between 0 and 1. *)
Theorem configuracion_aleatoria_dentro (n : Z) (ds : list Punto)
    (g : Generador) :
  ds <> [] -> en_rango g ->
  exists a b c d sensores,
    columna_min (map Latitud ds) = Some a
    /\ columna_max (map Latitud ds) = Some b
    /\ columna_min (map Longitud ds) = Some c
    /\ columna_max (map Longitud ds) = Some d
    /\ configuracion_aleatoria n ds g
       = Ok (sensores, avanzar (2 * Z.to_nat n) g)
    /\ length sensores = Z.to_nat n
    /\ Forall (sensor_dentro a b c d) sensores
    /\ (cultivos_presentes ds -> (1 <= n)%Z ->
        exists puntaje,
          funcion_objetivo sensores ds = Ok puntaje /\ 0 <= puntaje <= 1).
Proof.
  intros Hne Hg.
  destruct (configuracion_aleatoria_ok n ds g Hne)
    as [a [b [c [d [pares [Ea [Ec [E [L D]]]]]]]]].
  exists a, b, c, d, (map sensor_de pares).
  destruct (columna_min (map Latitud ds)) as [a'|]; [|discriminate].
  destruct (columna_max (map Latitud ds)) as [b'|]; [|discriminate].
  destruct (columna_min (map Longitud ds)) as [c'|]; [|discriminate].
  destruct (columna_max (map Longitud ds)) as [d'|]; [|discriminate].
  cbn [par_limites] in Ea, Ec.
  assert (a' = a /\ b' = b) as [-> ->] by (split; congruence).
  assert (c' = c /\ d' = d) as [-> ->] by (split; congruence).
  repeat (split; [reflexivity|]).
  split; [exact E|]. split; [rewrite length_map; exact L|].
  split; [apply D; exact Hg|].
  intros Hpres H1. apply funcion_objetivo_ok; [|apply Forall_forall|exact Hpres].
  - destruct pares; [simpl in L; lia|discriminate].
  - intros s Hs. apply in_map_iff in Hs. destruct Hs as [p [<- _]].
    apply bien_formado_par.
Qed.

Lemma configuracion_aleatoria_dentro_testigo :
  exists a b c d sensores,
    columna_min (map Latitud datos_cuadrado) = Some a
    /\ columna_max (map Latitud datos_cuadrado) = Some b
    /\ columna_min (map Longitud datos_cuadrado) = Some c
    /\ columna_max (map Longitud datos_cuadrado) = Some d
    /\ configuracion_aleatoria 3 datos_cuadrado gen_medio
       = Ok (sensores, avanzar (2 * Z.to_nat 3) gen_medio)
    /\ length sensores = Z.to_nat 3
    /\ Forall (sensor_dentro a b c d) sensores
    /\ (cultivos_presentes datos_cuadrado -> (1 <= 3)%Z ->
        exists puntaje,
          funcion_objetivo sensores datos_cuadrado = Ok puntaje
          /\ 0 <= puntaje <= 1).
Proof.
  apply (configuracion_aleatoria_dentro 3 datos_cuadrado gen_medio).
  - discriminate.
  - exact en_rango_medio.
Defined.

Lemma completar_una_pasada (n : Z) (ds : list Punto) (sensores : list Sensor)
    (g : Generador) (k : nat) :
  ds <> [] -> (Z.of_nat (length sensores) < n)%Z ->
  exists pares,
    completar (S k) n ds sensores g
    = Some (Ok (sensores ++ map sensor_de pares,
                avanzar (2 * (Z.to_nat n - length sensores)) g))
    /\ length pares = (Z.to_nat n - length sensores)%nat.
Proof.
  intros Hne Hlt.
  destruct (configuracion_aleatoria_ok (n - Z.of_nat (length sensores)) ds g Hne)
    as [a [b [c [d [pares [_ [_ [E [L _]]]]]]]]].
  assert (Hk : Z.to_nat (n - Z.of_nat (length sensores))
               = (Z.to_nat n - length sensores)%nat) by lia.
  rewrite Hk in E, L.
  exists pares. split; [|exact L].
  cbn [completar].
  replace (Z.of_nat (length sensores) <? n)%Z with true
    by (symmetry; apply Z.ltb_lt; exact Hlt).
  rewrite E.
  assert (Hfin : (Z.of_nat (length (sensores ++ map sensor_de pares)) <? n)%Z
                 = false).
  { apply Z.ltb_ge. rewrite length_app, length_map, L. lia. }
  destruct k as [|k]; cbn [completar]; rewrite Hfin; reflexivity.
Qed.

Lemma coords_sensor_de (filas : list Punto) :
  map coords filas = map sensor_de (map lugar filas).
Proof. rewrite map_map. reflexivity. Qed.

Lemma cerca_en_su_lugar (radio : R) (sensores : list (R * R)) (p : Punto) :
  0 <= radio -> In (lugar p) sensores -> cerca radio sensores p = true.
Proof.
  intros Hr Hin. unfold cerca. apply existsb_exists.
  exists (lugar p). split; [exact Hin|].
  unfold Rle_b, distancia.
  replace ((fst (lugar p) - fst (lugar p)) ^ 2
           + (snd (lugar p) - snd (lugar p)) ^ 2) with 0 by ring.
  rewrite sqrt_0. destruct (Rle_dec 0 radio); [reflexivity|contradiction].
Qed.

Lemma cubrir_zonas_uno (sensores : list (R * R)) (ds : list Punto) :
  (forall p, In p ds -> es_critica p = true ->
             cerca (1 / 100) sensores p = true) ->
  cubrir_zonas_problematicas (map sensor_de sensores) ds = Ok 1.
Proof.
  intros H. unfold cubrir_zonas_problematicas.
  destruct (filter es_critica ds) as [|z zs] eqn:F; [reflexivity|].
  rewrite contar_cubiertos_filtro. cbn [ligar Nat.add].
  assert (L : length (filter (cerca (1 / 100) sensores) (z :: zs))
              = length (z :: zs)).
  { apply filtro_completo. intros p Hp. rewrite <- F in Hp.
    apply filter_In in Hp. apply H; apply Hp. }
  rewrite L. f_equal. field.
  apply not_0_INR. simpl. lia.
Qed.

Lemma contrato_todas (nl : Z -> list Punto -> list Punto) (n : Z)
    (filas : list Punto) :
  contrato_nlargest nl -> (Z.of_nat (length filas) <= n)%Z ->
  Permutation (nl n filas) filas.
Proof.
  intros C Hn. destruct (C n filas) as [resto [P [L _]]].
  pose proof (Permutation_length P) as Lp. rewrite length_app in Lp.
  assert (resto = []) as -> by (destruct resto; [reflexivity|simpl in Lp; lia]).
  rewrite app_nil_r in P. exact P.
Qed.

Lemma filtro_permutacion {A} (f : A -> bool) (l l' : list A) :
  Permutation l l' -> length (filter f l) = length (filter f l').
Proof.
  induction 1 as [|x l l' _ IH|x y l|l l' l'' _ IH1 _ IH2].
  - reflexivity.
  - cbn [filter]. destruct (f x); simpl; congruence.
  - cbn [filter]. destruct (f x), (f y); reflexivity.
  - congruence.
Qed.

Lemma filtro_ninguno {A} (f : A -> bool) (l : list A) :
  (forall x, In x l -> f x = false) -> filter f l = [].
Proof.
  induction l as [|x l IH]; intros H; [reflexivity|].
  cbn [filter]. rewrite (H x (or_introl eq_refl)).
  apply IH. intros y Hy. apply H. right. exact Hy.
Qed.

Lemma filtro_falta_uno {A} (f : A -> bool) (l : list A) (x : A) :
  In x l -> f x = false -> (length (filter f l) < length l)%nat.
Proof.
  induction l as [|y l IH]; intros Hin Hf; [contradiction|].
  cbn [filter]. pose proof (filter_length_le f l) as Hle.
  destruct Hin as [->|Hin].
  - rewrite Hf. simpl. lia.
  - specialize (IH Hin Hf). destruct (f y); simpl; lia.
Qed.

Lemma insertar_desc_perm (p : Punto) (l : list Punto) :
  Permutation (insertar_desc p l) (p :: l).
Proof.
  induction l as [|q l IH]; [apply Permutation_refl|].
  cbn [insertar_desc].
  destruct (Rle_b (Salinidad q) (Salinidad p)); [apply Permutation_refl|].
  apply perm_trans with (q :: p :: l); [apply perm_skip; exact IH|apply perm_swap].
Qed.

Lemma ordenar_desc_perm (l : list Punto) : Permutation (ordenar_desc l) l.
Proof.
  induction l as [|p l IH]; [apply perm_nil|].
  unfold ordenar_desc. cbn [fold_right]. fold (ordenar_desc l).
  apply perm_trans with (p :: ordenar_desc l);
    [apply insertar_desc_perm|apply perm_skip; exact IH].
Qed.

Lemma insertar_desc_orden (p : Punto) (l : list Punto) :
  ForallOrdPairs (fun x y => Salinidad y <= Salinidad x) l ->
  ForallOrdPairs (fun x y => Salinidad y <= Salinidad x) (insertar_desc p l).
Proof.
  induction 1 as [|q l Hq Hl IH]; [repeat constructor|].
  cbn [insertar_desc]. unfold Rle_b.
  destruct (Rle_dec (Salinidad q) (Salinidad p)) as [Hle|Hgt].
  - constructor; [|constructor; assumption].
    constructor; [exact Hle|].
    eapply Forall_impl; [|exact Hq]. intros x Hx. cbv beta in Hx. lra.
  - constructor; [|exact IH].
    apply Forall_forall. intros x Hx.
    apply (Permutation_in _ (insertar_desc_perm p l)) in Hx.
    destruct Hx as [<-|Hx]; [lra|].
    rewrite Forall_forall in Hq. apply Hq. exact Hx.
Qed.

Lemma ordenar_desc_orden (l : list Punto) :
  ForallOrdPairs (fun x y => Salinidad y <= Salinidad x) (ordenar_desc l).
Proof.
  induction l as [|p l IH]; [constructor|].
  unfold ordenar_desc. cbn [fold_right]. fold (ordenar_desc l).
  apply insertar_desc_orden. exact IH.
Qed.

Lemma en_skipn {A} (k : nat) (l : list A) (x : A) :
  In x (skipn k l) -> In x l.
Proof.
  revert l. induction k as [|k IH]; intros l H; [exact H|].
  destruct l as [|y l]; [contradiction|]. right. apply IH. exact H.
Qed.

Lemma primeros_dominan (l : list Punto) :
  ForallOrdPairs (fun x y => Salinidad y <= Salinidad x) l ->
  forall k p q, In p (firstn k l) -> In q (skipn k l) ->
                Salinidad q <= Salinidad p.
Proof.
  induction 1 as [|x l Hx Hl IH]; intros k p q Hp Hq.
  - destruct k; contradiction.
  - destruct k as [|k]; [contradiction|].
    cbn [firstn skipn] in Hp, Hq. destruct Hp as [<-|Hp].
    + rewrite Forall_forall in Hx. apply Hx.
      apply (en_skipn _ _ _ Hq).
    + apply (IH k); assumption.
Qed.

Lemma nlargest_estable_contrato : contrato_nlargest nlargest_estable.
Proof.
  intros n filas. exists (skipn (Z.to_nat n) (ordenar_desc filas)).
  unfold nlargest_estable. split; [|split].
  - rewrite firstn_skipn. apply ordenar_desc_perm.
  - rewrite length_firstn, (Permutation_length (ordenar_desc_perm filas)).
    reflexivity.
  - intros p q Hp Hq.
    apply (primeros_dominan _ (ordenar_desc_orden filas) (Z.to_nat n)); assumption.
Qed.

Lemma sensores_de_bien_formados (pares : list (R * R)) :
  Forall bien_formado (map sensor_de pares).
Proof.
  apply Forall_forall. intros s Hs. apply in_map_iff in Hs.
  destruct Hs as [c [<- _]]. apply bien_formado_par.
Qed.

(** The shape of what [configuracion_zonas_criticas] returns. *)
Lemma zonas_criticas_forma (nl : Z -> list Punto -> list Punto)
    (pasadas : nat) (n : Z) (ds : list Punto) (g : Generador) :
  contrato_nlargest nl -> (0 <= n)%Z -> ds <> [] -> (1 <= pasadas)%nat ->
  exists pares,
    configuracion_zonas_criticas nl pasadas n ds g
    = Some (Ok (map sensor_de pares,
                avanzar (2 * (Z.to_nat n - length (filter es_critica ds))) g))
    /\ length pares = Z.to_nat n
    /\ ((Z.of_nat (length (filter es_critica ds)) <= n)%Z ->
        forall p, In p ds -> es_critica p = true -> In (lugar p) pares).
Proof.
  intros C Hn Hne Hp. unfold configuracion_zonas_criticas.
  destruct (n <=? Z.of_nat (length (filter es_critica ds)))%Z eqn:Hc.
  - apply Z.leb_le in Hc.
    exists (map lugar (nl n (filter es_critica ds))).
    replace (Z.to_nat n - length (filter es_critica ds))%nat with 0%nat by lia.
    rewrite avanzar_cero, coords_sensor_de. split; [reflexivity|].
    destruct (C n (filter es_critica ds)) as [resto [_ [L _]]].
    split; [rewrite length_map, L; lia|].
    intros Hle p Hd Hcr. apply in_map.
    apply (Permutation_in _ (Permutation_sym (contrato_todas nl n _ C Hle))).
    apply filter_In. auto.
  - apply Z.leb_gt in Hc.
    destruct pasadas as [|k]; [lia|].
    destruct (completar_una_pasada n ds (map coords (filter es_critica ds)) g k
                Hne) as [pares [E L]]; [rewrite length_map; exact Hc|].
    rewrite length_map in E, L. rewrite coords_sensor_de, <- map_app in E.
    exists (map lugar (filter es_critica ds) ++ pares).
    split; [rewrite coords_sensor_de; exact E|]. split; [rewrite length_app, length_map, L; lia|].
    intros _ p Hd Hcr. apply in_or_app. left. apply in_map.
    apply filter_In. auto.
Qed.

(** With a dataset of at least one row and a non-negative number of
    sensors, the critical-zone baseline returns exactly [n_sensores] sensors,
    each a [[lat, lon]] pair, after at most one pass of its filling loop; it
    consumes two draws for every sensor the critical rows do not supply, and
    none when there are at least [n_sensores] critical rows. *)
Theorem zonas_criticas_cantidad (nl : Z -> list Punto -> list Punto)
    (pasadas : nat) (n : Z) (ds : list Punto) (g : Generador) :
  contrato_nlargest nl -> (0 <= n)%Z -> ds <> [] -> (1 <= pasadas)%nat ->
  exists sensores,
    configuracion_zonas_criticas nl pasadas n ds g
    = Some (Ok (sensores,
                avanzar (2 * (Z.to_nat n - length (filter es_critica ds))) g))
    /\ length sensores = Z.to_nat n
    /\ Forall (fun s => length s = 2%nat) sensores.
Proof.
  intros C Hn Hne Hp.
  destruct (zonas_criticas_forma nl pasadas n ds g C Hn Hne Hp)
    as [pares [E [L _]]].
  exists (map sensor_de pares). split; [exact E|].
  split; [rewrite length_map; exact L|].
  apply Forall_forall. intros s Hs. apply in_map_iff in Hs.
  destruct Hs as [c [<- _]]. reflexivity.
Qed.

Lemma zonas_criticas_cantidad_testigo :
  exists sensores,
    configuracion_zonas_criticas nlargest_estable 1 3 datos_salinos gen_medio
    = Some (Ok (sensores,
                avanzar (2 * (Z.to_nat 3
                              - length (filter es_critica datos_salinos)))
                        gen_medio))
    /\ length sensores = Z.to_nat 3
    /\ Forall (fun s => length s = 2%nat) sensores.
Proof.
  apply (zonas_criticas_cantidad nlargest_estable 1 3 datos_salinos gen_medio).
  - exact nlargest_estable_contrato.
  - lia.
  - discriminate.
  - lia.
Defined.

(** When the number of sensors is at least the number of critical rows,
    every critical row gets a sensor on its own spot, so the configuration
    the critical-zone baseline returns scores 1 on the critical-zone
    sub-score; with the three crops in the dataset and at least one sensor
    its total score is therefore at least the weight of that sub-score,
    1/4. *)
Theorem zonas_criticas_puntaje_pleno (nl : Z -> list Punto -> list Punto)
    (pasadas : nat) (n : Z) (ds : list Punto) (g : Generador) :
  contrato_nlargest nl ->
  (Z.of_nat (length (filter es_critica ds)) <= n)%Z ->
  ds <> [] -> (1 <= pasadas)%nat ->
  exists sensores g',
    configuracion_zonas_criticas nl pasadas n ds g = Some (Ok (sensores, g'))
    /\ (forall p, In p ds -> es_critica p = true -> In (coords p) sensores)
    /\ cubrir_zonas_problematicas sensores ds = Ok 1
    /\ (cultivos_presentes ds -> (1 <= n)%Z ->
        exists puntaje,
          funcion_objetivo sensores ds = Ok puntaje /\ 1 / 4 <= puntaje <= 1).
Proof.
  intros C Hn Hne Hp.
  destruct (zonas_criticas_forma nl pasadas n ds g C ltac:(lia) Hne Hp)
    as [pares [E [L Hin]]].
  specialize (Hin Hn).
  assert (Hcri : cubrir_zonas_problematicas (map sensor_de pares) ds = Ok 1).
  { apply cubrir_zonas_uno. intros p Hd Hcr.
    apply cerca_en_su_lugar; [lra|]. apply Hin; assumption. }
  exists (map sensor_de pares). eexists. split; [exact E|]. split; [|split].
  - intros p Hd Hcr.
    change (coords p) with (sensor_de (lugar p)). apply in_map.
    apply Hin; assumption.
  - exact Hcri.
  - intros Hpres H1.
    pose proof (sensores_de_bien_formados pares) as Hbf.
    assert (Hs : map sensor_de pares <> []).
    { destruct pares; [simpl in L; lia|discriminate]. }
    destruct (cobertura_rango _ ds Hs Hbf Hne) as [cob [Hcob Bcob]].
    destruct (balance_rango _ ds Hbf Hpres) as [bal [Hbal Bbal]].
    destruct (distribucion_rango _ Hbf) as [dis [Hdis Bdis]].
    unfold funcion_objetivo. rewrite Hcob, Hbal, Hcri, Hdis. cbn [ligar].
    eexists. split; [reflexivity|].
    unfold CONFIG.peso_cobertura, CONFIG.peso_balance_cultivos,
      CONFIG.peso_zonas_criticas, CONFIG.peso_distribucion. lra.
Qed.

Lemma zonas_criticas_puntaje_pleno_testigo :
  exists sensores g',
    configuracion_zonas_criticas nlargest_estable 1 2 datos_salinos gen_medio
    = Some (Ok (sensores, g'))
    /\ (forall p, In p datos_salinos -> es_critica p = true ->
                  In (coords p) sensores)
    /\ cubrir_zonas_problematicas sensores datos_salinos = Ok 1
    /\ (cultivos_presentes datos_salinos -> (1 <= 2)%Z ->
        exists puntaje,
          funcion_objetivo sensores datos_salinos = Ok puntaje
          /\ 1 / 4 <= puntaje <= 1).
Proof.
  apply (zonas_criticas_puntaje_pleno nlargest_estable 1 2 datos_salinos
           gen_medio).
  - exact nlargest_estable_contrato.
  - rewrite criticas_salinos. simpl. lia.
  - discriminate.
  - lia.
Defined.

(** With at least [n_sensores] critical rows the critical-zone baseline
    draws nothing: its [n_sensores] sensors sit on critical rows of the
    dataset, and each of those rows is among the [n_sensores] most saline
    critical rows (fewer than [n_sensores] critical rows are strictly more
    saline). *)
Theorem zonas_criticas_las_mas_salinas (nl : Z -> list Punto -> list Punto)
    (pasadas : nat) (n : Z) (ds : list Punto) (g : Generador) :
  contrato_nlargest nl ->
  (0 <= n <= Z.of_nat (length (filter es_critica ds)))%Z ->
  exists elegidas,
    configuracion_zonas_criticas nl pasadas n ds g
    = Some (Ok (map coords elegidas, g))
    /\ length elegidas = Z.to_nat n
    /\ forall p, In p elegidas ->
         In p ds /\ es_critica p = true
         /\ (length (filter (fun q => Rlt_b (Salinidad p) (Salinidad q))
                            (filter es_critica ds)) < Z.to_nat n)%nat.
Proof.
  intros C [H0 Hn]. unfold configuracion_zonas_criticas.
  replace (n <=? Z.of_nat (length (filter es_critica ds)))%Z with true
    by (symmetry; apply Z.leb_le; exact Hn).
  exists (nl n (filter es_critica ds)). split; [reflexivity|].
  destruct (C n (filter es_critica ds)) as [resto [P [L D]]].
  split; [rewrite L; lia|].
  intros p Hp.
  assert (Hf : In p (filter es_critica ds)).
  { apply (Permutation_in _ P). apply in_or_app. left. exact Hp. }
  apply filter_In in Hf. split; [apply Hf|]. split; [apply Hf|].
  rewrite <- (filtro_permutacion _ _ _ P), filter_app, length_app.
  rewrite (filtro_ninguno _ resto).
  - cbn [length]. rewrite Nat.add_0_r.
    apply Nat.lt_le_trans with (length (nl n (filter es_critica ds)));
      [|rewrite L; lia].
    apply filtro_falta_uno with p; [exact Hp|].
    unfold Rlt_b. destruct (Rlt_dec (Salinidad p) (Salinidad p)); [lra|reflexivity].
  - intros q Hq. specialize (D p q Hp Hq).
    unfold Rlt_b. destruct (Rlt_dec (Salinidad p) (Salinidad q)); [lra|reflexivity].
Qed.

Lemma zonas_criticas_las_mas_salinas_testigo :
  exists elegidas,
    configuracion_zonas_criticas nlargest_estable 1 1 datos_salinos gen_medio
    = Some (Ok (map coords elegidas, gen_medio))
    /\ length elegidas = Z.to_nat 1
    /\ forall p, In p elegidas ->
         In p datos_salinos /\ es_critica p = true
         /\ (length (filter (fun q => Rlt_b (Salinidad p) (Salinidad q))
                            (filter es_critica datos_salinos))
             < Z.to_nat 1)%nat.
Proof.
  apply (zonas_criticas_las_mas_salinas nlargest_estable 1 1 datos_salinos
           gen_medio).
  - exact nlargest_estable_contrato.
  - rewrite criticas_salinos. simpl. lia.
Defined.

(** Without rows, both baselines raise [OverflowError] as soon as they have
    to draw a sensor: the extrema of the empty columns are not numbers. *)
Theorem configuraciones_sin_datos (nl : Z -> list Punto -> list Punto)
    (pasadas : nat) (n : Z) (g : Generador) :
  (1 <= n)%Z -> (1 <= pasadas)%nat ->
  configuracion_aleatoria n [] g = Error OverflowError
  /\ configuracion_zonas_criticas nl pasadas n [] g = Some (Error OverflowError).
Proof.
  intros Hn Hp.
  assert (E : forall k, (1 <= k)%Z ->
                configuracion_aleatoria k [] g = Error OverflowError).
  { intros k Hk. unfold configuracion_aleatoria.
    destruct (Z.to_nat k) as [|j] eqn:Ej; [lia|]. reflexivity. }
  split; [apply E; exact Hn|].
  unfold configuracion_zonas_criticas. cbn [filter length map].
  replace (n <=? Z.of_nat 0)%Z with false by (symmetry; apply Z.leb_gt; lia).
  destruct pasadas as [|k]; [lia|]. cbn [completar length].
  replace (Z.of_nat 0 <? n)%Z with true by (symmetry; apply Z.ltb_lt; lia).
  rewrite E; [reflexivity|lia].
Qed.

Lemma configuraciones_sin_datos_testigo :
  configuracion_aleatoria 1 [] gen_medio = Error OverflowError
  /\ configuracion_zonas_criticas nlargest_estable 1 1 [] gen_medio
     = Some (Error OverflowError).
Proof.
  apply (configuraciones_sin_datos nlargest_estable 1 1 gen_medio); lia.
Defined.
